(** * chiranchatbox: keyword-indexed knowledge retrieval and session state

    A shallow embedding of the retrieval engine (services/knowledge),
    the dialog service (services/dialog) and the response generator
    (services/response) of the nursing chatbot, with the properties of
    its specification stated over that embedding.

    JavaScript strings are sequences of UTF-16 code units; they are
    modelled as [list N], so that [length], [substring] and [includes]
    count exactly what the source counts. *)

From Stdlib Require Import String Ascii NArith QArith Qround DecimalString.
From stdpp Require Import base list gmap.

Local Open Scope N_scope.

(** ** JavaScript strings *)

Module JS.

Abbreviation jsstring := (list N).

(** Decoding of the UTF-8 bytes of a literal of this file into UTF-16
    code units, so that the literals of the source can be written as
    they are. *)
Fixpoint bytes_of (s : string) : list N :=
  match s with
  | EmptyString => []
  | String a r => N_of_ascii a :: bytes_of r
  end.

Definition cont (b : N) : N := N.land b 0x3F.

Fixpoint utf16_of_utf8 (bs : list N) : jsstring :=
  match bs with
  | [] => []
  | b0 :: r0 =>
    if b0 <? 0x80 then b0 :: utf16_of_utf8 r0
    else match r0 with
    | [] => [0xFFFD]
    | b1 :: r1 =>
      if b0 <? 0xE0 then
        N.lor (N.shiftl (N.land b0 0x1F) 6) (cont b1) :: utf16_of_utf8 r1
      else match r1 with
      | [] => [0xFFFD]
      | b2 :: r2 =>
        if b0 <? 0xF0 then
          N.lor (N.shiftl (N.land b0 0x0F) 12)
                (N.lor (N.shiftl (cont b1) 6) (cont b2)) :: utf16_of_utf8 r2
        else match r2 with
        | [] => [0xFFFD]
        | b3 :: r3 =>
          let cp := N.lor (N.shiftl (N.land b0 0x07) 18)
                     (N.lor (N.shiftl (cont b1) 12)
                       (N.lor (N.shiftl (cont b2) 6) (cont b3))) in
          let v := cp - 0x10000 in
          (0xD800 + N.shiftr v 10) :: (0xDC00 + N.land v 0x3FF)
            :: utf16_of_utf8 r3
        end
      end
    end
  end.

Definition lit (s : string) : jsstring := utf16_of_utf8 (bytes_of s).

(** [s === t] on strings. *)
Fixpoint streq (s t : jsstring) : bool :=
  match s, t with
  | [], [] => true
  | c :: s', d :: t' => (c =? d) && streq s' t'
  | _, _ => false
  end.

(** [s.startsWith(p)] *)
Fixpoint startsWith (s p : jsstring) {struct p} : bool :=
  match p with
  | [] => true
  | c :: p' =>
    match s with
    | [] => false
    | d :: s' => (d =? c) && startsWith s' p'
    end
  end.

(** [s.includes(needle)]: [needle] occurs in [s] as a contiguous run. *)
Fixpoint includes (s needle : jsstring) : bool :=
  startsWith s needle ||
  match s with
  | [] => false
  | _ :: s' => includes s' needle
  end.

(** ECMAScript LineTerminator code points. *)
Definition isLineTerminator (c : N) : bool :=
  (c =? 0x0A) || (c =? 0x0D) || (c =? 0x2028) || (c =? 0x2029).

(** ECMAScript WhiteSpace and LineTerminator code points: what [trim]
    strips and what [\s] matches. *)
Definition isWhiteSpace (c : N) : bool :=
  (c =? 0x09) || (c =? 0x0B) || (c =? 0x0C) || (c =? 0x20) || (c =? 0xA0)
  || (c =? 0x1680) || ((0x2000 <=? c) && (c <=? 0x200A))
  || (c =? 0x202F) || (c =? 0x205F) || (c =? 0x3000) || (c =? 0xFEFF)
  || isLineTerminator c.

Fixpoint trimStart (s : jsstring) : jsstring :=
  match s with
  | [] => []
  | c :: s' => if isWhiteSpace c then trimStart s' else s
  end.

Definition trimEnd (s : jsstring) : jsstring :=
  reverse (trimStart (reverse s)).

(** [s.trim()] *)
Definition trim (s : jsstring) : jsstring := trimEnd (trimStart s).

(** [s.substring(0, n)] *)
Definition substring0 (n : nat) (s : jsstring) : jsstring := take n s.

(** [s.split(sep)] for a non-empty separator: the pieces between the
    successive non-overlapping occurrences of [sep], scanning from the
    left.  [cur] holds, reversed, the piece being read; [skip] counts the
    code units of a separator just found that are still to be passed. *)
Fixpoint split_go (sep : jsstring) (skip : nat) (cur : jsstring)
    (s : jsstring) : list jsstring :=
  match s with
  | [] => [reverse cur]
  | c :: s' =>
    match skip with
    | S k => split_go sep k cur s'
    | O =>
      if startsWith s sep
      then reverse cur :: split_go sep (length sep - 1)%nat [] s'
      else split_go sep 0 (c :: cur) s'
    end
  end.

Definition split (s sep : jsstring) : list jsstring := split_go sep 0 [] s.

(** [s.replace(pat, by)] with a string pattern: the first occurrence
    only. *)
Fixpoint replace (s pat by_ : jsstring) : jsstring :=
  if startsWith s pat then by_ ++ drop (length pat) s
  else match s with
       | [] => []
       | c :: s' => c :: replace s' pat by_
       end.

End JS.
Import JS.

Definition LF : N := 0x0A.
Definition HASH : N := 0x23.

(** ** Values, completions and the host *)

(** A value produced by [JSON.parse].  The fields of an object are listed
    in the order in which [Object.entries] enumerates them. *)
#[warnings="-register-all"] Inductive jsval :=
| JNull
| JBool (b : bool)
| JNum (q : Q)
| JStr (s : jsstring)
| JArr (items : list jsval)
| JObj (fields : list (jsstring * jsval)).

(** [!!v] *)
Definition truthy (v : jsval) : bool :=
  match v with
  | JNull => false
  | JBool b => b
  | JNum q => negb (Qeq_bool q 0)
  | JStr s => negb (streq s [])
  | JArr _ | JObj _ => true
  end.

(** The outcome of evaluating a piece of code: a value, or an exception
    on its way to the nearest [catch].  An awaited promise that rejects
    is a [Throw] as well.  What is thrown is only ever logged. *)
Inductive completion (A : Type) :=
| Normal (a : A)
| Throw.
Arguments Normal {A} a.
Arguments Throw {A}.

Global Instance completion_ret : MRet completion := λ A a, Normal a.
Global Instance completion_bind : MBind completion := λ A B f c,
  match c with
  | Normal a => f a
  | Throw => Throw
  end.

(** [try { body } catch (error) { return handler }] *)
Definition try_catch {A} (body : completion A) (handler : A) : completion A :=
  match body with
  | Normal a => Normal a
  | Throw => Normal handler
  end.

(** What the program takes from its JavaScript host: the Unicode case
    mapping of [String.prototype.toLowerCase] and [JSON.parse], [None]
    standing for its [SyntaxError]. *)
Class Host := {
  toLowerCase : jsstring → jsstring;
  JSON_parse : jsstring → option jsval
}.

(** The KV namespace binding [config.kv.nursing_knowledge], as one
    request observes it: [kv_get key] is the awaited result of
    [get(key)], [None] for [null]; [kv_list] holds the [name]s of
    [(await list({prefix: 'knowledge:'})).keys], and is [Throw] when the
    call rejects or its result has another shape. *)
Record KVNamespace := {
  kv_get : jsstring → completion (option jsstring);
  kv_list : completion (list jsstring)
}.

(** The decimal string of an array index. *)
Definition index_key (i : nat) : jsstring :=
  lit (NilEmpty.string_of_uint (Nat.to_uint i)).

(** [Object.entries(v)] for a truthy [v]. *)
Definition Object_entries (v : jsval) : completion (list (jsstring * jsval)) :=
  match v with
  | JNull => Throw
  | JBool _ | JNum _ => Normal []
  | JStr s => Normal (imap (λ i c, (index_key i, JStr [c])) s)
  | JArr items => Normal (imap (λ i x, (index_key i, x)) items)
  | JObj fields => Normal fields
  end.

(** [v[name]] for a truthy [v] read from JSON: [None] is [undefined]. *)
Definition getProp (v : jsval) (name : jsstring) : option jsval :=
  match v with
  | JObj fields => snd <$> List.find (λ kv, streq (fst kv) name) fields
  | _ => None
  end.

(** ** Regular expressions of the shape the source uses

    A pattern is a sequence of items: the assertions [^] and [$] (with
    the [m] flag), a literal code unit, a greedy [c+] over a class of
    code units, and the parentheses of the one capture group. *)
Inductive item :=
| Bol
| Eol
| Lit (c : N)
| Plus (cls : N → bool)
| Open
| Close.

(** One attempt at the current position, with backtracking into the
    greedy repetitions.  [prev] is the code unit before the position,
    [rec] tells whether the position is inside the group, [acc] holds the
    group's text, reversed.  The result is the text of the group. *)
Fixpoint run (items : list item)
  : option N → bool → jsstring → jsstring → option jsstring :=
  match items with
  | [] => λ _ _ acc _, Some (reverse acc)
  | Bol :: rest => λ prev rec acc s,
      if match prev with None => true | Some c => isLineTerminator c end
      then run rest prev rec acc s else None
  | Eol :: rest => λ prev rec acc s,
      if match s with [] => true | c :: _ => isLineTerminator c end
      then run rest prev rec acc s else None
  | Lit c :: rest => λ prev rec acc s,
      match s with
      | d :: s' =>
          if d =? c
          then run rest (Some d) rec (if rec then d :: acc else acc) s'
          else None
      | [] => None
      end
  | Plus cls :: rest =>
      fix many (prev : option N) (rec : bool) (acc s : jsstring) :=
        match s with
        | d :: s' =>
            if cls d then
              let acc' := if rec then d :: acc else acc in
              match many (Some d) rec acc' s' with
              | Some g => Some g
              | None => run rest (Some d) rec acc' s'
              end
            else None
        | [] => None
        end
  | Open :: rest => λ prev _ _ s, run rest prev true [] s
  | Close :: rest => λ prev _ acc s, run rest prev false acc s
  end.

(** [RegExp.prototype.exec] without the [g] flag: the first position,
    from the left, at which an attempt succeeds. *)
Fixpoint exec_from (re : list item) (prev : option N) (s : jsstring)
  : option jsstring :=
  match run re prev false [] s with
  | Some g => Some g
  | None =>
    match s with
    | [] => None
    | c :: s' => exec_from re (Some c) s'
    end
  end.

(** [s.match(re)[1]], [None] when [s.match(re)] is [null]. *)
Definition match_group (s : jsstring) (re : list item) : option jsstring :=
  exec_from re None s.

(** ** The knowledge service *)

Module Knowledge.
Section Knowledge.
Context `{Host}.
(** [config.kv.nursing_knowledge]; [None] when the namespace is not set. *)
Variable nursing_knowledge : option KVNamespace.

Definition Department : jsstring := lit "Department:".

(** One element of a department listing. [id] is [entry.id], whatever the
    stored record holds there. *)
Record summary := {
  id : option jsval;
  title : jsstring;
  description : jsstring
}.

Record listing := {
  isDepartmentListing : bool;
  department : jsstring;
  entries : list summary
}.

(** What [getResponse] resolves to, when it is not [null]: the object
    literal of a department listing, or the stored record as parsed. *)
Inductive response :=
| Listing (l : listing)
| Document (knowledgeEntry : jsval).

(** [/^#\s+(.+)$/m] *)
Definition titlePattern : list item :=
  [Bol; Lit HASH; Plus isWhiteSpace; Open;
   Plus (λ c, negb (isLineTerminator c)); Close; Eol].

Definition extractTitle (text : jsstring) : jsstring :=
  match match_group text titlePattern with
  | Some g => trim g
  | None => lit "未命名知識條目"
  end.

(** The loop of [extractDescription]: the first paragraph that does not
    start with [#] and is not blank, trimmed; [''] when there is none. *)
Fixpoint firstParagraph (paragraphs : list jsstring) : jsstring :=
  match paragraphs with
  | [] => []
  | paragraph :: rest =>
    if negb (startsWith paragraph (lit "#"))
       && (0 <? length (trim paragraph))%nat
    then trim paragraph
    else firstParagraph rest
  end.

Definition extractDescription (text : jsstring) : jsstring :=
  let paragraphs := split text [LF; LF] in
  let description := firstParagraph paragraphs in
  let description :=
    if (50 <? length description)%nat
    then substring0 50 description ++ lit "..."
    else description in
  if streq description [] then lit "無描述" else description.

Definition getKeywordIndex : completion jsval :=
  try_catch
    (match nursing_knowledge with
     | None => Normal JNull
     | Some kv =>
       indexJson ← kv_get kv (lit "keyword-index");
       match indexJson with
       | None => Normal JNull
       | Some raw =>
         if streq raw [] then Normal JNull
         else match JSON_parse raw with
              | Some v => Normal v
              | None => Throw
              end
       end
     end)
    JNull.

(** [Object.entries(keywordIndex).find(([key, value]) =>
      key.toLowerCase() === lowerQuery && value.startsWith('Department:'))];
    [startsWith] is a method of strings only. *)
Fixpoint findDepartmentMatch (lowerQuery : jsstring)
    (entries : list (jsstring * jsval)) : completion (option (jsstring * jsstring)) :=
  match entries with
  | [] => Normal None
  | (key, value) :: rest =>
    if streq (toLowerCase key) lowerQuery then
      match value with
      | JStr v =>
        if startsWith v Department then Normal (Some (key, v))
        else findDepartmentMatch lowerQuery rest
      | _ => Throw
      end
    else findDepartmentMatch lowerQuery rest
  end.

(** The [for ... of Object.entries(keywordIndex)] loop. *)
Fixpoint scanKeywords (lowerQuery : jsstring)
    (entries : list (jsstring * jsval)) : completion (option jsstring) :=
  match entries with
  | [] => Normal None
  | (keyword, JStr knowledgeId) :: rest =>
    if startsWith knowledgeId Department then scanKeywords lowerQuery rest
    else if includes lowerQuery (toLowerCase keyword)
         then Normal (Some knowledgeId)
         else scanKeywords lowerQuery rest
  | (_, _) :: _ => Throw
  end.

Definition findMatchingEntryId (query : jsstring) (keywordIndex : jsval)
  : completion (option jsstring) :=
  let lowerQuery := trim (toLowerCase query) in
  entries ← Object_entries keywordIndex;
  departmentMatch ← findDepartmentMatch lowerQuery entries;
  match departmentMatch with
  | Some (_, marker) => Normal (Some marker)
  | None => scanKeywords lowerQuery entries
  end.

Definition getKnowledgeById (id : jsstring) : completion jsval :=
  try_catch
    (match nursing_knowledge with
     | None => Normal JNull
     | Some kv =>
       knowledgeJson ← kv_get kv (lit "knowledge:" ++ id);
       match knowledgeJson with
       | None => Normal JNull
       | Some raw =>
         if streq raw [] then Normal JNull
         else match JSON_parse raw with
              | Some v => Normal v
              | None => Throw
              end
       end
     end)
    JNull.

Definition getAllKnowledgeIds : completion (list jsstring) :=
  try_catch
    (match nursing_knowledge with
     | None => Normal []
     | Some kv =>
       keys ← kv_list kv;
       Normal (map (λ name, replace name (lit "knowledge:") []) keys)
     end)
    [].

(** [extractTitle(entry.text)] and [extractDescription(entry.text)] on a
    value that need not be a string: [match] and [split] are methods of
    strings only. *)
Definition textOf (text : option jsval) : completion jsstring :=
  match text with
  | Some (JStr s) => Normal s
  | _ => Throw
  end.

(** The callback of [departmentIds.map]; [None] is its [null]. *)
Definition summarize (id_ : jsstring) : completion (option summary) :=
  entry ← getKnowledgeById id_;
  if truthy entry then
    text ← textOf (getProp entry (lit "text"));
    Normal (Some {| id := getProp entry (lit "id");
                    title := extractTitle text;
                    description := extractDescription text |})
  else Normal None.

Definition getDepartmentEntries (department_ : jsstring)
  : completion (list summary) :=
  try_catch
    (let normalizedDepartment := toLowerCase (trim department_) in
     allIds ← getAllKnowledgeIds;
     let departmentIds :=
       List.filter (λ id_, startsWith id_ (normalizedDepartment ++ lit "-"))
                   allIds in
     if (length departmentIds =? 0)%nat then Normal []
     else
       entries ← mapM summarize departmentIds;
       Normal (omap (λ e, e) entries))
    [].

Definition getResponse (query : jsstring) : completion (option response) :=
  try_catch
    (keywordIndex ← getKeywordIndex;
     if negb (truthy keywordIndex) then Normal None
     else
       knowledgeId ← findMatchingEntryId query keywordIndex;
       match knowledgeId with
       | None => Normal None
       | Some knowledgeId =>
         if streq knowledgeId [] then Normal None
         else if startsWith knowledgeId Department then
           let department := replace knowledgeId Department [] in
           departmentEntries ← getDepartmentEntries department;
           if (0 <? length departmentEntries)%nat
           then Normal (Some (Listing
                  {| isDepartmentListing := true;
                     department := department;
                     entries := departmentEntries |}))
           else Normal (Some (Listing
                  {| isDepartmentListing := true;
                     department := department;
                     entries := [] |}))
         else
           knowledgeEntry ← getKnowledgeById knowledgeId;
           if truthy knowledgeEntry
           then Normal (Some (Document knowledgeEntry))
           else Normal None
       end)
    None.

End Knowledge.
End Knowledge.

(** ** The dialog service *)

Module Dialog.

Inductive role := user | bot.

Record entry := {
  entry_role : role;
  content : jsstring;
  timestamp : jsstring
}.

(** A value of the [userContexts] map. *)
Record context := {
  history : list entry;
  lastInteraction : jsstring
}.

(** The module's state, [userContexts], and the number of times the
    clock has been read so far. *)
Record world := {
  userContexts : gmap jsstring context;
  clock : nat
}.

Definition MAX_DIALOG_HISTORY : nat := 10.

(** Code that reads and updates the module's state. *)
Definition State (A : Type) : Type := world → A * world.

Global Instance State_ret : MRet State := λ A a w, (a, w).
Global Instance State_bind : MBind State := λ A B f c w,
  f (c w).1 (c w).2.

Section Dialog.
(** [now n] is what the [n]-th evaluation of [new Date().toISOString()]
    yields. *)
Variable now : nat → jsstring.
(** [JSON.stringify] on the messages passed to [recordBotMessage]. *)
Variable JSON_stringify : jsval → jsstring.

Definition newDate : State jsstring := λ w,
  (now (clock w), {| userContexts := userContexts w; clock := S (clock w) |}).

Definition has (userId : jsstring) : State bool := λ w,
  (bool_decide (is_Some (userContexts w !! userId)), w).

Definition set (userId : jsstring) (c : context) : State unit := λ w,
  (tt, {| userContexts := <[userId := c]> (userContexts w); clock := clock w |}).

(** [userContexts.get(userId)] for a key that is present; the context is
    an object shared with the map, so that the assignments to it that
    follow are updates of the map's value. *)
Definition get (userId : jsstring) : State context := λ w,
  (default {| history := []; lastInteraction := [] |} (userContexts w !! userId), w).

Definition update (userId : jsstring) (f : context → context) : State unit :=
  λ w, (tt, {| userContexts := alter f userId (userContexts w);
               clock := clock w |}).

Definition delete_ (userId : jsstring) : State unit := λ w,
  (tt, {| userContexts := delete userId (userContexts w); clock := clock w |}).

Definition getUserContext (userId : jsstring) : State context :=
  known ← has userId;
  _ ← (if negb known then
         t ← newDate;
         set userId {| history := []; lastInteraction := t |}
       else mret tt);
  t ← newDate;
  _ ← update userId (λ c, {| history := history c; lastInteraction := t |});
  get userId.

(** [context.history.push(e)] followed by the bound on the length. *)
Definition push (e : entry) (c : context) : context :=
  let pushed := history c ++ [e] in
  {| history := if (MAX_DIALOG_HISTORY <? length pushed)%nat
                then tail pushed else pushed;
     lastInteraction := lastInteraction c |}.

Definition record (userId : jsstring) (r : role) (text : jsstring)
  : State unit :=
  _ ← getUserContext userId;
  t ← newDate;
  update userId (push {| entry_role := r; content := text; timestamp := t |}).

Definition recordUserMessage (userId message : jsstring) : State unit :=
  record userId user message.

Definition recordUserImage (userId imageId : jsstring) : State unit :=
  record userId user (lit "[圖片: " ++ imageId ++ lit "]").

Definition recordUserVideo (userId videoId : jsstring) : State unit :=
  record userId user (lit "[影片: " ++ videoId ++ lit "]").

(** [message] is a string, or an array or object of messages. *)
Definition recordBotMessage (userId : jsstring) (message : jsstring + jsval)
  : State unit :=
  let messageStr :=
    match message with
    | inl s => s
    | inr v => JSON_stringify v
    end in
  record userId bot messageStr.

Definition getDialogHistory (userId : jsstring) : State (list entry) :=
  c ← getUserContext userId;
  mret (history c).

Definition clearUserContext (userId : jsstring) : State unit :=
  delete_ userId.

(** The append operations of the service. *)
Inductive append :=
| UserMessage (userId message : jsstring)
| UserImage (userId imageId : jsstring)
| UserVideo (userId videoId : jsstring)
| BotMessage (userId : jsstring) (message : jsstring + jsval).

Definition perform (a : append) : State unit :=
  match a with
  | UserMessage u m => recordUserMessage u m
  | UserImage u i => recordUserImage u i
  | UserVideo u v => recordUserVideo u v
  | BotMessage u m => recordBotMessage u m
  end.

Fixpoint performAll (ops : list append) : State unit :=
  match ops with
  | [] => mret tt
  | a :: rest => _ ← perform a; performAll rest
  end.

End Dialog.

Definition empty_world : world := {| userContexts := ∅; clock := 0 |}.

End Dialog.

(** ** The response generator *)

Module Response.

Definition defaultResponses : list jsstring := [
  lit "很抱歉，我目前沒有這方面的資訊。您可以嘗試輸入部門名稱（如「ICU」、「OR」、「ED」等）或特定教學關鍵詞（如「CVVH」）來查找相關知識。";
  lit "我無法回答這個問題。請嘗試輸入部門代碼（如「ICU」、「OPD」等）查看該部門所有可用的教學內容，或輸入特定關鍵詞查找具體知識。";
  lit "抱歉，我不太理解您的問題。您可以直接輸入部門名稱（例如「ICU」）來查看該部門的所有教學內容，或輸入具體的教學關鍵詞。";
  lit "這個問題超出了我的知識範圍。您可以嘗試輸入部門代碼或特定醫療設備的名稱來找到相關教學資訊。"
].

Definition friendlyPrefixes : list jsstring := [
  lit "很高興收到您的問題！";
  lit "謝謝您的提問。";
  lit "我很樂意幫助您。";
  lit "感謝您向我諮詢。"
].

Definition encouragingSuffixes : list jsstring := [
  lit "如果您有其他問題，請隨時提問。";
  lit "希望我的回答對您有所幫助。";
  lit "如果需要更多資訊，請告訴我。";
  lit "您還有其他問題嗎？我很樂意繼續為您服務。"
].

Definition greetingReply : jsstring :=
  lit "您好！我是三總護理助手，很高興為您服務。有什麼我可以幫您的嗎？".

Definition thanksReply : jsstring :=
  lit "不客氣！很高興能幫到您。如果有其他問題，隨時告訴我。".

Definition helpReply : jsstring :=
  lit "您可以使用以下方式找到所需資訊：" ++ [LF; LF] ++
  lit "1. 輸入部門代碼（如「ICU」、「ED」、「OR」、「OPD」、「WARD」）查看該部門的所有教學內容" ++ [LF; LF] ++
  lit "2. 輸入特定關鍵詞（如「CVVH」、「透析」等）查找具體的教學資訊" ++ [LF; LF] ++
  lit "3. 也可輸入您想了解的醫療設備或流程名稱".

(** [None] is [null]. *)
Definition handleSpecialKeywords (query : jsstring) : option jsstring :=
  if includes query (lit "你好") || includes query (lit "哈囉")
     || includes query (lit "嗨")
  then Some greetingReply
  else if includes query (lit "謝謝") || includes query (lit "感謝")
  then Some thanksReply
  else if includes query (lit "幫助") || includes query (lit "help")
          || includes query (lit "使用說明")
  then Some helpReply
  else None.

(** [pool[Math.floor(r * pool.length)]] for a reading [r] of
    [Math.random()], spliced into a template literal: a missing element
    reads as [undefined]. *)
Definition pick (pool : list jsstring) (r : Q) : jsstring :=
  let i := Qfloor (r * inject_Z (Z.of_nat (length pool))) in
  if (i <? 0)%Z then lit "undefined"
  else default (lit "undefined") (pool !! Z.to_nat i).

(** [r1], [r2] and [r3] are the three readings of [Math.random()], in the
    order in which they are taken. *)
Definition generateDefaultResponse (r1 r2 r3 : Q) : jsstring :=
  let prefix := pick friendlyPrefixes r1 in
  let response := pick defaultResponses r2 in
  let suffix := pick encouragingSuffixes r3 in
  prefix ++ lit " " ++ response ++ lit " " ++ suffix.

Definition generateGeneralResponse (query : jsstring) (r1 r2 r3 : Q)
  : jsstring :=
  match handleSpecialKeywords query with
  | Some specialResponse =>
    if streq specialResponse [] then generateDefaultResponse r1 r2 r3
    else specialResponse
  | None => generateDefaultResponse r1 r2 r3
  end.

End Response.

(** ** Reference points for the statements *)

(** The keyword index as the specification has it, a flat mapping from
    keyword to target in the order of [Object.entries], and the JSON
    object it is stored as. *)
Abbreviation KeywordIndex := (list (jsstring * jsstring)).

Definition wire (I : KeywordIndex) : jsval :=
  JObj (map (λ kv, (kv.1, JStr kv.2)) I).

Section Resolve.
Context `{Host}.

(** The normalized query of [findMatchingEntryId]. *)
Definition normalize (query : jsstring) : jsstring :=
  trim (toLowerCase query).

(** An entry is an exact department match for the normalized query [lq]:
    its keyword, lowercased, equals [lq] and its target is a department
    marker. *)
Definition exactDepartment (lq : jsstring) (kv : jsstring * jsstring) : bool :=
  streq (toLowerCase kv.1) lq && startsWith kv.2 Knowledge.Department.

(** The substring keyword scan in the words of the specification: among
    the non-department entries, in index order, the target of the first
    whose lowercased keyword is contained in the normalized query. *)
Definition substringScan (lq : jsstring) (I : KeywordIndex) : option jsstring :=
  snd <$> List.find (λ kv, includes lq (toLowerCase kv.1))
            (List.filter (λ kv, negb (startsWith kv.2 Knowledge.Department)) I).

End Resolve.

(** A fetch of [key] that does not yield a parsed value: the call
    rejects, the key is absent, or the stored text is not JSON. *)
Definition fetchFails `{Host} (ns : KVNamespace) (key : jsstring) : Prop :=
  kv_get ns key = Throw
  ∨ kv_get ns key = Normal None
  ∨ ∃ raw, kv_get ns key = Normal (Some raw) ∧ JSON_parse raw = None.

(** The last [n] elements of a list. *)
Definition lastN {A} (n : nat) (l : list A) : list A :=
  drop (length l - n) l.

Section DialogView.
Variable now : nat → jsstring.
Variable JSON_stringify : jsval → jsstring.

(** The history of a user in a state of the service, empty for a user
    without a context. *)
Definition historyOf (w : Dialog.world) (userId : jsstring) : list Dialog.entry :=
  match Dialog.userContexts w !! userId with
  | Some c => Dialog.history c
  | None => []
  end.

(** Every history of the state is within the bound. *)
Definition bounded (w : Dialog.world) : Prop :=
  ∀ userId c, Dialog.userContexts w !! userId = Some c →
    (length (Dialog.history c) ≤ Dialog.MAX_DIALOG_HISTORY)%nat.

(** What an append operation adds to a history, but for the timestamp,
    and for which user. *)
Definition target (a : Dialog.append) : jsstring :=
  match a with
  | Dialog.UserMessage u _ | Dialog.UserImage u _
  | Dialog.UserVideo u _ | Dialog.BotMessage u _ => u
  end.

Definition said (a : Dialog.append) : Dialog.role * jsstring :=
  match a with
  | Dialog.UserMessage _ m => (Dialog.user, m)
  | Dialog.UserImage _ i => (Dialog.user, lit "[圖片: " ++ i ++ lit "]")
  | Dialog.UserVideo _ v => (Dialog.user, lit "[影片: " ++ v ++ lit "]")
  | Dialog.BotMessage _ (inl s) => (Dialog.bot, s)
  | Dialog.BotMessage _ (inr v) => (Dialog.bot, JSON_stringify v)
  end.

(** The entries appended for [userId] by a sequence of operations, in
    order. *)
Definition appended (userId : jsstring) (ops : list Dialog.append)
  : list (Dialog.role * jsstring) :=
  map said (List.filter (λ a, bool_decide (target a = userId)) ops).

Definition shown (e : Dialog.entry) : Dialog.role * jsstring :=
  (Dialog.entry_role e, Dialog.content e).

(** The context handed out by [getUserContext], and the number of
    readings of the clock the call makes. *)
Definition touched (w : Dialog.world) (userId : jsstring) : Dialog.context :=
  match Dialog.userContexts w !! userId with
  | Some c => {| Dialog.history := Dialog.history c;
                 Dialog.lastInteraction := now (Dialog.clock w) |}
  | None => {| Dialog.history := [];
               Dialog.lastInteraction := now (S (Dialog.clock w)) |}
  end.

Definition readings (w : Dialog.world) (userId : jsstring) : nat :=
  match Dialog.userContexts w !! userId with
  | Some _ => 1
  | None => 2
  end.

(** A call that took the service from [w] to [after] appended the one
    entry [e] for [u]: [u]'s history is its former history followed by
    [e], less its oldest entry when that exceeds the bound; its
    [lastInteraction] is a reading of the clock taken during the call;
    and a history that was within the bound is the last 10 of the former
    history followed by [e]. *)
Definition appendsOne (w : Dialog.world) (u : jsstring) (e : Dialog.entry)
    (after : Dialog.world) : Prop :=
  ∃ c', Dialog.userContexts after !! u = Some c'
    ∧ Dialog.history c'
      = (if (10 <? length (historyOf w u ++ [e]))%nat
         then tail (historyOf w u ++ [e]) else historyOf w u ++ [e])
    ∧ (∃ n, (Dialog.clock w ≤ n < Dialog.clock after)%nat
            ∧ Dialog.lastInteraction c' = now n)
    ∧ ((length (historyOf w u) ≤ 10)%nat →
       (length (Dialog.history c') ≤ 10)%nat
       ∧ Dialog.history c' = lastN 10 (historyOf w u ++ [e])).

End DialogView.

(** The rule checks of [handleSpecialKeywords], each on the input as
    it is. *)
Definition greets (query : jsstring) : bool :=
  includes query (lit "你好") || includes query (lit "哈囉")
  || includes query (lit "嗨").

Definition thanks (query : jsstring) : bool :=
  includes query (lit "謝謝") || includes query (lit "感謝").

Definition asksHelp (query : jsstring) : bool :=
  includes query (lit "幫助") || includes query (lit "help")
  || includes query (lit "使用說明").

(** The texts [prefix body suffix] over the three pools. *)
Definition combinations : list jsstring :=
  flat_map (λ p,
    flat_map (λ b,
      map (λ s, p ++ lit " " ++ b ++ lit " " ++ s)
          Response.encouragingSuffixes)
      Response.defaultResponses)
    Response.friendlyPrefixes.

(** The lines of a text: the runs between its line terminators. *)
Fixpoint lines (s : jsstring) : list jsstring :=
  match s with
  | [] => [[]]
  | c :: s' =>
    if isLineTerminator c then [] :: lines s'
    else match lines s' with
         | l :: ls => (c :: l) :: ls
         | [] => [[c]]
         end
  end.

(** What follows goes on with white space, or ends. *)
Definition followedBySpace (s : jsstring) : bool :=
  match s with
  | [] => true
  | d :: _ => isWhiteSpace d
  end.

(** A line bears the heading marker: it starts with [#], and goes on with
    white space or ends there. *)
Definition headingMark (l : jsstring) : bool :=
  match l with
  | [] => false
  | c :: r => (c =? HASH) && followedBySpace r
  end.

(** [text] has a first heading line with the given content: up to a line
    break (or the start of the text) no line bears the heading marker;
    then come [#], one or more white space code units that are not line
    terminators, and the content, which starts with a code unit that is
    not white space and runs to the end of the line. *)
Inductive firstHeading : jsstring → jsstring → Prop :=
| FirstHeading (pre ws rest : jsstring) (c0 : N) (ct : jsstring) :
    (pre = [] ∨ ∃ p c, pre = p ++ [c] ∧ isLineTerminator c = true) →
    Forall (λ l, headingMark l = false) (lines pre) →
    ws ≠ [] →
    Forall (λ c, isWhiteSpace c = true ∧ isLineTerminator c = false) ws →
    isWhiteSpace c0 = false →
    Forall (λ c, isLineTerminator c = false) ct →
    (rest = [] ∨ ∃ c r, rest = c :: r ∧ isLineTerminator c = true) →
    firstHeading (pre ++ [HASH] ++ ws ++ (c0 :: ct) ++ rest) (c0 :: ct).

(** The description of a text: the first paragraph that does not start
    with [#] and is not blank, trimmed, and cut to 50 code units and an
    ellipsis when longer; the fallback when there is no such paragraph. *)
Definition qualifies (paragraph : jsstring) : bool :=
  negb (startsWith paragraph (lit "#")) && negb (streq (trim paragraph) []).

Definition shortened (d : jsstring) : jsstring :=
  if (50 <? length d)%nat then take 50 d ++ lit "..." else d.

Definition descriptionOf (text : jsstring) : jsstring :=
  match List.find qualifies (split text [LF; LF]) with
  | Some paragraph => shortened (trim paragraph)
  | None => lit "無描述"
  end.

(** The title and the description of a text as C7 words them: the
    content of the first line that matches the heading pattern, and the
    first paragraph that does not start with [#]. *)
Definition claimed_title (text : jsstring) : jsstring :=
  match omap (λ line, match_group line Knowledge.titlePattern) (lines text) with
  | g :: _ => trim g
  | [] => lit "未命名知識條目"
  end.

Definition claimed_description (text : jsstring) : jsstring :=
  match List.find (λ p, negb (startsWith p (lit "#"))) (split text [LF; LF]) with
  | Some paragraph => shortened (trim paragraph)
  | None => lit "無描述"
  end.

(** A host for running the code on examples: case mapping of the ASCII
    letters, and a [JSON.parse] that knows the texts of a table. *)
Definition asciiLower (s : jsstring) : jsstring :=
  map (λ c, if (0x41 <=? c) && (c <=? 0x5A) then c + 0x20 else c) s.

Definition tableHost (table : list (jsstring * jsval)) : Host := {|
  toLowerCase := asciiLower;
  JSON_parse := λ raw, snd <$> List.find (λ kv, streq kv.1 raw) table
|}.

(** A namespace holding the given raw values. *)
Definition tableKV (values : list (jsstring * jsstring)) : KVNamespace := {|
  kv_get := λ key, Normal (snd <$> List.find (λ kv, streq kv.1 key) values);
  kv_list := Normal (List.filter (λ k, startsWith k (lit "knowledge:"))
                                 (map fst values))
|}.

(** The scenario of the specification: index
    [{ "icu": "Department:icu", "cvvh": "icu-cvvh-setup" }] and one
    document. *)
Module Scenario.
Definition index : KeywordIndex :=
  [(lit "icu", lit "Department:icu"); (lit "cvvh", lit "icu-cvvh-setup")].
Definition doc : jsval :=
  JObj [(lit "id", JStr (lit "icu-cvvh-setup"));
        (lit "keywords", JArr [JStr (lit "cvvh")]);
        (lit "text",
         JStr (lit "# CVVH setup" ++ [LF; LF] ++ lit "Prime the circuit."))].
Definition host : Host :=
  tableHost [(lit "<index>", wire index); (lit "<doc>", doc)].
Definition kv : option KVNamespace :=
  Some (tableKV [(lit "keyword-index", lit "<index>");
                 (lit "knowledge:icu-cvvh-setup", lit "<doc>")]).
End Scenario.

(** An index with two keywords that differ in case only, each a
    department marker. *)
Module CaseClash.
Definition host : Host := tableHost [].
Definition index : KeywordIndex :=
  [(lit "ICU", lit "Department:icu"); (lit "icu", lit "Department:ward")].
End CaseClash.

(** The second scenario of the specification: a department without any
    stored document. *)
Module Ward.
Definition index : KeywordIndex :=
  [(lit "icu", lit "Department:icu"); (lit "Ward", lit "Department:ward");
   (lit "cvvh", lit "icu-cvvh-setup")].
Definition host : Host :=
  tableHost [(lit "<index>", wire index); (lit "<doc>", Scenario.doc)].
Definition kv : option KVNamespace :=
  Some (tableKV [(lit "keyword-index", lit "<index>");
                 (lit "knowledge:icu-cvvh-setup", lit "<doc>")]).
End Ward.

(** A namespace that serves the index of the scenario and fails on every
    other call. *)
Module Outage.
Definition ns : KVNamespace := {|
  kv_get := λ key,
    if streq key (lit "keyword-index") then Normal (Some (lit "<index>"))
    else Throw;
  kv_list := Throw
|}.
End Outage.

(** Fifteen messages of one user, and a clock that counts. *)
Module Fifteen.
Definition u : jsstring := lit "U1".
Definition messages : list jsstring :=
  map lit ["m1"; "m2"; "m3"; "m4"; "m5"; "m6"; "m7"; "m8"; "m9"; "m10";
           "m11"; "m12"; "m13"; "m14"; "m15"]%string.
Definition ops : list Dialog.append := map (Dialog.UserMessage u) messages.
Definition now (n : nat) : jsstring := index_key n.
Definition stringify (v : jsval) : jsstring := lit "[...]".
End Fifteen.

(** Auxiliary notions for the heading pattern: the position is at the
    start, respectively the end, of a line. *)
Definition lineStart (prev : option N) : bool :=
  match prev with
  | None => true
  | Some c => isLineTerminator c
  end.

Definition lineEnd (s : jsstring) : bool :=
  match s with
  | [] => true
  | c :: _ => isLineTerminator c
  end.

(** No line of [s] bears the heading marker; [atStart] tells whether [s]
    begins at the start of a line. *)
Fixpoint noHeadingMark (atStart : bool) (s : jsstring) : bool :=
  match s with
  | [] => true
  | c :: s' =>
    negb (atStart && headingMark s) && noHeadingMark (isLineTerminator c) s'
  end.

(** The code unit before the position reached after [pre]. *)
Definition after (prev : option N) (pre : jsstring) : option N :=
  match last pre with
  | Some c => Some c
  | None => prev
  end.

(** ** Further parts of the program and reference points *)

(** What a getter of the repository has fetched when it does not return
    [null]: the namespace is set, the key holds a text that is not empty,
    and the text parses to the value. *)
Definition fetched `{Host} (kv : option KVNamespace) (key : jsstring)
    (v : jsval) : Prop :=
  ∃ ns raw, kv = Some ns ∧ kv_get ns key = Normal (Some raw)
            ∧ raw ≠ [] ∧ JSON_parse raw = Some v.

(** The element of a department listing made from a stored record with
    the given text. *)
Definition summaryOf (record : jsval) (text : jsstring) : Knowledge.summary :=
  {| Knowledge.id := getProp record (lit "id");
     Knowledge.title := Knowledge.extractTitle text;
     Knowledge.description := Knowledge.extractDescription text |}.

(** A store with two records of the department [icu], the second of
    which carries a number where its text should be. *)
Module Malformed.
Definition good : jsval :=
  JObj [(lit "id", JStr (lit "icu-a"));
        (lit "text", JStr (lit "# A" ++ [LF; LF] ++ lit "First."))].
Definition bad : jsval :=
  JObj [(lit "id", JStr (lit "icu-b")); (lit "text", JNum 5)].
Definition host : Host :=
  tableHost [(lit "<a>", good); (lit "<b>", bad)].
Definition kv : option KVNamespace :=
  Some (tableKV [(lit "knowledge:icu-a", lit "<a>");
                 (lit "knowledge:icu-b", lit "<b>")]).
End Malformed.

(** ** Plain objects

    The own properties of an object created by [{}], in the order in
    which [Object.entries] enumerates them: the array indices in
    ascending order, then the other keys in the order of their
    creation. *)

Module Obj.

(** The array index a key denotes, if any: a decimal numeral without
    superfluous zero, at most 2^32 - 2. *)
Fixpoint digits (acc : N) (s : jsstring) : option N :=
  match s with
  | [] => Some acc
  | c :: s' =>
    if (0x30 <=? c) && (c <=? 0x39)
    then digits (10 * acc + (c - 0x30)) s'
    else None
  end.

Definition arrayIndex (k : jsstring) : option N :=
  match k with
  | [] => None
  | c :: r =>
    if (c =? 0x30) && negb (streq r []) then None
    else match digits 0 k with
         | Some n => if n <=? 4294967294 then Some n else None
         | None => None
         end
  end.

(** [o[k]] as an own property. *)
Definition get {V} (o : list (jsstring * V)) (k : jsstring) : option V :=
  snd <$> List.find (λ kv, streq kv.1 k) o.

Definition has {V} (o : list (jsstring * V)) (k : jsstring) : bool :=
  existsb (λ kv, streq kv.1 k) o.

(** A new property with an array index goes before the first array index
    that is larger, or before the first key that is no array index. *)
Fixpoint insertIndex {V} (n : N) (k : jsstring) (v : V)
    (o : list (jsstring * V)) : list (jsstring * V) :=
  match o with
  | [] => [(k, v)]
  | (k', v') :: rest =>
    match arrayIndex k' with
    | Some n' =>
      if n <? n' then (k, v) :: o else (k', v') :: insertIndex n k v rest
    | None => (k, v) :: o
    end
  end.

(** [o[k] = v] for a primitive [v].  The key [__proto__] reaches the
    setter inherited from [Object.prototype], which ignores a primitive;
    an existing property keeps its place. *)
Definition set {V} (o : list (jsstring * V)) (k : jsstring) (v : V)
  : list (jsstring * V) :=
  if streq k (lit "__proto__") then o
  else if has o k
  then map (λ kv, if streq kv.1 k then (kv.1, v) else kv) o
  else match arrayIndex k with
       | Some n => insertIndex n k v o
       | None => o ++ [(k, v)]
       end.

End Obj.

(** ** The upload tools: building the keyword index *)

Module Upload.

Record department := { code : jsstring; name : jsstring }.

Definition departments : list department := [
  {| code := lit "icu"; name := lit "ICU加護病房" |};
  {| code := lit "er"; name := lit "ER急診" |};
  {| code := lit "ward"; name := lit "Ward病房" |};
  {| code := lit "or"; name := lit "OR手術室" |};
  {| code := lit "opd"; name := lit "OPD門診" |};
  {| code := lit "nurse"; name := lit "Nurse護理部通用" |}
].

(** A knowledge entry as the tools read it: its [id] and its [keywords],
    strings all. *)
Record isoEntry := {
  iso_id : jsstring;
  iso_keywords : list jsstring
}.

(** [departments.forEach(dept => keywordIndex[dept.code] =
    `Department:${dept.code}`)] *)
Definition addDepartments (keywordIndex : KeywordIndex) : KeywordIndex :=
  fold_left (λ o dept, Obj.set o (code dept) (lit "Department:" ++ code dept))
            departments keywordIndex.

Section Tools.
Context `{Host}.

(** The tool that reads the entries from files: a keyword whose lowercase
    form is the code of a department is passed over. *)
Definition conflicts (keyword : jsstring) : bool :=
  let lowerKeyword := toLowerCase keyword in
  existsb (λ dept, streq (code dept) lowerKeyword) departments.

Definition addKeywords (keywordIndex : KeywordIndex) (entry : isoEntry)
  : KeywordIndex :=
  fold_left (λ o keyword,
               if conflicts keyword then o
               else Obj.set o keyword (iso_id entry))
            (iso_keywords entry) keywordIndex.

(** The [keywordIndex] of [generateJsonFiles(isoKnowledge)]. *)
Definition generateJsonFiles (isoKnowledge : list isoEntry) : KeywordIndex :=
  fold_left addKeywords isoKnowledge (addDepartments []).

(** The tool with the entries in its own text.  Its test is
    [departments.includes(lowerKeyword)]: [includes] compares the
    elements of [departments], objects, with the string by
    [SameValueZero], under which an object and a string are never the
    same. *)
Definition sameValueZero (element : department) (s : jsstring) : bool := false.

Definition includesKeyword (lowerKeyword : jsstring) : bool :=
  existsb (λ dept, sameValueZero dept lowerKeyword) departments.

Definition addKeywordsInline (keywordIndex : KeywordIndex) (entry : isoEntry)
  : KeywordIndex :=
  fold_left (λ o keyword,
               if includesKeyword (toLowerCase keyword) then o
               else Obj.set o keyword (iso_id entry))
            (iso_keywords entry) keywordIndex.

Definition generateJsonFilesInline (isoKnowledge : list isoEntry)
  : KeywordIndex :=
  fold_left addKeywordsInline isoKnowledge (addDepartments []).

End Tools.

Definition codes : list jsstring := map code departments.

Definition marker (c : jsstring) : jsstring := lit "Department:" ++ c.

End Upload.

(** The value under the key [k] after the assignments that a list of
    entries asks for, each keyword being assigned the id of its entry,
    when the value was [base] before. *)
Definition valueAfter (k : jsstring) (isoKnowledge : list Upload.isoEntry)
    (base : option jsstring) : option jsstring :=
  fold_left (λ b entry,
               fold_left (λ b' keyword,
                            if streq keyword k then Some (Upload.iso_id entry)
                            else b')
                         (Upload.iso_keywords entry) b)
            isoKnowledge base.

(** The host leaves the department codes, lowercase already, as they
    are. *)
Definition codesLowercase `{Host} : Prop :=
  ∀ c, In c Upload.codes → toLowerCase c = c.

(** Two entries of which the second lists a department code among its
    keywords. *)
Module Clash.
Definition entries : list Upload.isoEntry := [
  {| Upload.iso_id := lit "icu-cvvh-setup";
     Upload.iso_keywords := [lit "CVVH"; lit "ICU"] |};
  {| Upload.iso_id := lit "icu-rules";
     Upload.iso_keywords := [lit "rules"; lit "icu"] |}
].
End Clash.

(** ** The knowledge service: search and status *)

Module KnowledgeMore.
Section KnowledgeMore.
Context `{Host}.
Variable nursing_knowledge : option KVNamespace.

(** [entry.keywords.some(keyword =>
      keyword.toLowerCase().includes(lowerQuery))]: [some] is a method of
    arrays, [toLowerCase] of strings. *)
Fixpoint someKeyword (lowerQuery : jsstring) (keywords : list jsval)
  : completion bool :=
  match keywords with
  | [] => Normal false
  | JStr keyword :: rest =>
    if includes (toLowerCase keyword) lowerQuery then Normal true
    else someKeyword lowerQuery rest
  | _ :: _ => Throw
  end.

Definition keywordsMatch (lowerQuery : jsstring) (keywords : option jsval)
  : completion bool :=
  match keywords with
  | Some (JArr items) => someKeyword lowerQuery items
  | _ => Throw
  end.

(** One round of the loop of [searchKnowledge]. *)
Definition searchStep (lowerQuery : jsstring)
    (matchingEntries : list Knowledge.summary) (id : jsstring)
  : completion (list Knowledge.summary) :=
  entry ← Knowledge.getKnowledgeById nursing_knowledge id;
  if truthy entry then
    text ← Knowledge.textOf (getProp entry (lit "text"));
    let title := Knowledge.extractTitle text in
    hit ← (if includes (toLowerCase title) lowerQuery then Normal true
           else if includes (toLowerCase text) lowerQuery then Normal true
           else keywordsMatch lowerQuery (getProp entry (lit "keywords")));
    if hit : bool then
      Normal (matchingEntries ++
              [{| Knowledge.id := getProp entry (lit "id");
                  Knowledge.title := title;
                  Knowledge.description := Knowledge.extractDescription text |}])
    else Normal matchingEntries
  else Normal matchingEntries.

Fixpoint searchLoop (lowerQuery : jsstring)
    (matchingEntries : list Knowledge.summary) (allIds : list jsstring)
  : completion (list Knowledge.summary) :=
  match allIds with
  | [] => Normal matchingEntries
  | id :: rest =>
    matchingEntries' ← searchStep lowerQuery matchingEntries id;
    searchLoop lowerQuery matchingEntries' rest
  end.

(** [searchKnowledge(query)] for a [query] that is a string. *)
Definition searchKnowledge (query : jsstring)
  : completion (list Knowledge.summary) :=
  try_catch
    (if streq query [] then Normal []
     else
       let lowerQuery := toLowerCase query in
       allIds ← Knowledge.getAllKnowledgeIds nursing_knowledge;
       searchLoop lowerQuery [] allIds)
    [].

(** The report of [checkSystemStatus]. *)
Record status := {
  kvConfigured : bool;
  keywordIndexExists : bool;
  indexContents : option (list (jsstring * jsval));
  knowledgeEntriesCount : nat;
  departmentEntries : list (jsstring * nat)
}.

(** The sample of the index: the loop assigns the first ten entries to
    [indexSample] and passes over the others. *)
Fixpoint sample (count : nat) (indexSample : list (jsstring * jsval))
    (entries : list (jsstring * jsval)) : list (jsstring * jsval) :=
  match entries with
  | [] => indexSample
  | (key, value) :: rest =>
    if (count <? 10)%nat
    then sample (S count) (Obj.set indexSample key value) rest
    else sample count indexSample rest
  end.

Definition statusDepartments : list jsstring :=
  [lit "icu"; lit "er"; lit "ward"; lit "or"; lit "opd"; lit "nurse"].

(** The loop over the departments, [getDepartmentEntries] being awaited
    for each in turn: the counts assigned so far, and whether the loop
    ran to its end. *)
Fixpoint countDepartments (departmentEntries : list (jsstring * nat))
    (departments : list jsstring)
  : list (jsstring * nat) * completion unit :=
  match departments with
  | [] => (departmentEntries, Normal tt)
  | dept :: rest =>
    match Knowledge.getDepartmentEntries nursing_knowledge dept with
    | Throw => (departmentEntries, Throw)
    | Normal entries =>
      countDepartments (Obj.set departmentEntries dept (length entries)) rest
    end
  end.

(** Whether [JSON.stringify] accepts the value with which the fetch of
    the index rejects, when it does: the [catch] of [checkSystemStatus]
    hands the value it caught to [logger.error], which writes it with
    [JSON.stringify] and so throws a [TypeError] on a value that cannot be
    written.  The other values that reach this [catch] are errors of the
    host, which can be written. *)
Variable logs : bool.

(** [checkSystemStatus()].  The report is an object that the function
    fills in as it goes; what has been filled in when an exception is
    caught stays. *)
Definition checkSystemStatus : completion status :=
  let status0 := {| kvConfigured :=
                      match nursing_knowledge with
                      | Some _ => true
                      | None => false
                      end;
                    keywordIndexExists := false;
                    indexContents := None;
                    knowledgeEntriesCount := 0;
                    departmentEntries := [] |} in
  match nursing_knowledge with
  | None => Normal status0
  | Some kv =>
    match kv_get kv (lit "keyword-index") with
    | Throw => if logs then Normal status0 else Throw
    | Normal None => Normal status0
    | Normal (Some indexJson) =>
      if streq indexJson [] then Normal status0
      else
        let status1 := {| kvConfigured := true;
                          keywordIndexExists := true;
                          indexContents := None;
                          knowledgeEntriesCount := 0;
                          departmentEntries := [] |} in
        match JSON_parse indexJson with
        | None => Normal status1
        | Some keywordIndex =>
          match Object_entries keywordIndex with
          | Throw => Normal status1
          | Normal entries =>
            let indexSample := sample 0 [] entries in
            match Knowledge.getAllKnowledgeIds nursing_knowledge with
            | Throw =>
              Normal {| kvConfigured := true;
                        keywordIndexExists := true;
                        indexContents := Some indexSample;
                        knowledgeEntriesCount := 0;
                        departmentEntries := [] |}
            | Normal allIds =>
              Normal {| kvConfigured := true;
                        keywordIndexExists := true;
                        indexContents := Some indexSample;
                        knowledgeEntriesCount := length allIds;
                        departmentEntries :=
                          (countDepartments [] statusDepartments).1 |}
            end
          end
        end
    end
  end.

End KnowledgeMore.
End KnowledgeMore.

(** A fetched record the search can read: [null] (or another falsy
    value), or a record whose [text] is a string and whose [keywords] are
    an array of strings. *)
Definition readable (record : jsval) : Prop :=
  truthy record = false
  ∨ ∃ text keywords,
      getProp record (lit "text") = Some (JStr text)
      ∧ getProp record (lit "keywords") = Some (JArr (map JStr keywords)).

(** A record with the given text matches the lowercased query: in its
    title, in its text, or in one of its keywords. *)
Definition matches `{Host} (lowerQuery : jsstring) (record : jsval)
    (text : jsstring) : Prop :=
  includes (toLowerCase (Knowledge.extractTitle text)) lowerQuery = true
  ∨ includes (toLowerCase text) lowerQuery = true
  ∨ KnowledgeMore.keywordsMatch lowerQuery (getProp record (lit "keywords"))
    = Normal true.

(** ** Messages and the listing of a department *)

Module Message.

(** The action objects of [createMessageAction]. *)
Record action := {
  action_type : jsstring;
  label : jsstring;
  action_text : jsstring
}.

(** The message objects of [createTextMessage] and
    [createButtonMessage]; [thumbnailImageUrl] is [None] when the
    argument is left out. *)
Inductive message :=
| Text (type text : jsstring)
| Template (type altText template_type : jsstring)
    (thumbnailImageUrl : option jsstring) (title text : jsstring)
    (actions : list action).

Definition createTextMessage (text : jsstring) : message :=
  Text (lit "text") text.

Definition createButtonMessage (altText title text : jsstring)
    (actions : list action) (thumbnailImageUrl : option jsstring) : message :=
  Template (lit "template") altText (lit "buttons") thumbnailImageUrl
           title text actions.

Definition createMessageAction (label text : jsstring) : action :=
  {| action_type := lit "message"; label := label; action_text := text |}.

End Message.

Module TextHandler.
Section TextHandler.
(** [String.prototype.toUpperCase], and the text that a template literal
    gives for a property that an object literal inherits under the given
    name, [None] when it inherits none. *)
Variable toUpperCase : jsstring → jsstring.
Variable inherited : jsstring → option jsstring.

Definition departmentNames : list (jsstring * jsstring) := [
  (lit "icu", lit "ICU加護病房");
  (lit "er", lit "ER急診");
  (lit "ward", lit "Ward病房");
  (lit "or", lit "OR手術室");
  (lit "opd", lit "OPD門診");
  (lit "nurse", lit "Nurse護理部通用")
].

(** [departmentNames[department] || department.toUpperCase()] *)
Definition departmentNameOf (department : jsstring) : jsstring :=
  match Obj.get departmentNames department with
  | Some name => name
  | None =>
    match inherited department with
    | Some text => text
    | None => toUpperCase department
    end
  end.

(** [entries.slice(i, j)] *)
Definition slice {A} (i j : nat) (entries : list A) : list A :=
  take (j - i) (drop i entries).

(** The loop [for (let i = 0; i < entries.length; i += 4)]; [fuel] bounds
    the number of rounds. *)
Fixpoint groupsFrom {A} (fuel i : nat) (entries : list A) : list (list A) :=
  match fuel with
  | O => []
  | S fuel' =>
    if (i <? length entries)%nat
    then slice i (i + 4) entries :: groupsFrom fuel' (i + 4) entries
    else []
  end.

Definition entriesGroups {A} (entries : list A) : list (list A) :=
  groupsFrom (length entries) 0 entries.

Definition buttonLabel (title : jsstring) : jsstring :=
  if (20 <? length title)%nat then substring0 17 title ++ lit "..."
  else title.

Definition groupMessage (departmentName : jsstring) (groupIndex : nat)
    (group : list Knowledge.summary) : Message.message :=
  let title := departmentName ++ lit " 知識條目 " ++ index_key (groupIndex + 1) in
  let text := lit "點擊下方按鈕直接查看相關知識" in
  let actions :=
    map (λ entry, Message.createMessageAction
                    (buttonLabel (Knowledge.title entry))
                    (Knowledge.title entry)) group in
  Message.createButtonMessage (departmentName ++ lit " 知識條目")
                              title text actions None.

Definition generateDepartmentListMessages (response : Knowledge.listing)
  : list Message.message :=
  let department := Knowledge.department response in
  let entries := Knowledge.entries response in
  let departmentName := departmentNameOf department in
  let titleMessage :=
    Message.createTextMessage (departmentName ++ lit " 現有的知識條目：") in
  if (length entries =? 0)%nat then
    [titleMessage;
     Message.createTextMessage
       (lit "目前 " ++ departmentName ++ lit " 尚未有任何知識條目。")]
  else
    titleMessage :: imap (groupMessage departmentName) (entriesGroups entries).

End TextHandler.
End TextHandler.

(** The actions of a message, none for a text message. *)
Definition actionsOf (m : Message.message) : list Message.action :=
  match m with
  | Message.Text _ _ => []
  | Message.Template _ _ _ _ _ _ actions => actions
  end.

(** ** The configuration module *)

Module Config.

(** A variable of the environment: [None] is [undefined]. *)
Definition variable := option jsstring.

(** [typeof X !== 'undefined' ? X : d] *)
Definition definedOr (x : variable) (d : jsstring) : jsstring :=
  match x with
  | Some s => s
  | None => d
  end.

(** [x || d] *)
Definition orElse (x : variable) (d : jsstring) : jsstring :=
  match x with
  | Some s => if streq s [] then d else s
  | None => d
  end.

(** The globals read when the module is loaded. *)
Record globals := {
  ENVIRONMENT : variable;
  LINE_CHANNEL_ID : variable;
  LINE_CHANNEL_SECRET : variable;
  LINE_CHANNEL_ACCESS_TOKEN : variable;
  CLOUDFLARE_ACCOUNT_ID : variable;
  CLOUDFLARE_API_KEY : variable
}.

(** The [env] object of a request. *)
Record env := {
  env_ENVIRONMENT : variable;
  env_LINE_CHANNEL_ID : variable;
  env_LINE_CHANNEL_SECRET : variable;
  env_LINE_CHANNEL_ACCESS_TOKEN : variable;
  env_NURSING_KNOWLEDGE : option KVNamespace
}.

Record line := {
  channelId : jsstring;
  channelSecret : jsstring;
  channelAccessToken : jsstring
}.

Record cloudflare := {
  accountId : jsstring;
  apiKey : jsstring
}.

(** The objects of the module.  [config_environment] is the property
    [environment] of [config]; [line_object], [cloudflare_object] and
    [kv_nursing_knowledge] are the objects [config.line],
    [config.cloudflare] and [config.kv], which the exported object shares
    with [config]; [exported_environment] is the property [environment] of
    the exported object, that the spread [...config] copies when the module
    is loaded. *)
Record store := {
  config_environment : jsstring;
  line_object : line;
  cloudflare_object : cloudflare;
  kv_nursing_knowledge : option KVNamespace;
  exported_environment : jsstring
}.

Definition load (g : globals) : store :=
  let environment := definedOr (ENVIRONMENT g) (lit "development") in
  {| config_environment := environment;
     line_object :=
       {| channelId := definedOr (LINE_CHANNEL_ID g) [];
          channelSecret := definedOr (LINE_CHANNEL_SECRET g) [];
          channelAccessToken := definedOr (LINE_CHANNEL_ACCESS_TOKEN g) [] |};
     cloudflare_object :=
       {| accountId := definedOr (CLOUDFLARE_ACCOUNT_ID g) [];
          apiKey := definedOr (CLOUDFLARE_API_KEY g) [] |};
     kv_nursing_knowledge := None;
     exported_environment := environment |}.

Definition setEnv (e : env) (s : store) : store :=
  {| config_environment := orElse (env_ENVIRONMENT e) (lit "development");
     line_object :=
       {| channelId := orElse (env_LINE_CHANNEL_ID e) [];
          channelSecret := orElse (env_LINE_CHANNEL_SECRET e) [];
          channelAccessToken := orElse (env_LINE_CHANNEL_ACCESS_TOKEN e) [] |};
     cloudflare_object := cloudflare_object s;
     kv_nursing_knowledge :=
       match env_NURSING_KNOWLEDGE e with
       | Some ns => Some ns
       | None => kv_nursing_knowledge s
       end;
     exported_environment := exported_environment s |}.

(** [a && b && c] on strings: the first empty one, else the last. *)
Definition isConfigValid (s : store) : jsstring :=
  let l := line_object s in
  if streq (channelId l) [] then channelId l
  else if streq (channelSecret l) [] then channelSecret l
  else channelAccessToken l.

Definition getEnvironment (s : store) : jsstring := config_environment s.

Definition isDevelopment (s : store) : bool :=
  streq (config_environment s) (lit "development").

Definition isProduction (s : store) : bool :=
  streq (config_environment s) (lit "production").

(** What [config.environment] and [config.kv.nursing_knowledge] give in a
    module that imports the exported object. *)
Definition environment (s : store) : jsstring := exported_environment s.

Definition kv (s : store) : option KVNamespace := kv_nursing_knowledge s.

End Config.

Module Index.

(** The check [config.environment === "production"] that opens the routes
    [/system-check] and [/search], and the status of the answer of
    [/system-check]. *)
Definition refused (s : Config.store) : bool :=
  streq (Config.environment s) (lit "production").

Definition systemCheckStatus (s : Config.store) : nat :=
  if refused s then 403 else 200.

(** The requests that [fetch] has served: each one starts with [setEnv]. *)
Definition served (envs : list Config.env) (s : Config.store) : Config.store :=
  fold_left (λ s e, Config.setEnv e s) envs s.

End Index.

(** The namespace of the last request that came with one. *)
Definition lastNamespace (envs : list Config.env) : option KVNamespace :=
  last (omap Config.env_NURSING_KNOWLEDGE envs).

(** The three credentials of a request are all non-empty strings. *)
Definition credentialed (e : Config.env) : Prop :=
  (∃ s, Config.env_LINE_CHANNEL_ID e = Some s ∧ s ≠ [])
  ∧ (∃ s, Config.env_LINE_CHANNEL_SECRET e = Some s ∧ s ≠ [])
  ∧ (∃ s, Config.env_LINE_CHANNEL_ACCESS_TOKEN e = Some s ∧ s ≠ []).

(** ** The webhook and the handlers of media *)

Module Webhook.

(** The events of the webhook, with the fields that the handlers read:
    [None] is a field that is missing; a [source] that is present has a
    string as its [userId]. *)
Record message := {
  message_type : jsstring;
  message_id : jsstring;
  message_text : jsstring
}.

Record event := {
  event_type : jsstring;
  event_message : option message;
  replyToken : option jsstring;
  source : option jsstring;
  postback : option jsstring
}.

(** A call of [lineClient.replyMessage]. *)
Record call := {
  call_replyToken : option jsstring;
  call_messages : jsval
}.

(** The state of the dialog service, and the calls of
    [lineClient.replyMessage] made so far, in order. *)
Record world := {
  dialog : Dialog.world;
  calls : list call
}.

(** Code that updates the state and either returns or throws; the state
    survives a throw. *)
Definition Handler (A : Type) : Type := world → completion A * world.

Global Instance Handler_ret : MRet Handler := λ A a w, (Normal a, w).
Global Instance Handler_bind : MBind Handler := λ A B f c w,
  match (c w).1 with
  | Normal a => f a (c w).2
  | Throw => (Throw, (c w).2)
  end.

Definition throw {A} : Handler A := λ w, (Throw, w).

(** [try { body } catch (error) { handler }] *)
Definition tryCatch {A} (body handler : Handler A) : Handler A := λ w,
  match (body w).1 with
  | Normal a => (Normal a, (body w).2)
  | Throw => handler (body w).2
  end.

Definition textMessage (text : jsstring) : jsval :=
  JObj [(lit "type", JStr (lit "text")); (lit "text", JStr text)].

Definition imageReply : jsstring :=
  lit "謝謝您分享的圖片。目前我無法分析圖片內容，但我很樂意回答您的文字問題。".
Definition imageError : jsstring :=
  lit "抱歉，我在處理您的圖片時遇到了問題。請稍後再試。".
Definition videoReply : jsstring :=
  lit "謝謝您分享的影片。目前我無法分析影片內容，但我很樂意回答您的文字問題。".
Definition videoError : jsstring :=
  lit "抱歉，我在處理您的影片時遇到了問題。請稍後再試。".
Definition unsupportedReply : jsstring :=
  lit "抱歉，我還不知道如何處理這種類型的訊息。請嘗試發送文字訊息給我。".
Definition welcome : jsstring :=
  lit "您好！我是三總護理助手，很高興為您服務。我可以回答您在護理工作中遇到的問題，也可以提供護理知識。請隨時向我提問，我會盡力幫助您。".
Definition postbackReply : jsstring := lit "已收到您的選擇。".
Definition apology : jsstring :=
  lit "抱歉，我現在遇到了一些問題，請稍後再試。".

Section Webhook.
Variable now : nat → jsstring.
Variable JSON_stringify : jsval → jsstring.
(** [delivers n] tells whether the call of [lineClient.replyMessage] that
    follows [n] earlier ones resolves; it rejects otherwise. *)
Variable delivers : nat → bool.
(** The handler of text messages. *)
Variable handleText : event → Handler unit.

Definition replyMessage (token : option jsstring) (messages : jsval)
  : Handler unit := λ w,
  (if delivers (length (calls w)) then Normal tt else Throw,
   {| dialog := dialog w;
      calls := calls w ++ [{| call_replyToken := token;
                              call_messages := messages |}] |}).

(** A call of the dialog service. *)
Definition service {A} (m : Dialog.State A) : Handler A := λ w,
  (Normal (m (dialog w)).1,
   {| dialog := (m (dialog w)).2; calls := calls w |}).

(** [source.userId], [message] with a property read from it, and
    [postback.data]: reading a property of a missing object throws. *)
Definition userIdOf (e : event) : Handler jsstring := λ w,
  (match source e with Some u => Normal u | None => Throw end, w).

Definition messageOf (e : event) : Handler message := λ w,
  (match event_message e with Some m => Normal m | None => Throw end, w).

Definition dataOf (e : event) : Handler jsstring := λ w,
  (match postback e with Some d => Normal d | None => Throw end, w).

Definition handleImage (e : event) : Handler unit :=
  userId ← userIdOf e;
  message ← messageOf e;
  tryCatch
    (_ ← service (Dialog.recordUserImage now userId (message_id message));
     _ ← service (Dialog.recordBotMessage now JSON_stringify userId
                    (inl imageReply));
     replyMessage (replyToken e) (textMessage imageReply))
    (replyMessage (replyToken e) (textMessage imageError)).

Definition handleVideo (e : event) : Handler unit :=
  userId ← userIdOf e;
  message ← messageOf e;
  tryCatch
    (_ ← service (Dialog.recordUserVideo now userId (message_id message));
     _ ← service (Dialog.recordBotMessage now JSON_stringify userId
                    (inl videoReply));
     replyMessage (replyToken e) (textMessage videoReply))
    (replyMessage (replyToken e) (textMessage videoError)).

Definition handleMessageEvent (e : event) : Handler unit :=
  message ← messageOf e;
  if streq (message_type message) (lit "text") then handleText e
  else if streq (message_type message) (lit "image") then handleImage e
  else if streq (message_type message) (lit "video") then handleVideo e
  else replyMessage (replyToken e) (textMessage unsupportedReply).

Definition handleFollowEvent (e : event) : Handler unit :=
  _ ← userIdOf e;
  replyMessage (replyToken e) (textMessage welcome).

Definition handleUnfollowEvent (e : event) : Handler unit :=
  _ ← userIdOf e;
  mret tt.

Definition handlePostbackEvent (e : event) : Handler unit :=
  _ ← dataOf e;
  replyMessage (replyToken e) (textMessage postbackReply).

(** The [switch] of [handleEvent]. *)
Definition dispatch (e : event) : Handler unit :=
  if streq (event_type e) (lit "message") then handleMessageEvent e
  else if streq (event_type e) (lit "follow") then handleFollowEvent e
  else if streq (event_type e) (lit "unfollow") then handleUnfollowEvent e
  else if streq (event_type e) (lit "postback") then handlePostbackEvent e
  else mret tt.

(** [event.replyToken] is truthy. *)
Definition hasReplyToken (e : event) : bool :=
  match replyToken e with
  | Some token => negb (streq token [])
  | None => false
  end.

Definition handleEvent (e : event) : Handler unit :=
  tryCatch (dispatch e)
    (_ ← (if hasReplyToken e
          then tryCatch (replyMessage (replyToken e) (textMessage apology))
                        (mret tt)
          else mret tt);
     throw).

End Webhook.
End Webhook.

(** The calls that a handler adds with the reply token of the event. *)
Definition replies (e : Webhook.event) (texts : list jsstring)
  : list Webhook.call :=
  map (λ text, {| Webhook.call_replyToken := Webhook.replyToken e;
                  Webhook.call_messages := Webhook.textMessage text |}) texts.

(** The events that [handleEvent] hands to the handler of text messages. *)
Definition isTextMessage (e : Webhook.event) : bool :=
  streq (Webhook.event_type e) (lit "message")
  && match Webhook.event_message e with
     | Some m => streq (Webhook.message_type m) (lit "text")
     | None => false
     end.

(** The events with which [handleEvent] reaches the dialog service: image
    and video messages that come with a source. *)
Definition isMedia (e : Webhook.event) : bool :=
  streq (Webhook.event_type e) (lit "message")
  && match Webhook.event_message e, Webhook.source e with
     | Some m, Some _ =>
       streq (Webhook.message_type m) (lit "image")
       || streq (Webhook.message_type m) (lit "video")
     | _, _ => false
     end.

(** The two kinds of media, with the handler of each, the placeholder
    that the history keeps for the medium, the acknowledgement and the
    notice of a failure. *)
Inductive media := Image | Video.

Definition handlerOf (now : nat → jsstring) (JSON_stringify : jsval → jsstring)
    (delivers : nat → bool) (kind : media) : Webhook.event → Webhook.Handler unit :=
  match kind with
  | Image => Webhook.handleImage now JSON_stringify delivers
  | Video => Webhook.handleVideo now JSON_stringify delivers
  end.

Definition placeholder (kind : media) (id : jsstring) : jsstring :=
  match kind with
  | Image => lit "[圖片: " ++ id ++ lit "]"
  | Video => lit "[影片: " ++ id ++ lit "]"
  end.

Definition acknowledgement (kind : media) : jsstring :=
  match kind with
  | Image => Webhook.imageReply
  | Video => Webhook.videoReply
  end.

Definition failureNotice (kind : media) : jsstring :=
  match kind with
  | Image => Webhook.imageError
  | Video => Webhook.videoError
  end.

(** An image sent by [U1] while no reply can be delivered, and a follow
    event. *)
Module Picture.
Definition delivers (n : nat) : bool := false.
Definition event : Webhook.event := {|
  Webhook.event_type := lit "message";
  Webhook.event_message :=
    Some {| Webhook.message_type := lit "image";
            Webhook.message_id := lit "4711";
            Webhook.message_text := [] |};
  Webhook.replyToken := Some (lit "token-1");
  Webhook.source := Some (lit "U1");
  Webhook.postback := None
|}.
Definition follow : Webhook.event := {|
  Webhook.event_type := lit "follow";
  Webhook.event_message := None;
  Webhook.replyToken := Some (lit "token-2");
  Webhook.source := Some (lit "U1");
  Webhook.postback := None
|}.
Definition world : Webhook.world :=
  {| Webhook.dialog := Dialog.empty_world; Webhook.calls := [] |}.
Definition handleText (e : Webhook.event) : Webhook.Handler unit :=
  Webhook.throw.
End Picture.

(** ** The order of enumeration, and fetches that resolve *)

(** The index that assigning the entries of [I] in turn to an empty
    object builds, as [Object.entries] enumerates it. *)
Definition assigned (I : KeywordIndex) : KeywordIndex :=
  fold_left (λ o kv, Obj.set o kv.1 kv.2) I [].

(** None of the keywords is an array index or [__proto__], and none
    occurs twice. *)
Definition plainKeys (I : KeywordIndex) : Prop :=
  NoDup (map fst I)
  ∧ ∀ k v, In (k, v) I → Obj.arrayIndex k = None ∧ k ≠ lit "__proto__".

(** Two keywords assigned in the order [cvvh], [119]. *)
Module Numbered.
Definition host : Host := tableHost [].
Definition insertions : KeywordIndex :=
  [(lit "cvvh", lit "icu-cvvh-setup"); (lit "119", lit "er-119")].
End Numbered.

(** A keyword that ends in a space. *)
Module Spaced.
Definition host : Host := tableHost [].
Definition index : KeywordIndex := [(lit "cvvh ", lit "icu-cvvh-setup")].
End Spaced.

(** The call [get(key)] of the namespace, when there is one, resolves. *)
Definition resolves (kv : option KVNamespace) (key : jsstring) : Prop :=
  ∀ ns, kv = Some ns → kv_get ns key ≠ Throw.

(** * Properties *)

Opaque lit Knowledge.Department.

(** ** Strings *)

Example lit_cjk : lit "無描述" = [0x7121; 0x63CF; 0x8FF0].
Proof. reflexivity. Qed.

Example split_paragraphs :
  split (lit "a" ++ [LF; LF; LF] ++ lit "b" ++ [LF; LF]) [LF; LF]
  = [lit "a"; LF :: lit "b"; []].
Proof. reflexivity. Qed.

Example trim_both_ends : trim (lit "  a b ") = lit "a b".
Proof. reflexivity. Qed.

Lemma streq_eq (s t : jsstring) : streq s t = true ↔ s = t.
Proof.
  revert t; induction s as [|c s IH]; intros [|d t]; simpl; try easy.
  rewrite andb_true_iff, N.eqb_eq, IH. split.
  - intros [-> ->]; reflexivity.
  - intros [= -> ->]; auto.
Qed.

Lemma startsWith_prefix (s p : jsstring) :
  startsWith s p = true ↔ ∃ r, s = p ++ r.
Proof.
  revert s; induction p as [|c p IH]; intros s; simpl.
  - split; [intros _; exists s; reflexivity | reflexivity].
  - destruct s as [|d s].
    + split; [easy | intros [r Hr]; discriminate].
    + rewrite andb_true_iff, N.eqb_eq, IH. split.
      * intros [-> [r ->]]; eauto.
      * intros [r [= -> ->]]; eauto.
Qed.

Lemma startsWith_app (p r : jsstring) : startsWith (p ++ r) p = true.
Proof. apply startsWith_prefix; eauto. Qed.

(** [includes] is containment as a contiguous run. *)
Lemma includes_infix (s needle : jsstring) :
  includes s needle = true ↔ ∃ pre post, s = pre ++ needle ++ post.
Proof.
  induction s as [|c s IH]; simpl.
  - rewrite orb_false_r, startsWith_prefix. split.
    + intros [r Hr]. exists [], r. exact Hr.
    + intros (pre & post & E). destruct pre as [|x pre]; [|discriminate].
      eauto.
  - rewrite orb_true_iff, IH, startsWith_prefix. split.
    + intros [[r Hr] | (pre & post & ->)].
      * exists [], r. exact Hr.
      * exists (c :: pre), post. reflexivity.
    + intros (pre & post & E). destruct pre as [|x pre]; simpl in E.
      * left; eauto.
      * right. injection E as -> ->. eauto.
Qed.

Lemma replace_prefix (p r by_ : jsstring) :
  replace (p ++ r) p by_ = by_ ++ r.
Proof.
  destruct (p ++ r) as [|c s] eqn:E; simpl.
  - destruct p; [|discriminate]. simpl in *. subst. reflexivity.
  - rewrite <- E, startsWith_app, drop_app_length. reflexivity.
Qed.

Example scenario_department :
  @Knowledge.getResponse Scenario.host Scenario.kv (lit "icu")
  = Normal (Some (Knowledge.Listing
      {| Knowledge.isDepartmentListing := true;
         Knowledge.department := lit "icu";
         Knowledge.entries :=
           [{| Knowledge.id := Some (JStr (lit "icu-cvvh-setup"));
               Knowledge.title := lit "CVVH setup";
               Knowledge.description := lit "Prime the circuit." |}] |})).
Proof. vm_compute. reflexivity. Qed.

Example scenario_document :
  @Knowledge.getResponse Scenario.host Scenario.kv (lit "how do I set up cvvh")
  = Normal (Some (Knowledge.Document Scenario.doc)).
Proof. vm_compute. reflexivity. Qed.

Example scenario_miss :
  @Knowledge.getResponse Scenario.host Scenario.kv (lit "xyz") = Normal None.
Proof. vm_compute. reflexivity. Qed.

(** ** The keyword index *)

Lemma find_first {A} (f : A → bool) (l : list A) (x : A) :
  List.find f l = Some x →
  ∃ l1 l2, l = l1 ++ x :: l2 ∧ f x = true ∧ ∀ y, In y l1 → f y = false.
Proof.
  induction l as [|a l IH]; simpl; [discriminate|].
  destruct (f a) eqn:Fa.
  - intros [= ->]. exists [], l. repeat split; auto. intros y [].
  - intros E. destruct (IH E) as (l1 & l2 & -> & Fx & Hl1).
    exists (a :: l1), l2. repeat split; auto.
    intros y [<- | Hy]; auto.
Qed.

Section ResolveFacts.
Context `{Host}.

Lemma findDepartmentMatch_wire (lq : jsstring) (I : KeywordIndex) :
  Knowledge.findDepartmentMatch lq (map (λ kv, (kv.1, JStr kv.2)) I)
  = Normal (List.find (exactDepartment lq) I).
Proof.
  induction I as [|[k v] I IH]; simpl; [reflexivity|].
  unfold exactDepartment; simpl.
  destruct (streq (toLowerCase k) lq); simpl; [|exact IH].
  destruct (startsWith v Knowledge.Department); [reflexivity | exact IH].
Qed.

Lemma scanKeywords_wire (lq : jsstring) (I : KeywordIndex) :
  Knowledge.scanKeywords lq (map (λ kv, (kv.1, JStr kv.2)) I)
  = Normal (substringScan lq I).
Proof.
  unfold substringScan.
  induction I as [|[k v] I IH]; simpl; [reflexivity|].
  destruct (startsWith v Knowledge.Department); simpl; [exact IH|].
  destruct (includes lq (toLowerCase k)); [reflexivity | exact IH].
Qed.

(** On an index of the stored shape, [findMatchingEntryId] does not throw
    and is the exact department match, if any, else the substring scan. *)
Lemma findMatchingEntryId_wire (query : jsstring) (I : KeywordIndex) :
  Knowledge.findMatchingEntryId query (wire I)
  = Normal match List.find (exactDepartment (normalize query)) I with
           | Some kv => Some kv.2
           | None => substringScan (normalize query) I
           end.
Proof.
  unfold Knowledge.findMatchingEntryId, wire; simpl.
  fold (normalize query).
  rewrite findDepartmentMatch_wire; simpl.
  destruct (List.find _ I) as [[k v]|]; [reflexivity|].
  apply scanKeywords_wire.
Qed.

Lemma exactDepartment_true (lq k v : jsstring) :
  exactDepartment lq (k, v) = true ↔
  toLowerCase k = lq ∧ ∃ c, v = Knowledge.Department ++ c.
Proof.
  unfold exactDepartment; simpl.
  rewrite andb_true_iff, streq_eq, startsWith_prefix. reflexivity.
Qed.

End ResolveFacts.

(** C1, as stated, fails: the query [icu] equals the keyword [icu], whose
    value is the marker [Department:ward], and also, lowercased, the
    earlier keyword [ICU]; [findMatchingEntryId] returns the marker of the
    earlier one. *)
Lemma C1_department_of_given_key_counterexample :
  let k := lit "icu" in
  let c := lit "ward" in
  let q := lit "icu" in
  In (k, Knowledge.Department ++ c) CaseClash.index
  ∧ @toLowerCase CaseClash.host k = @normalize CaseClash.host q
  ∧ @Knowledge.findMatchingEntryId CaseClash.host q (wire CaseClash.index)
    ≠ Normal (Some (Knowledge.Department ++ c)).
Proof. vm_compute. split; [auto | split; [reflexivity | discriminate]]. Qed.

(** C3, as stated, fails.  The keywords [cvvh] and [119] are assigned in
    this order, and both are contained in the query [cvvh 119]; the scan
    in the order of insertion finds [cvvh] first, but [119] is an array
    index, the object enumerates it first, and [findMatchingEntryId]
    returns its target.  And the keyword [cvvh ], with a space at its end,
    is contained in the lowercased query [about cvvh ] but not in the
    normalized one, which is trimmed: the query is not resolved. *)
Lemma C3_substring_scan_counterexample :
  (let q := lit "cvvh 119" in
   (∀ kv, In kv Numbered.insertions →
      @exactDepartment Numbered.host (@normalize Numbered.host q) kv = false)
   ∧ @substringScan Numbered.host (@normalize Numbered.host q)
       Numbered.insertions
     = Some (lit "icu-cvvh-setup")
   ∧ @Knowledge.findMatchingEntryId Numbered.host q
       (wire (assigned Numbered.insertions))
     = Normal (Some (lit "er-119")))
  ∧ (let q := lit "about cvvh " in
     let k := lit "cvvh " in
     In (k, lit "icu-cvvh-setup") Spaced.index
     ∧ startsWith (lit "icu-cvvh-setup") Knowledge.Department = false
     ∧ includes (@toLowerCase Spaced.host q) (@toLowerCase Spaced.host k)
       = true
     ∧ @Knowledge.findMatchingEntryId Spaced.host q (wire Spaced.index)
       = Normal None).
Proof.
  split.
  - split; [|split; vm_compute; reflexivity].
    intros kv [<- | [<- | []]]; vm_compute; reflexivity.
  - split; [left; reflexivity|]. repeat split; vm_compute; reflexivity.
Qed.

(** Assignments of keys that are new, no array index and not [__proto__]
    append to the object. *)
Lemma fold_set_plain (I acc : KeywordIndex) :
  NoDup (map fst (acc ++ I)) →
  (∀ k v, In (k, v) I → Obj.arrayIndex k = None ∧ k ≠ lit "__proto__") →
  fold_left (λ o kv, Obj.set o kv.1 kv.2) I acc = acc ++ I.
Proof.
  revert acc. induction I as [|[k v] I IH]; intros acc Hnd Hplain.
  - simpl. rewrite app_nil_r. reflexivity.
  - cbn [fold_left fst snd].
    destruct (Hplain k v (or_introl eq_refl)) as [Hidx Hproto].
    assert (Obj.set acc k v = acc ++ [(k, v)]) as ->.
    { unfold Obj.set.
      destruct (streq k (lit "__proto__")) eqn:P;
        [apply streq_eq in P; contradiction|].
      destruct (Obj.has acc k) eqn:Hhas; [|rewrite Hidx; reflexivity].
      exfalso. unfold Obj.has in Hhas.
      apply existsb_exists in Hhas as ([k' v'] & Hin & E).
      apply streq_eq in E. simpl in E. subst k'.
      rewrite map_app in Hnd. apply NoDup_app in Hnd as (_ & Hdisj & _).
      apply (Hdisj k).
      - apply list_elem_of_In, in_map_iff. exists (k, v'). auto.
      - left. }
    rewrite IH.
    + rewrite <- app_assoc. reflexivity.
    + rewrite <- app_assoc. exact Hnd.
    + intros k' v' Hin. apply (Hplain k' v'). right. exact Hin.
Qed.

Section ResolveClaims.
Context `{Host}.

(** C1 (amended): if the normalized query equals the lowercased form of
    some index key whose value is a department marker, then
    [findMatchingEntryId] returns a department marker, that of the first
    such key in index order, whatever non-department keywords are
    contained in the query; it is the marker of the given key whenever
    all the department keys with that lowercased form carry the same
    marker. *)
Theorem C1_exact_department_match
    (I : KeywordIndex) (q k c : jsstring) :
  In (k, Knowledge.Department ++ c) I →
  toLowerCase k = normalize q →
  ∃ I1 k' c' I2,
    I = I1 ++ (k', Knowledge.Department ++ c') :: I2
    ∧ toLowerCase k' = normalize q
    ∧ (∀ kv, In kv I1 → exactDepartment (normalize q) kv = false)
    ∧ Knowledge.findMatchingEntryId q (wire I)
      = Normal (Some (Knowledge.Department ++ c'))
    ∧ ((∀ k2 c2, In (k2, Knowledge.Department ++ c2) I →
                 toLowerCase k2 = normalize q → c2 = c) → c' = c).
Proof.
  intros Hin Hk.
  rewrite findMatchingEntryId_wire.
  destruct (List.find (exactDepartment (normalize q)) I) as [[k' v']|] eqn:F.
  - destruct (find_first _ _ _ F) as (I1 & I2 & -> & Hx & Hfirst).
    apply exactDepartment_true in Hx as [Hk' [c' ->]].
    exists I1, k', c', I2. repeat split; auto.
    intros Huniq. apply (Huniq k'); [|exact Hk'].
    apply in_or_app; right; left; reflexivity.
  - exfalso.
    pose proof (find_none _ _ F _ Hin) as Hno.
    assert (exactDepartment (normalize q) (k, Knowledge.Department ++ c) = true)
      as Hyes by (apply exactDepartment_true; eauto).
    congruence.
Qed.

(** C3 (amended): when no entry is an exact department match,
    [findMatchingEntryId] is the substring scan over the index [I] as
    [Object.entries] enumerates it: it passes over the department entries
    and returns the target of the first remaining entry, in that order,
    whose lowercased keyword is contained in the normalized query, and
    [null] when there is none.  Hence, if some non-department keyword is,
    lowercased, contained in the normalized query, the result is the
    target of an entry of the index that is not a department entry and
    whose keyword is contained in the normalized query.  The order of
    enumeration is the order of insertion for an index built by assigning
    keywords none of which is an array index or [__proto__] or occurs
    twice: the scan then goes through the entries as they were
    assigned. *)
Theorem C3_substring_scan (I : KeywordIndex) (q : jsstring) :
  (∀ kv, In kv I → exactDepartment (normalize q) kv = false) →
  Knowledge.findMatchingEntryId q (wire I)
  = Normal (substringScan (normalize q) I)
  ∧ ((∀ k v, In (k, v) I → startsWith v Knowledge.Department = false →
             includes (normalize q) (toLowerCase k) = false) →
     Knowledge.findMatchingEntryId q (wire I) = Normal None)
  ∧ (∀ k v, In (k, v) I → startsWith v Knowledge.Department = false →
           includes (normalize q) (toLowerCase k) = true →
           ∃ k' v', In (k', v') I
                    ∧ startsWith v' Knowledge.Department = false
                    ∧ includes (normalize q) (toLowerCase k') = true
                    ∧ Knowledge.findMatchingEntryId q (wire I)
                      = Normal (Some v'))
  ∧ (plainKeys I →
     assigned I = I
     ∧ Knowledge.findMatchingEntryId q (wire (assigned I))
       = Normal (substringScan (normalize q) I)).
Proof.
  intros Hnodep.
  assert (Knowledge.findMatchingEntryId q (wire I)
          = Normal (substringScan (normalize q) I)) as E.
  { rewrite findMatchingEntryId_wire.
    destruct (List.find (exactDepartment (normalize q)) I) as [kv|] eqn:F;
      [|reflexivity].
    apply find_some in F as [Hin Hkv]. rewrite (Hnodep _ Hin) in Hkv.
    discriminate. }
  assert (plainKeys I → assigned I = I) as Hplain.
  { intros [Hnd Hkeys]. unfold assigned.
    rewrite (fold_set_plain I [] Hnd Hkeys). reflexivity. }
  split; [exact E|]. split; [|split].
  3:{ intros Hp. rewrite (Hplain Hp). split; [reflexivity | exact E]. }
  all: rewrite E; unfold substringScan.
  - intros Hnone.
    destruct (List.find _ _) as [[k v]|] eqn:F; [|reflexivity].
    apply find_some in F as [Hin Hinc]. apply filter_In in Hin as [Hin Hnd].
    simpl in *. apply negb_true_iff in Hnd.
    rewrite (Hnone _ _ Hin Hnd) in Hinc. discriminate.
  - intros k v Hin Hnd Hinc.
    destruct (List.find _ _) as [[k' v']|] eqn:F.
    + apply find_some in F as [Hin' Hinc'].
      apply filter_In in Hin' as [Hin' Hnd']. simpl in *.
      apply negb_true_iff in Hnd'. exists k', v'. auto.
    + exfalso.
      assert (In (k, v) (List.filter
                (λ kv, negb (startsWith kv.2 Knowledge.Department)) I)) as Hf.
      { apply filter_In. split; [exact Hin|]. simpl. rewrite Hnd. reflexivity. }
      pose proof (find_none _ _ F _ Hf) as Hno. simpl in Hno. congruence.
Qed.

End ResolveClaims.

Lemma C1_exact_department_match_witness :
  ∃ I1 k' c' I2,
    Scenario.index = I1 ++ (k', Knowledge.Department ++ c') :: I2
    ∧ @toLowerCase Scenario.host k' = @normalize Scenario.host (lit " ICU ")
    ∧ (∀ kv, In kv I1 →
         @exactDepartment Scenario.host
           (@normalize Scenario.host (lit " ICU ")) kv = false)
    ∧ @Knowledge.findMatchingEntryId Scenario.host (lit " ICU ")
        (wire Scenario.index)
      = Normal (Some (Knowledge.Department ++ c'))
    ∧ ((∀ k2 c2, In (k2, Knowledge.Department ++ c2) Scenario.index →
          @toLowerCase Scenario.host k2
          = @normalize Scenario.host (lit " ICU ") → c2 = lit "icu")
       → c' = lit "icu").
Proof.
  apply (@C1_exact_department_match Scenario.host Scenario.index
           (lit " ICU ") (lit "icu") (lit "icu")).
  - vm_compute. left. reflexivity.
  - vm_compute. reflexivity.
Defined.

Lemma C3_substring_scan_witness :
  let q := lit "how do I set up cvvh" in
  @Knowledge.findMatchingEntryId Scenario.host q (wire Scenario.index)
  = Normal (@substringScan Scenario.host (@normalize Scenario.host q)
              Scenario.index)
  ∧ @substringScan Scenario.host (@normalize Scenario.host q) Scenario.index
    = Some (lit "icu-cvvh-setup").
Proof.
  split; [|vm_compute; reflexivity].
  destruct (@C3_substring_scan Scenario.host Scenario.index
              (lit "how do I set up cvvh")) as [E _]; [|exact E].
  intros kv [<- | [<- | []]]; vm_compute; reflexivity.
Defined.

(** ** The retrieval engine *)

Lemma try_catch_normal {A} (body : completion A) (handler : A) :
  ∃ a, try_catch body handler = Normal a.
Proof. destruct body; simpl; eauto. Qed.

Lemma Department_nonempty (code : jsstring) :
  streq (Knowledge.Department ++ code) [] = false.
Proof.
  assert (∃ c r, Knowledge.Department = c :: r) as (c & r & ->)
    by (vm_compute; eauto).
  reflexivity.
Qed.

Section RetrievalFacts.
Context `{Host}.
Variable kv : option KVNamespace.

Lemma getDepartmentEntries_normal (department : jsstring) :
  ∃ es, Knowledge.getDepartmentEntries kv department = Normal es.
Proof. apply try_catch_normal. Qed.

Lemma getKnowledgeById_normal (id : jsstring) :
  ∃ v, Knowledge.getKnowledgeById kv id = Normal v.
Proof. apply try_catch_normal. Qed.

Lemma getAllKnowledgeIds_normal :
  ∃ ids, Knowledge.getAllKnowledgeIds kv = Normal ids.
Proof. apply try_catch_normal. Qed.

(** A fetch that fails is [null] to the callers of the two getters. *)
Lemma getKeywordIndex_fails (ns : KVNamespace) :
  kv = Some ns → fetchFails ns (lit "keyword-index") →
  Knowledge.getKeywordIndex kv = Normal JNull.
Proof.
  intros -> [E | [E | (raw & E & P)]]; unfold Knowledge.getKeywordIndex;
    rewrite E; simpl; try reflexivity.
  destruct (streq raw []); [reflexivity|]. rewrite P. reflexivity.
Qed.

Lemma getKnowledgeById_fails (ns : KVNamespace) (id : jsstring) :
  kv = Some ns → fetchFails ns (lit "knowledge:" ++ id) →
  Knowledge.getKnowledgeById kv id = Normal JNull.
Proof.
  intros -> [E | [E | (raw & E & P)]]; unfold Knowledge.getKnowledgeById;
    rewrite E; simpl; try reflexivity.
  destruct (streq raw []); [reflexivity|]. rewrite P. reflexivity.
Qed.

Lemma getDepartmentEntries_no_ids (department : jsstring) (ids : list jsstring) :
  Knowledge.getAllKnowledgeIds kv = Normal ids →
  List.filter (λ id, startsWith id (toLowerCase (trim department) ++ lit "-"))
              ids = [] →
  Knowledge.getDepartmentEntries kv department = Normal [].
Proof.
  intros E F. unfold Knowledge.getDepartmentEntries.
  rewrite E. simpl. rewrite F. reflexivity.
Qed.

(** [getResponse] once the index is loaded and the keyword resolved to a
    department marker. *)
Lemma getResponse_department (q : jsstring) (keywordIndex : jsval)
    (code : jsstring) (es : list Knowledge.summary) :
  Knowledge.getKeywordIndex kv = Normal keywordIndex →
  truthy keywordIndex = true →
  Knowledge.findMatchingEntryId q keywordIndex
    = Normal (Some (Knowledge.Department ++ code)) →
  Knowledge.getDepartmentEntries kv code = Normal es →
  Knowledge.getResponse kv q
  = Normal (Some (Knowledge.Listing
      {| Knowledge.isDepartmentListing := true;
         Knowledge.department := code;
         Knowledge.entries := es |})).
Proof.
  intros EI T ER ED. unfold Knowledge.getResponse.
  rewrite EI; simpl. rewrite T; simpl. rewrite ER; simpl.
  rewrite Department_nonempty, startsWith_app, replace_prefix; simpl.
  rewrite ED; simpl.
  destruct es; reflexivity.
Qed.

End RetrievalFacts.


Example ward_has_no_entries :
  @Knowledge.getDepartmentEntries Ward.host Ward.kv (lit "ward") = Normal [].
Proof. vm_compute. reflexivity. Qed.




Example storage_outage_is_a_miss :
  @Knowledge.getResponse Scenario.host
     (Some {| kv_get := λ _, Throw; kv_list := Throw |}) (lit "icu")
  = Normal None.
Proof. reflexivity. Qed.

(** ** The dialog service *)

Section DialogFacts.
Variable now : nat → jsstring.
Variable JSON_stringify : jsval → jsstring.

Lemma getUserContext_spec (userId : jsstring) (w : Dialog.world) :
  Dialog.getUserContext now userId w
  = (touched now w userId,
     {| Dialog.userContexts :=
          <[userId := touched now w userId]> (Dialog.userContexts w);
        Dialog.clock := readings w userId + Dialog.clock w |}).
Proof.
  unfold Dialog.getUserContext, touched, readings, mbind, Dialog.State_bind,
    Dialog.has, Dialog.newDate, Dialog.set, Dialog.update, Dialog.get, mret,
    Dialog.State_ret.
  destruct w as [m n]; simpl.
  destruct (m !! userId) as [c|] eqn:E; simpl.
  - rewrite lookup_alter_eq, E. simpl. f_equal. f_equal.
    apply map_eq. intros j. destruct (decide (userId = j)) as [<-|Hne].
    + rewrite lookup_alter_eq, lookup_insert_eq, E. reflexivity.
    + rewrite lookup_alter_ne, lookup_insert_ne by exact Hne. reflexivity.
  - rewrite alter_insert_eq, lookup_insert_eq. reflexivity.
Qed.

(** The body shared by the four [record] functions. *)
Lemma record_spec (userId : jsstring) (r : Dialog.role) (text : jsstring)
    (w : Dialog.world) :
  Dialog.record now userId r text w
  = (tt,
     {| Dialog.userContexts :=
          <[userId :=
              Dialog.push
                {| Dialog.entry_role := r; Dialog.content := text;
                   Dialog.timestamp := now (readings w userId + Dialog.clock w) |}
                (touched now w userId)]> (Dialog.userContexts w);
        Dialog.clock := S (readings w userId + Dialog.clock w) |}).
Proof.
  unfold Dialog.record, mbind, Dialog.State_bind.
  rewrite getUserContext_spec.
  unfold Dialog.newDate, Dialog.update; simpl.
  rewrite alter_insert_eq. reflexivity.
Qed.

Lemma perform_spec (a : Dialog.append) (w : Dialog.world) :
  Dialog.perform now JSON_stringify a w
  = Dialog.record now (target a) (said JSON_stringify a).1
      (said JSON_stringify a).2 w.
Proof. destruct a as [u m|u i|u v|u [m|m]]; reflexivity. Qed.

Lemma history_touched (w : Dialog.world) (userId : jsstring) :
  Dialog.history (touched now w userId) = historyOf w userId.
Proof.
  unfold touched, historyOf.
  destruct (Dialog.userContexts w !! userId); reflexivity.
Qed.

Lemma length_pushed (e : Dialog.entry) (c : Dialog.context) :
  (length (Dialog.history c) ≤ Dialog.MAX_DIALOG_HISTORY →
   length (Dialog.history (Dialog.push e c)) ≤ Dialog.MAX_DIALOG_HISTORY)%nat.
Proof.
  unfold Dialog.push, Dialog.MAX_DIALOG_HISTORY; simpl. intros Hlen.
  destruct (Nat.ltb_spec 10 (length (Dialog.history c ++ [e]))) as [Hgt|Hle].
  - destruct (Dialog.history c) as [|x h]; simpl in *; [lia|].
    rewrite length_app in *. simpl in *. lia.
  - exact Hle.
Qed.

Lemma historyOf_bounded (w : Dialog.world) (userId : jsstring) :
  bounded w → (length (historyOf w userId) ≤ Dialog.MAX_DIALOG_HISTORY)%nat.
Proof.
  intros B. unfold historyOf.
  destruct (Dialog.userContexts w !! userId) as [c|] eqn:E.
  - exact (B _ _ E).
  - simpl. lia.
Qed.

Lemma record_bounded (userId : jsstring) (r : Dialog.role) (text : jsstring)
    (w : Dialog.world) :
  bounded w → bounded (Dialog.record now userId r text w).2.
Proof.
  intros B. rewrite record_spec. unfold bounded.
  cbn [snd Dialog.userContexts]. intros u c.
  destruct (decide (userId = u)) as [<-|Hne].
  - rewrite lookup_insert_eq. intros [= <-].
    apply length_pushed. rewrite history_touched.
    apply historyOf_bounded, B.
  - rewrite lookup_insert_ne by exact Hne. apply B.
Qed.

(** The history of [u] after an operation: unchanged when the operation
    is for another user, pushed and cut to the bound otherwise. *)
Lemma historyOf_record (userId u : jsstring) (r : Dialog.role)
    (text : jsstring) (w : Dialog.world) :
  historyOf (Dialog.record now userId r text w).2 u
  = if decide (userId = u)
    then Dialog.history
           (Dialog.push
              {| Dialog.entry_role := r; Dialog.content := text;
                 Dialog.timestamp := now (readings w u + Dialog.clock w) |}
              (touched now w u))
    else historyOf w u.
Proof.
  rewrite record_spec. unfold historyOf at 1.
  cbn [snd Dialog.userContexts].
  destruct (decide (userId = u)) as [<-|Hne].
  - rewrite lookup_insert_eq. reflexivity.
  - rewrite lookup_insert_ne by exact Hne. reflexivity.
Qed.

Lemma lastN_app_drop {A} (n k : nat) (l x : list A) :
  (k ≤ length l → n ≤ length l - k + length x →
   lastN n (drop k l ++ x) = lastN n (l ++ x))%nat.
Proof.
  intros Hk Hn. unfold lastN.
  rewrite !length_app, length_drop.
  assert (l ++ x = take k l ++ (drop k l ++ x)) as ->
    by (rewrite app_assoc, take_drop; reflexivity).
  rewrite (drop_app_ge (take k l)) by (rewrite length_take; lia).
  rewrite length_take. f_equal. lia.
Qed.

Lemma lastN_all {A} (n : nat) (l : list A) :
  (length l ≤ n)%nat → lastN n l = l.
Proof. intros Hl. unfold lastN. replace (length l - n)%nat with 0%nat by lia. reflexivity. Qed.

Lemma shown_pushed (e : Dialog.entry) (c : Dialog.context)
    (x : list (Dialog.role * jsstring)) :
  (length (Dialog.history c) ≤ Dialog.MAX_DIALOG_HISTORY)%nat →
  lastN Dialog.MAX_DIALOG_HISTORY
    (map shown (Dialog.history (Dialog.push e c)) ++ x)
  = lastN Dialog.MAX_DIALOG_HISTORY
      (map shown (Dialog.history c) ++ shown e :: x).
Proof.
  unfold Dialog.push, Dialog.MAX_DIALOG_HISTORY; simpl. intros Hlen.
  replace (map shown (Dialog.history c) ++ shown e :: x)
    with (map shown (Dialog.history c ++ [e]) ++ x)
    by (rewrite map_app, <- app_assoc; reflexivity).
  destruct (Nat.ltb_spec 10 (length (Dialog.history c ++ [e]))) as [Hgt|Hle];
    [|reflexivity].
  rewrite length_app in Hgt; simpl in Hgt.
  change (tail (Dialog.history c ++ [e]))
    with (drop 1 (Dialog.history c ++ [e])).
  rewrite <- skipn_map.
  apply lastN_app_drop; rewrite length_map, length_app; simpl; lia.
Qed.

Lemma performAll_spec (ops : list Dialog.append) (w : Dialog.world)
    (u : jsstring) :
  bounded w →
  bounded (Dialog.performAll now JSON_stringify ops w).2
  ∧ map shown (historyOf (Dialog.performAll now JSON_stringify ops w).2 u)
    = lastN Dialog.MAX_DIALOG_HISTORY
        (map shown (historyOf w u) ++ appended JSON_stringify u ops).
Proof.
  revert w. induction ops as [|a ops IH]; intros w B.
  - split; [exact B|]. simpl. unfold appended; simpl.
    rewrite app_nil_r. symmetry. apply lastN_all.
    rewrite length_map. apply historyOf_bounded, B.
  - change (Dialog.performAll now JSON_stringify (a :: ops) w)
      with (Dialog.performAll now JSON_stringify ops
              (Dialog.perform now JSON_stringify a w).2).
    rewrite perform_spec.
    pose proof (record_bounded (target a) (said JSON_stringify a).1
                  (said JSON_stringify a).2 w B) as B1.
    destruct (IH _ B1) as [B2 E]. split; [exact B2|].
    rewrite E, historyOf_record. unfold appended. cbn [List.filter].
    destruct (decide (target a = u)) as [Hu|Hu].
    + rewrite bool_decide_eq_true_2 by exact Hu. cbn [map].
      rewrite shown_pushed.
      * rewrite history_touched. unfold shown at 2. cbn [Dialog.entry_role Dialog.content].
        destruct (said JSON_stringify a); reflexivity.
      * rewrite history_touched. apply historyOf_bounded, B.
    + rewrite bool_decide_eq_false_2 by exact Hu. reflexivity.
Qed.

End DialogFacts.



(** C5: starting from a state whose histories are within the bound (the
    initial, empty state is one), after any sequence of append operations
    every history has at most 10 entries, and the history of a user is
    the last 10 of its former entries followed by the entries appended
    for it, in order; so 15 appends to a fresh history leave the last 10
    of them, the first 5 being dropped. *)
Theorem C5_history_bounded_fifo (now : nat → jsstring)
    (JSON_stringify : jsval → jsstring)
    (w : Dialog.world) (ops : list Dialog.append) (u : jsstring) :
  bounded w →
  let w' := (Dialog.performAll now JSON_stringify ops w).2 in
  bounded w'
  ∧ (length (historyOf w' u) ≤ 10)%nat
  ∧ map shown (historyOf w' u)
    = lastN 10 (map shown (historyOf w u) ++ appended JSON_stringify u ops)
  ∧ (historyOf w u = [] →
     length (appended JSON_stringify u ops) = 15%nat →
     map shown (historyOf w' u) = drop 5 (appended JSON_stringify u ops)).
Proof.
  intros B w'.
  destruct (performAll_spec now JSON_stringify ops w u B) as [B' E].
  fold w' in B', E. split; [exact B'|].
  split; [apply (historyOf_bounded w' u B')|].
  split; [exact E|].
  intros Hfresh Hlen. rewrite E, Hfresh. simpl.
  unfold lastN. rewrite Hlen. reflexivity.
Qed.

Lemma empty_world_bounded : bounded Dialog.empty_world.
Proof.
  intros u c E. unfold Dialog.empty_world in E; simpl in E.
  rewrite lookup_empty in E. discriminate.
Qed.

Lemma C5_history_bounded_fifo_witness :
  map shown
    (historyOf
       (Dialog.performAll Fifteen.now Fifteen.stringify Fifteen.ops
          Dialog.empty_world).2 Fifteen.u)
  = map (λ m, (Dialog.user, m)) (drop 5 Fifteen.messages).
Proof.
  destruct (C5_history_bounded_fifo Fifteen.now Fifteen.stringify
              Dialog.empty_world Fifteen.ops Fifteen.u empty_world_bounded)
    as (_ & _ & _ & H15).
  rewrite H15; [vm_compute; reflexivity | reflexivity | vm_compute; reflexivity].
Defined.

Section DialogClaims.
Variable now : nat → jsstring.

(** What one call of a [record] function leaves for its user. *)
Lemma record_entry (u : jsstring) (r : Dialog.role) (text : jsstring)
    (w : Dialog.world) :
  appendsOne now w u
    {| Dialog.entry_role := r; Dialog.content := text;
       Dialog.timestamp := now (readings w u + Dialog.clock w) |}
    (Dialog.record now u r text w).2.
Proof.
  unfold appendsOne.
  set (e := {| Dialog.entry_role := r; Dialog.content := text;
               Dialog.timestamp := now (readings w u + Dialog.clock w) |}).
  rewrite record_spec. cbn [snd Dialog.userContexts].
  rewrite lookup_insert_eq. eexists. split; [reflexivity|].
  fold e. unfold Dialog.push.
  cbn [Dialog.history Dialog.lastInteraction Dialog.clock].
  rewrite history_touched. unfold Dialog.MAX_DIALOG_HISTORY.
  split; [reflexivity|]. split.
  - unfold touched, readings.
    destruct (Dialog.userContexts w !! u); simpl.
    + exists (Dialog.clock w). split; [lia | reflexivity].
    + exists (S (Dialog.clock w)). split; [lia | reflexivity].
  - intros Hlen.
    destruct (Nat.ltb_spec 10 (length (historyOf w u ++ [e]))) as [Hgt|Hle].
    + rewrite length_app in Hgt; simpl in Hgt.
      assert (length (historyOf w u) = 10%nat) as H10 by lia.
      unfold lastN. rewrite length_app, H10. simpl.
      destruct (historyOf w u) as [|x h]; [discriminate|].
      simpl in *. rewrite length_app; simpl. split; [lia | reflexivity].
    + split; [exact Hle|]. symmetry. apply lastN_all. exact Hle.
Qed.

(** C8 (amended): [recordUserImage] and [recordUserVideo] each append
    exactly one entry, of role [user], whose content is the placeholder
    built from the media id: an opening bracket, the label (the source's
    word for image, respectively video), a colon, a space, the id and a
    closing bracket.  The call drops the oldest entry when the history would
    exceed 10 and leaves in [lastInteraction] a reading of the clock
    taken during the call. *)
Theorem C8_media_placeholder (w : Dialog.world) (u mediaId : jsstring) :
  let t := now (readings w u + Dialog.clock w) in
  appendsOne now w u
    {| Dialog.entry_role := Dialog.user;
       Dialog.content := lit "[圖片: " ++ mediaId ++ lit "]";
       Dialog.timestamp := t |}
    (Dialog.recordUserImage now u mediaId w).2
  ∧ appendsOne now w u
      {| Dialog.entry_role := Dialog.user;
         Dialog.content := lit "[影片: " ++ mediaId ++ lit "]";
         Dialog.timestamp := t |}
      (Dialog.recordUserVideo now u mediaId w).2.
Proof. split; apply record_entry. Qed.

(** C6: after [clearUserContext], the user has no context;
    [getDialogHistory] then returns the empty history, and leaves a new
    context with an empty history for the user. *)
Theorem C6_clear_then_history (w : Dialog.world) (u : jsstring) :
  let cleared := (Dialog.clearUserContext u w).2 in
  let read := Dialog.getDialogHistory now u cleared in
  Dialog.userContexts cleared !! u = None
  ∧ read.1 = []
  ∧ Dialog.userContexts read.2 !! u
    = Some {| Dialog.history := [];
              Dialog.lastInteraction := now (S (Dialog.clock w)) |}.
Proof.
  intros cleared read.
  assert (Dialog.userContexts cleared !! u = None) as E
    by apply lookup_delete_eq.
  split; [exact E|].
  subst read. unfold Dialog.getDialogHistory, mbind, Dialog.State_bind.
  rewrite getUserContext_spec. unfold touched. rewrite E.
  cbn [fst snd Dialog.userContexts mret Dialog.State_ret Dialog.history].
  split; [reflexivity|].
  rewrite lookup_insert_eq. reflexivity.
Qed.

(** C10: [getDialogHistory] returns the history of an existing context
    and keeps it as it is, and every call, as every call of
    [getUserContext], stores the current reading of the clock in the
    context's [lastInteraction]; for a user without a context it creates
    one with an empty history.  The contexts of the other users are not
    touched. *)
Theorem C10_getDialogHistory_touches (w : Dialog.world) (u : jsstring) :
  (∀ c, Dialog.userContexts w !! u = Some c →
     Dialog.getDialogHistory now u w
     = (Dialog.history c,
        {| Dialog.userContexts :=
             <[u := {| Dialog.history := Dialog.history c;
                       Dialog.lastInteraction := now (Dialog.clock w) |}]>
               (Dialog.userContexts w);
           Dialog.clock := S (Dialog.clock w) |}))
  ∧ (Dialog.userContexts w !! u = None →
     Dialog.getDialogHistory now u w
     = ([],
        {| Dialog.userContexts :=
             <[u := {| Dialog.history := [];
                       Dialog.lastInteraction := now (S (Dialog.clock w)) |}]>
               (Dialog.userContexts w);
           Dialog.clock := S (S (Dialog.clock w)) |}))
  ∧ (Dialog.getUserContext now u w).2 = (Dialog.getDialogHistory now u w).2
  ∧ historyOf (Dialog.getDialogHistory now u w).2 u = historyOf w u
  ∧ ∀ u', u' ≠ u →
      Dialog.userContexts (Dialog.getDialogHistory now u w).2 !! u'
      = Dialog.userContexts w !! u'.
Proof.
  unfold Dialog.getDialogHistory, mbind, Dialog.State_bind.
  rewrite getUserContext_spec. unfold touched, readings, historyOf.
  cbn [fst snd Dialog.userContexts mret Dialog.State_ret].
  repeat split.
  - intros c ->. reflexivity.
  - intros ->. reflexivity.
  - rewrite lookup_insert_eq.
    destruct (Dialog.userContexts w !! u); reflexivity.
  - intros u' Hne. rewrite lookup_insert_ne by congruence. reflexivity.
Qed.

End DialogClaims.

(** ** The response generator *)

Local Open Scope Q_scope.

Lemma Qfloor_unit_scaled (r : Q) (n : Z) :
  (0 < n)%Z → 0 <= r → r < 1 →
  (0 ≤ Qfloor (r * inject_Z n) < n)%Z.
Proof.
  intros Hn H0 H1. split.
  - change 0%Z with (Qfloor 0). apply Qfloor_resp_le.
    apply Qmult_le_0_compat; [exact H0|].
    change 0 with (inject_Z 0). rewrite <- Zle_Qle. lia.
  - rewrite Zlt_Qlt.
    apply Qle_lt_trans with (r * inject_Z n); [apply Qfloor_le|].
    rewrite <- (Qmult_1_l (inject_Z n)) at 2.
    apply Qmult_lt_compat_r; [|exact H1].
    change 0 with (inject_Z 0). rewrite <- Zlt_Qlt. exact Hn.
Qed.

(** A reading in [0, 1) picks an element of a pool of four. *)
Lemma pick_of_four (pool : list jsstring) (r : Q) :
  length pool = 4%nat → 0 <= r → r < 1 →
  ∃ i, (i < 4)%nat ∧ pool !! i = Some (Response.pick pool r).
Proof.
  intros L H0 H1. unfold Response.pick. rewrite L.
  destruct (Qfloor_unit_scaled r 4 ltac:(lia) H0 H1) as [Hlo Hhi].
  change (Z.of_nat 4) with 4%Z.
  destruct (Z.ltb_spec (Qfloor (r * inject_Z 4)) 0) as [Hneg|_]; [lia|].
  exists (Z.to_nat (Qfloor (r * inject_Z 4))). split; [lia|].
  destruct (pool !! Z.to_nat (Qfloor (r * inject_Z 4))) as [x|] eqn:E;
    [reflexivity|].
  apply lookup_ge_None in E. lia.
Qed.

Lemma pick_in (pool : list jsstring) (r : Q) :
  length pool = 4%nat → 0 <= r → r < 1 → In (Response.pick pool r) pool.
Proof.
  intros L H0 H1. destruct (pick_of_four pool r L H0 H1) as (i & _ & E).
  apply list_elem_of_In. eapply list_elem_of_lookup_2. exact E.
Qed.

Lemma generateDefaultResponse_in (r1 r2 r3 : Q) :
  0 <= r1 < 1 → 0 <= r2 < 1 → 0 <= r3 < 1 →
  In (Response.generateDefaultResponse r1 r2 r3) combinations.
Proof.
  intros [? ?] [? ?] [? ?]. unfold combinations, Response.generateDefaultResponse.
  apply in_flat_map. exists (Response.pick Response.friendlyPrefixes r1).
  split; [apply pick_in; auto|].
  apply in_flat_map. exists (Response.pick Response.defaultResponses r2).
  split; [apply pick_in; auto|].
  apply in_map_iff. exists (Response.pick Response.encouragingSuffixes r3).
  split; [reflexivity | apply pick_in; auto].
Qed.

(** Every element of a pool of four is picked by some reading. *)
Lemma pick_reaches (pool : list jsstring) (p : jsstring) :
  length pool = 4%nat → In p pool →
  ∃ r, 0 <= r < 1 ∧ Response.pick pool r = p.
Proof.
  intros L Hin.
  apply list_elem_of_In, list_elem_of_lookup_1 in Hin as [i Hi].
  assert (i < 4)%nat as Hlt by (apply lookup_lt_Some in Hi; lia).
  exists (Z.of_nat i # 4). split.
  - unfold Qle, Qlt; simpl; lia.
  - unfold Response.pick. rewrite L.
    assert (Qfloor ((Z.of_nat i # 4) * inject_Z (Z.of_nat 4)) = Z.of_nat i)
      as ->.
    { assert (i = 0 ∨ i = 1 ∨ i = 2 ∨ i = 3)%nat
        as [-> | [-> | [-> | ->]]] by lia; reflexivity. }
    destruct (Z.ltb_spec (Z.of_nat i) 0); [lia|].
    rewrite Nat2Z.id, Hi. reflexivity.
Qed.

(** Every combination is the answer for some readings: the three parts
    vary independently. *)
Lemma every_combination_reachable (x : jsstring) :
  In x combinations →
  ∃ r1 r2 r3, 0 <= r1 < 1 ∧ 0 <= r2 < 1 ∧ 0 <= r3 < 1
    ∧ Response.generateDefaultResponse r1 r2 r3 = x.
Proof.
  unfold combinations. intros Hx.
  apply in_flat_map in Hx as (p & Hp & Hx).
  apply in_flat_map in Hx as (b & Hb & Hx).
  apply in_map_iff in Hx as (t & <- & Ht).
  destruct (pick_reaches Response.friendlyPrefixes p eq_refl Hp)
    as (r1 & R1 & <-).
  destruct (pick_reaches Response.defaultResponses b eq_refl Hb)
    as (r2 & R2 & <-).
  destruct (pick_reaches Response.encouragingSuffixes t eq_refl Ht)
    as (r3 & R3 & <-).
  exists r1, r2, r3. repeat split; tauto.
Qed.

Lemma handleSpecialKeywords_rules (query : jsstring) :
  Response.handleSpecialKeywords query
  = if greets query then Some Response.greetingReply
    else if thanks query then Some Response.thanksReply
    else if asksHelp query then Some Response.helpReply
    else None.
Proof. reflexivity. Qed.

Lemma greetingReply_nonempty : streq Response.greetingReply [] = false.
Proof. vm_compute. reflexivity. Qed.

Lemma thanksReply_nonempty : streq Response.thanksReply [] = false.
Proof. vm_compute. reflexivity. Qed.

Lemma helpReply_nonempty : streq Response.helpReply [] = false.
Proof. vm_compute. reflexivity. Qed.

(** C9: [generateGeneralResponse] answers a greeting phrase with the
    greeting reply, else a gratitude phrase with the acknowledgement,
    else a help request with the usage instructions, each phrase looked
    for in the input as it is; for any other input, and readings of
    [Math.random] in [0, 1), the answer is a prefix, a body and a suffix
    joined by spaces, each taken from its pool of four by its own
    reading, hence one of the 64 combinations, each of which is the
    answer for some readings. *)
Theorem C9_fallback_composition (query : jsstring) (r1 r2 r3 : Q) :
  0 <= r1 < 1 → 0 <= r2 < 1 → 0 <= r3 < 1 →
  let answer := Response.generateGeneralResponse query r1 r2 r3 in
  (greets query = true → answer = Response.greetingReply)
  ∧ (greets query = false → thanks query = true →
     answer = Response.thanksReply)
  ∧ (greets query = false → thanks query = false → asksHelp query = true →
     answer = Response.helpReply)
  ∧ (greets query = false → thanks query = false → asksHelp query = false →
     answer = Response.pick Response.friendlyPrefixes r1 ++ lit " "
              ++ Response.pick Response.defaultResponses r2 ++ lit " "
              ++ Response.pick Response.encouragingSuffixes r3
     ∧ In (Response.pick Response.friendlyPrefixes r1) Response.friendlyPrefixes
     ∧ In (Response.pick Response.defaultResponses r2) Response.defaultResponses
     ∧ In (Response.pick Response.encouragingSuffixes r3)
          Response.encouragingSuffixes
     ∧ In answer combinations
     ∧ ∀ x, In x combinations →
         ∃ r1' r2' r3', 0 <= r1' < 1 ∧ 0 <= r2' < 1 ∧ 0 <= r3' < 1
           ∧ Response.generateGeneralResponse query r1' r2' r3' = x)
  ∧ length Response.friendlyPrefixes = 4%nat
  ∧ length Response.defaultResponses = 4%nat
  ∧ length Response.encouragingSuffixes = 4%nat
  ∧ length combinations = 64%nat.
Proof.
  intros R1 R2 R3 answer. subst answer.
  unfold Response.generateGeneralResponse.
  rewrite handleSpecialKeywords_rules.
  split; [|split; [|split; [|split]]].
  - intros ->. rewrite greetingReply_nonempty. reflexivity.
  - intros -> ->. rewrite thanksReply_nonempty. reflexivity.
  - intros -> -> ->. rewrite helpReply_nonempty. reflexivity.
  - intros Hg Ht Hh. rewrite Hg, Ht, Hh. split; [reflexivity|].
    split; [apply pick_in; tauto|]. split; [apply pick_in; tauto|].
    split; [apply pick_in; tauto|].
    split; [apply generateDefaultResponse_in; assumption|].
    intros x Hx.
    destruct (every_combination_reachable x Hx)
      as (r1' & r2' & r3' & Q1 & Q2 & Q3 & E).
    exists r1', r2', r3'. repeat split; tauto.
  - repeat split; vm_compute; reflexivity.
Qed.

Lemma C9_fallback_composition_witness :
  Response.generateGeneralResponse (lit "HELP me") 0 (1 # 2) (3 # 4)
  = lit "很高興收到您的問題！" ++ lit " "
    ++ lit "抱歉，我不太理解您的問題。您可以直接輸入部門名稱（例如「ICU」）來查看該部門的所有教學內容，或輸入具體的教學關鍵詞。"
    ++ lit " " ++ lit "您還有其他問題嗎？我很樂意繼續為您服務。".
Proof.
  destruct (C9_fallback_composition (lit "HELP me") 0 (1 # 2) (3 # 4))
    as (_ & _ & _ & Hdefault & _).
  - split; [apply Qle_refl | reflexivity].
  - split; [discriminate | reflexivity].
  - split; [discriminate | reflexivity].
  - destruct Hdefault as (-> & _); vm_compute; reflexivity.
Defined.

Local Close Scope Q_scope.

(** ** Titles and descriptions *)

Example title_of_heading :
  Knowledge.extractTitle
    (lit "intro" ++ [LF] ++ lit "#  Wound care " ++ [LF] ++ lit "text")
  = lit "Wound care".
Proof. vm_compute. reflexivity. Qed.

Example title_missing :
  Knowledge.extractTitle (lit "##no space" ++ [LF] ++ lit "text")
  = lit "未命名知識條目".
Proof. vm_compute. reflexivity. Qed.

(** C7, as stated, fails.  In the first text no line matches the heading
    pattern, the only line that starts with [#] being [#] alone, and yet
    the title is the text of the next line.  In the second text the first
    paragraph that does not start with [#] is blank, and the description
    is the second paragraph. *)
Lemma C7_title_description_counterexample :
  let text1 := lit "#" ++ [LF] ++ lit "foo" in
  let text2 := lit "  " ++ [LF; LF] ++ lit "body" in
  (Knowledge.extractTitle text1 = lit "foo"
   ∧ lines text1 = [lit "#"; lit "foo"]
   ∧ claimed_title text1 = lit "未命名知識條目"
   ∧ Knowledge.extractTitle text1 ≠ claimed_title text1)
  ∧ (Knowledge.extractDescription text2 = lit "body"
     ∧ split text2 [LF; LF] = [lit "  "; lit "body"]
     ∧ claimed_description text2 = []
     ∧ Knowledge.extractDescription text2 ≠ claimed_description text2).
Proof. vm_compute. repeat split; discriminate. Qed.

Lemma lines_nonempty (s : jsstring) : lines s ≠ [].
Proof.
  induction s as [|c s IH]; simpl; [discriminate|].
  destruct (isLineTerminator c); [discriminate|].
  destruct (lines s); discriminate.
Qed.

(** One step of a greedy repetition. *)
Lemma run_plus_cons (cls : N → bool) (rest : list item) (prev : option N)
    (rec : bool) (acc : jsstring) (d : N) (s : jsstring) :
  run (Plus cls :: rest) prev rec acc (d :: s)
  = if cls d then
      match run (Plus cls :: rest) (Some d) rec
              (if rec then d :: acc else acc) s with
      | Some g => Some g
      | None => run rest (Some d) rec (if rec then d :: acc else acc) s
      end
    else None.
Proof. reflexivity. Qed.

Lemma run_plus_stops (cls : N → bool) (rest : list item) (prev : option N)
    (rec : bool) (acc s : jsstring) :
  match s with [] => true | d :: _ => negb (cls d) end = true →
  run (Plus cls :: rest) prev rec acc s = None.
Proof.
  destruct s as [|d s]; [reflexivity|]. intros Hd.
  rewrite run_plus_cons. apply negb_true_iff in Hd. rewrite Hd. reflexivity.
Qed.

Lemma lineTerminator_whiteSpace (c : N) :
  isLineTerminator c = true → isWhiteSpace c = true.
Proof. intros E. unfold isWhiteSpace. rewrite E. apply orb_true_r. Qed.

Lemma followedBySpace_first_line (s l : jsstring) (ls : list jsstring) :
  lines s = l :: ls → followedBySpace l = followedBySpace s.
Proof.
  destruct s as [|d s]; simpl.
  - intros [= <- <-]. reflexivity.
  - destruct (isLineTerminator d) eqn:LT.
    + intros [= <- <-]. simpl. symmetry.
      apply lineTerminator_whiteSpace, LT.
    + destruct (lines s); intros [= <- <-]; reflexivity.
Qed.

Lemma noHeadingMark_lines (s : jsstring) :
  noHeadingMark true s = forallb (λ l, negb (headingMark l)) (lines s)
  ∧ noHeadingMark false s
    = forallb (λ l, negb (headingMark l)) (tail (lines s)).
Proof.
  induction s as [|c s [IHt IHf]]; [auto|].
  cbn [noHeadingMark lines].
  destruct (isLineTerminator c) eqn:LT.
  - cbn [forallb tail]. rewrite IHt.
    assert (headingMark (c :: s) = false) as ->.
    { simpl. replace (c =? HASH) with false; [reflexivity|].
      symmetry. apply N.eqb_neq. intros ->. discriminate. }
    rewrite andb_false_r. auto.
  - rewrite IHf. pose proof (lines_nonempty s) as Hne.
    destruct (lines s) as [|l ls] eqn:E; [congruence|].
    cbn [forallb tail headingMark].
    rewrite (followedBySpace_first_line s l ls E). auto.
Qed.

Lemma Forall_noHeadingMark (s : jsstring) :
  Forall (λ l, headingMark l = false) (lines s) →
  noHeadingMark true s = true.
Proof.
  intros F. rewrite (proj1 (noHeadingMark_lines s)).
  apply forallb_forall. intros l Hl.
  rewrite Forall_forall in F. rewrite F; [reflexivity|].
  apply list_elem_of_In. exact Hl.
Qed.

(** An attempt starts at a line start, at a [#]. *)
Lemma run_title_unfold (prev : option N) (s : jsstring) :
  run Knowledge.titlePattern prev false [] s
  = if lineStart prev then
      match s with
      | c :: s' =>
        if c =? HASH
        then run [Plus isWhiteSpace; Open;
                  Plus (λ c, negb (isLineTerminator c)); Close; Eol]
               (Some c) false [] s'
        else None
      | [] => None
      end
    else None.
Proof. reflexivity. Qed.

(** An attempt away from a line start, or not at a [#] that goes on with
    white space, fails. *)
Lemma run_title_fails (prev : option N) (s : jsstring) :
  lineStart prev && headingMark s = false →
  run Knowledge.titlePattern prev false [] s = None.
Proof.
  rewrite run_title_unfold.
  destruct (lineStart prev); [|reflexivity].
  destruct s as [|c s]; [reflexivity|]. cbn [andb headingMark].
  destruct (c =? HASH); [|reflexivity]. cbn [andb]. intros Hnext.
  apply run_plus_stops.
  destruct s as [|d s]; [discriminate|]. simpl in Hnext. rewrite Hnext.
  reflexivity.
Qed.

(** The search passes over a stretch in which no line bears the heading
    marker. *)
Lemma exec_from_skips (pre s : jsstring) (prev : option N) :
  noHeadingMark (lineStart prev) pre = true →
  exec_from Knowledge.titlePattern prev (pre ++ s)
  = exec_from Knowledge.titlePattern (after prev pre) s.
Proof.
  revert prev. induction pre as [|c pre IH]; intros prev Hno; [reflexivity|].
  cbn [noHeadingMark] in Hno. apply andb_true_iff in Hno as [Hc Hno].
  apply negb_true_iff in Hc.
  change ((c :: pre) ++ s) with (c :: (pre ++ s)).
  cbn [exec_from]. rewrite run_title_fails.
  - rewrite (IH (Some c)) by exact Hno.
    unfold after. simpl. destruct pre as [|d pre]; [reflexivity|].
    simpl. destruct (last (d :: pre)) eqn:E; [reflexivity|].
    apply last_None in E. discriminate.
  - destruct (lineStart prev); [|reflexivity].
    cbn [andb headingMark] in *.
    destruct (c =? HASH); [|reflexivity]. cbn [andb] in *.
    destruct pre as [|d pre]; [discriminate|]. exact Hc.
Qed.

(** The group [(.+)] followed by [$]: the rest of the line. *)
Lemma run_group (content rest acc : jsstring) (prev : option N) :
  content ≠ [] →
  Forall (λ c, isLineTerminator c = false) content →
  lineEnd rest = true →
  run [Plus (λ c, negb (isLineTerminator c)); Close; Eol] prev true acc
      (content ++ rest)
  = Some (reverse acc ++ content).
Proof.
  intros Hne Hall Hend. revert prev acc.
  induction content as [|c content IH]; intros prev acc; [congruence|].
  apply Forall_cons in Hall as [Hc Hall].
  change ((c :: content) ++ rest) with (c :: (content ++ rest)).
  rewrite run_plus_cons, Hc. cbn [negb].
  destruct content as [|c2 content].
  - rewrite run_plus_stops.
    + cbn [run app]. fold (lineEnd rest). rewrite Hend.
      rewrite reverse_cons. reflexivity.
    + simpl. destruct rest as [|d rest]; [reflexivity|].
      simpl in Hend. rewrite Hend. reflexivity.
  - rewrite IH by (auto; discriminate).
    rewrite reverse_cons, <- app_assoc. reflexivity.
Qed.

(** [\s+] followed by the group: the white space is passed, and the
    group starts at the first code unit that is not white space. *)
Lemma run_space_group (ws : jsstring) (c0 : N) (ct rest : jsstring)
    (prev : option N) :
  ws ≠ [] →
  Forall (λ c, isWhiteSpace c = true) ws →
  isWhiteSpace c0 = false →
  Forall (λ c, isLineTerminator c = false) (c0 :: ct) →
  lineEnd rest = true →
  run [Plus isWhiteSpace; Open; Plus (λ c, negb (isLineTerminator c));
       Close; Eol] prev false [] (ws ++ (c0 :: ct) ++ rest)
  = Some (c0 :: ct).
Proof.
  intros Hne Hws Hc0 Hct Hend. revert prev.
  induction ws as [|w ws IH]; intros prev; [congruence|].
  apply Forall_cons in Hws as [Hw Hws].
  change ((w :: ws) ++ (c0 :: ct) ++ rest)
    with (w :: (ws ++ (c0 :: ct) ++ rest)).
  rewrite run_plus_cons, Hw.
  destruct ws as [|w2 ws].
  - rewrite run_plus_stops by (simpl; rewrite Hc0; reflexivity).
    change (run (Open :: [Plus (λ c, negb (isLineTerminator c)); Close; Eol])
              (Some w) false [] ([] ++ (c0 :: ct) ++ rest))
      with (run [Plus (λ c, negb (isLineTerminator c)); Close; Eol]
              (Some w) true [] ((c0 :: ct) ++ rest)).
    rewrite run_group by (auto; discriminate). reflexivity.
  - rewrite IH by (auto; discriminate). reflexivity.
Qed.

(** An attempt at the [#] of a heading line succeeds with its content. *)
Lemma run_title_heading (ws : jsstring) (c0 : N) (ct rest : jsstring)
    (prev : option N) :
  lineStart prev = true →
  ws ≠ [] →
  Forall (λ c, isWhiteSpace c = true) ws →
  isWhiteSpace c0 = false →
  Forall (λ c, isLineTerminator c = false) (c0 :: ct) →
  lineEnd rest = true →
  run Knowledge.titlePattern prev false []
      ([HASH] ++ ws ++ (c0 :: ct) ++ rest)
  = Some (c0 :: ct).
Proof.
  intros Hstart Hne Hws Hc0 Hct Hend.
  unfold Knowledge.titlePattern.
  change (run (Bol :: Lit HASH :: [Plus isWhiteSpace; Open;
                 Plus (λ c, negb (isLineTerminator c)); Close; Eol])
            prev false [] ([HASH] ++ ws ++ (c0 :: ct) ++ rest))
    with (if lineStart prev
          then if HASH =? HASH
               then run [Plus isWhiteSpace; Open;
                         Plus (λ c, negb (isLineTerminator c)); Close; Eol]
                      (Some HASH) false [] (ws ++ (c0 :: ct) ++ rest)
               else None
          else None).
  rewrite Hstart, N.eqb_refl.
  apply run_space_group; assumption.
Qed.

Lemma exec_from_hit (re : list item) (prev : option N) (s g : jsstring) :
  run re prev false [] s = Some g → exec_from re prev s = Some g.
Proof. intros E. destruct s; cbn [exec_from]; rewrite E; reflexivity. Qed.

Lemma exec_from_end (prev : option N) :
  exec_from Knowledge.titlePattern prev [] = None.
Proof.
  cbn [exec_from]. rewrite run_title_fails; [reflexivity|]. apply andb_false_r.
Qed.

Lemma after_line_break (pre : jsstring) :
  (pre = [] ∨ ∃ p c, pre = p ++ [c] ∧ isLineTerminator c = true) →
  lineStart (after None pre) = true.
Proof.
  intros [-> | (p & c & -> & Hc)]; [reflexivity|].
  unfold after. rewrite last_snoc. exact Hc.
Qed.

Lemma lineEnd_rest (rest : jsstring) :
  (rest = [] ∨ ∃ c r, rest = c :: r ∧ isLineTerminator c = true) →
  lineEnd rest = true.
Proof. intros [-> | (c & r & -> & Hc)]; [reflexivity | exact Hc]. Qed.

Lemma match_first_heading (text content : jsstring) :
  firstHeading text content →
  match_group text Knowledge.titlePattern = Some content.
Proof.
  intros [pre ws rest c0 ct Hpre Hlines Hne Hws Hc0 Hct Hrest].
  unfold match_group.
  rewrite exec_from_skips by (apply Forall_noHeadingMark; exact Hlines).
  apply exec_from_hit, run_title_heading.
  - apply after_line_break, Hpre.
  - exact Hne.
  - eapply Forall_impl; [exact Hws|]. intros c [Hc _]. exact Hc.
  - exact Hc0.
  - apply Forall_cons. split; [|exact Hct].
    destruct (isLineTerminator c0) eqn:E; [|reflexivity].
    unfold isWhiteSpace in Hc0. rewrite E, !orb_true_r in Hc0. discriminate.
  - apply lineEnd_rest, Hrest.
Qed.

Lemma match_no_heading (text : jsstring) :
  Forall (λ l, headingMark l = false) (lines text) →
  match_group text Knowledge.titlePattern = None.
Proof.
  intros Hlines. unfold match_group.
  rewrite <- (app_nil_r text).
  rewrite exec_from_skips by (apply Forall_noHeadingMark; exact Hlines).
  apply exec_from_end.
Qed.

Lemma blank_length (s : jsstring) :
  (0 <? length s)%nat = negb (streq s []).
Proof. destruct s; reflexivity. Qed.

Lemma firstParagraph_find (paragraphs : list jsstring) :
  Knowledge.firstParagraph paragraphs
  = match List.find qualifies paragraphs with
    | Some paragraph => trim paragraph
    | None => []
    end.
Proof.
  induction paragraphs as [|p ps IH]; [reflexivity|].
  cbn [Knowledge.firstParagraph List.find]. unfold qualifies at 1.
  rewrite blank_length.
  destruct (negb (startsWith p (lit "#")) && negb (streq (trim p) []));
    [reflexivity | exact IH].
Qed.

Lemma shortened_nonempty (d : jsstring) :
  streq d [] = false → streq (shortened d) [] = false.
Proof.
  unfold shortened. intros Hd.
  destruct (50 <? length d)%nat eqn:L; [|exact Hd].
  destruct d as [|c d]; [discriminate|]. reflexivity.
Qed.

Lemma extractDescription_descriptionOf (text : jsstring) :
  Knowledge.extractDescription text = descriptionOf text.
Proof.
  unfold Knowledge.extractDescription, descriptionOf.
  cbv zeta. rewrite firstParagraph_find.
  destruct (List.find qualifies (split text [LF; LF])) as [p|] eqn:F.
  - apply find_some in F as [_ Q]. unfold qualifies in Q.
    apply andb_true_iff in Q as [_ Q]. apply negb_true_iff in Q.
    unfold substring0. fold (shortened (trim p)).
    rewrite (shortened_nonempty _ Q). reflexivity.
  - reflexivity.
Qed.

(** C7 (amended): the title is the fallback literal when no line of the
    text starts with [#]; when the first line that starts with [#] is
    [#], white space without line terminators, and content starting with
    a code unit that is not white space, the title is that content,
    trimmed.  The description is the first paragraph, among those
    separated by two line feeds, that does not start with [#] and is not
    blank, trimmed, cut to its first 50 code units followed by three dots
    when longer than 50; it is the fallback literal when there is no
    such paragraph. *)
Theorem C7_title_description (text : jsstring) :
  (Forall (λ l, headingMark l = false) (lines text) →
   Knowledge.extractTitle text = lit "未命名知識條目")
  ∧ (∀ content, firstHeading text content →
       Knowledge.extractTitle text = trim content)
  ∧ Knowledge.extractDescription text = descriptionOf text.
Proof.
  unfold Knowledge.extractTitle. split; [|split].
  - intros Hlines. rewrite match_no_heading by exact Hlines. reflexivity.
  - intros content Hfirst.
    rewrite (match_first_heading _ _ Hfirst). reflexivity.
  - apply extractDescription_descriptionOf.
Qed.

Lemma C7_title_description_witness :
  Knowledge.extractTitle
    (lit "intro" ++ [LF] ++ [HASH] ++ lit "  "
     ++ (0x57 :: lit "ound care ") ++ [LF] ++ lit "text")
  = lit "Wound care".
Proof.
  destruct (C7_title_description
              ((lit "intro" ++ [LF]) ++ [HASH] ++ lit "  "
               ++ (0x57 :: lit "ound care ") ++ [LF] ++ lit "text"))
    as (_ & Htitle & _).
  rewrite <- !app_assoc in Htitle.
  rewrite (Htitle (0x57 :: lit "ound care ")); [vm_compute; reflexivity|].
  rewrite !app_assoc. rewrite <- !app_assoc.
  rewrite (app_assoc (lit "intro") [LF]).
  constructor.
  - right. exists (lit "intro"), LF. split; reflexivity.
  - vm_compute. repeat constructor.
  - vm_compute. discriminate.
  - vm_compute. repeat constructor.
  - reflexivity.
  - vm_compute. repeat constructor.
  - right. exists LF, (lit "text"). split; reflexivity.
Defined.


(** C8, as stated, fails on the literal: the placeholder that
    [recordUserImage] stores for the image id [7] is not [[image: 7]], and
    the one [recordUserVideo] stores is not [[video: 7]]; the label is
    the source's word for image, respectively video. *)
Lemma C8_placeholder_literal_counterexample :
  let u := lit "U1" in
  let afterImage :=
    (Dialog.recordUserImage Fifteen.now u (lit "7") Dialog.empty_world).2 in
  let afterVideo :=
    (Dialog.recordUserVideo Fifteen.now u (lit "7") Dialog.empty_world).2 in
  (map Dialog.content (historyOf afterImage u) = [lit "[圖片: 7]"]
   ∧ map Dialog.content (historyOf afterImage u) ≠ [lit "[image: 7]"])
  ∧ (map Dialog.content (historyOf afterVideo u) = [lit "[影片: 7]"]
     ∧ map Dialog.content (historyOf afterVideo u) ≠ [lit "[video: 7]"]).
Proof. vm_compute. repeat split; discriminate. Qed.

(** * Further properties *)

(** ** Resolution of a query *)

Lemma includes_empty (s : jsstring) : includes s [] = true.
Proof. destruct s; reflexivity. Qed.

Lemma includes_self (s : jsstring) : includes s s = true.
Proof. apply includes_infix. exists [], []. rewrite app_nil_r. reflexivity. Qed.

Section ResolveMore.
Context `{Host}.

(** X1: whatever [findMatchingEntryId] returns is the target of an entry
    of the index: either an entry whose keyword, lowercased, equals the
    normalized query and whose target is a department marker, or an
    entry that is no department entry and whose lowercased keyword is
    contained in the normalized query.  In particular a department marker
    is returned only for a query that equals a department keyword. *)
Theorem X1_resolve_sound (I : KeywordIndex) (q v : jsstring) :
  Knowledge.findMatchingEntryId q (wire I) = Normal (Some v) →
  (∃ k, In (k, v) I
        ∧ ((toLowerCase k = normalize q
            ∧ startsWith v Knowledge.Department = true)
           ∨ (startsWith v Knowledge.Department = false
              ∧ includes (normalize q) (toLowerCase k) = true)))
  ∧ (startsWith v Knowledge.Department = true →
     ∃ k, In (k, v) I ∧ toLowerCase k = normalize q).
Proof.
  rewrite findMatchingEntryId_wire. intros E.
  assert (∃ k, In (k, v) I
        ∧ ((toLowerCase k = normalize q
            ∧ startsWith v Knowledge.Department = true)
           ∨ (startsWith v Knowledge.Department = false
              ∧ includes (normalize q) (toLowerCase k) = true))) as Hsound.
  { revert E.
    destruct (List.find (exactDepartment (normalize q)) I) as [[k v']|] eqn:F;
      intros E.
    - injection E as <-. apply find_some in F as [Hin Hx]. simpl.
      exists k. split; [exact Hin|]. left.
      unfold exactDepartment in Hx. simpl in Hx.
      apply andb_true_iff in Hx as [Hk Hv]. apply streq_eq in Hk. auto.
    - injection E as E. unfold substringScan in E. revert E. clear F.
      destruct (List.find _ _) as [[k v']|] eqn:F'; simpl; intros E;
        [|discriminate].
      injection E as <-. apply find_some in F' as [Hin Hinc].
      apply filter_In in Hin as [Hin Hnd]. simpl in *.
      apply negb_true_iff in Hnd. exists k. auto. }
  split; [exact Hsound|].
  intros Hdep. destruct Hsound as (k & Hin & [[Hk _] | [Hnd _]]).
  - exists k. auto.
  - congruence.
Qed.

(** X2: a keyword that is empty once lowercased, on an entry that is no
    department entry, is contained in every query: with such an entry in
    the index no query is unresolved. *)
Theorem X2_empty_keyword_catches_all (I : KeywordIndex) (q k v : jsstring) :
  In (k, v) I →
  toLowerCase k = [] →
  startsWith v Knowledge.Department = false →
  ∃ v', Knowledge.findMatchingEntryId q (wire I) = Normal (Some v').
Proof.
  intros Hin Hk Hnd. rewrite findMatchingEntryId_wire.
  destruct (List.find (exactDepartment (normalize q)) I) as [[k' v']|];
    [eauto|].
  unfold substringScan.
  destruct (List.find _ _) as [[k' v']|] eqn:F; [simpl; eauto|].
  exfalso.
  assert (In (k, v) (List.filter
            (λ kv, negb (startsWith kv.2 Knowledge.Department)) I)) as Hf.
  { apply filter_In. split; [exact Hin|]. simpl. rewrite Hnd. reflexivity. }
  pose proof (find_none _ _ F _ Hf) as Hno. simpl in Hno.
  rewrite Hk, includes_empty in Hno. discriminate.
Qed.

End ResolveMore.

Lemma X1_resolve_sound_witness :
  let q := lit "CVVH alarm" in
  let v := lit "icu-cvvh-setup" in
  (∃ k, In (k, v) Scenario.index
        ∧ ((@toLowerCase Scenario.host k = @normalize Scenario.host q
            ∧ startsWith v Knowledge.Department = true)
           ∨ (startsWith v Knowledge.Department = false
              ∧ includes (@normalize Scenario.host q)
                  (@toLowerCase Scenario.host k) = true)))
  ∧ (startsWith v Knowledge.Department = true →
     ∃ k, In (k, v) Scenario.index
          ∧ @toLowerCase Scenario.host k = @normalize Scenario.host q).
Proof.
  apply (@X1_resolve_sound Scenario.host Scenario.index).
  vm_compute. reflexivity.
Defined.

Lemma X2_empty_keyword_catches_all_witness :
  ∃ v', @Knowledge.findMatchingEntryId Scenario.host (lit "anything")
          (wire (Scenario.index ++ [([], lit "nurse-general")]))
        = Normal (Some v').
Proof.
  apply (@X2_empty_keyword_catches_all Scenario.host _ _ [] (lit "nurse-general")).
  - apply in_or_app. right. left. reflexivity.
  - reflexivity.
  - vm_compute. reflexivity.
Defined.

(** ** The repository *)

Lemma mapM_throw {A B} (f : A → completion B) (l : list A) (x : A) :
  In x l → f x = Throw → mapM f l = Throw.
Proof.
  induction l as [|a l IH]; [intros []|].
  intros [<- | Hin] Hx; simpl.
  - rewrite Hx. reflexivity.
  - destruct (f a); [|reflexivity]. simpl.
    rewrite (IH Hin Hx). reflexivity.
Qed.

Lemma mapM_normal {A B} (f : A → completion B) (l : list A) (r : list B) :
  mapM f l = Normal r → Forall2 (λ x y, f x = Normal y) l r.
Proof.
  revert r. induction l as [|a l IH]; simpl; intros r.
  - intros [= <-]. constructor.
  - destruct (f a) as [b|] eqn:Fa; [|discriminate]. simpl.
    destruct (mapM f l) as [k|]; [|discriminate]. simpl.
    intros [= <-]. constructor; auto.
Qed.

Section RepositoryMore.
Context `{Host}.
Variable kv : option KVNamespace.

Lemma getter_inversion (key : jsstring) (body : completion jsval) :
  resolves kv key →
  body = match kv with
         | None => Normal JNull
         | Some ns =>
           json ← kv_get ns key;
           match json with
           | None => Normal JNull
           | Some raw =>
             if streq raw [] then Normal JNull
             else match JSON_parse raw with
                  | Some v => Normal v
                  | None => Throw
                  end
           end
         end →
  ∃ v, try_catch body JNull = Normal v ∧ (v = JNull ∨ fetched kv key v).
Proof.
  intros R ->. destruct kv as [ns|] eqn:Ekv; simpl; [|eauto].
  destruct (kv_get ns key) as [[raw|]|] eqn:G;
    [|simpl; eauto|exfalso; exact (R ns eq_refl G)].
  simpl. destruct (streq raw []) eqn:S; simpl; [eauto|].
  destruct (JSON_parse raw) as [v|] eqn:P; simpl; [|eauto].
  exists v. split; [reflexivity|]. right. exists ns, raw.
  repeat split; auto. intros ->. discriminate.
Qed.


(** X4: the ids listed by [getAllKnowledgeIds] lead back to the keys they
    come from: when the namespace lists the keys [knowledge:<id>] of some
    ids, [getAllKnowledgeIds] returns these ids, in order, and
    [getKnowledgeById] of each reads the key that was listed.  The call
    completes normally in any case, with no ids when the namespace is not
    set or the listing fails. *)
Theorem X4_listed_ids_round_trip (ns : KVNamespace) (ids : list jsstring) :
  kv = Some ns →
  kv_list ns = Normal (map (λ id, lit "knowledge:" ++ id) ids) →
  Knowledge.getAllKnowledgeIds kv = Normal ids
  ∧ ∀ id v, In id ids → fetched kv (lit "knowledge:" ++ id) v →
      Knowledge.getKnowledgeById kv id = Normal v.
Proof.
  intros -> L. split.
  - unfold Knowledge.getAllKnowledgeIds. rewrite L. simpl. f_equal.
    rewrite map_map. rewrite <- (map_id ids) at 2.
    apply map_ext. intros id. apply replace_prefix.
  - intros id v _ (ns' & raw & [= <-] & G & Hne & P).
    unfold Knowledge.getKnowledgeById. rewrite G. simpl.
    destruct (streq raw []) eqn:S; [apply streq_eq in S; congruence|].
    rewrite P. reflexivity.
Qed.

Lemma getAllKnowledgeIds_unset_or_failing :
  (kv = None → Knowledge.getAllKnowledgeIds kv = Normal [])
  ∧ (∀ ns, kv = Some ns → kv_list ns = Throw →
       Knowledge.getAllKnowledgeIds kv = Normal []).
Proof.
  split.
  - intros ->. reflexivity.
  - intros ns -> L. unfold Knowledge.getAllKnowledgeIds. rewrite L. reflexivity.
Qed.

(** The ids of a department among the stored ones. *)
Lemma getDepartmentEntries_unfold (department : jsstring) (ids : list jsstring) :
  Knowledge.getAllKnowledgeIds kv = Normal ids →
  Knowledge.getDepartmentEntries kv department
  = let departmentIds :=
      List.filter
        (λ id, startsWith id (toLowerCase (trim department) ++ lit "-")) ids in
    try_catch
      (if (length departmentIds =? 0)%nat then Normal []
       else entries ← mapM (Knowledge.summarize kv) departmentIds;
            Normal (omap (λ e, e) entries))
      [].
Proof.
  intros E. unfold Knowledge.getDepartmentEntries. rewrite E. reflexivity.
Qed.

(** X5: one stored record of the department that is not [null] and whose
    [text] is not a string empties the whole listing: [extractTitle]
    throws on it, and [getDepartmentEntries] answers the exception with
    the empty list, dropping the well-formed records too. *)
Theorem X5_malformed_record_empties_listing
    (department : jsstring) (ids : list jsstring) (id : jsstring)
    (record : jsval) :
  Knowledge.getAllKnowledgeIds kv = Normal ids →
  In id ids →
  startsWith id (toLowerCase (trim department) ++ lit "-") = true →
  Knowledge.getKnowledgeById kv id = Normal record →
  truthy record = true →
  (∀ text, getProp record (lit "text") ≠ Some (JStr text)) →
  Knowledge.getDepartmentEntries kv department = Normal [].
Proof.
  intros E Hin Hpre G T Htext.
  rewrite (getDepartmentEntries_unfold department ids E). cbv zeta.
  set (departmentIds := List.filter _ ids).
  assert (In id departmentIds) as Hd by (apply filter_In; auto).
  destruct (length departmentIds =? 0)%nat; [reflexivity|].
  rewrite (mapM_throw _ _ id Hd); [reflexivity|].
  unfold Knowledge.summarize. rewrite G. simpl. rewrite T.
  destruct (getProp record (lit "text")) as [[| | |s| |]|] eqn:P;
    try reflexivity.
  exfalso. exact (Htext s eq_refl).
Qed.

Lemma summarize_some (id : jsstring) (e : Knowledge.summary) :
  Knowledge.summarize kv id = Normal (Some e) →
  ∃ record text,
    Knowledge.getKnowledgeById kv id = Normal record
    ∧ truthy record = true
    ∧ getProp record (lit "text") = Some (JStr text)
    ∧ e = summaryOf record text.
Proof.
  unfold Knowledge.summarize.
  destruct (Knowledge.getKnowledgeById kv id) as [record|]; [|discriminate].
  simpl. destruct (truthy record) eqn:T; [|discriminate].
  destruct (getProp record (lit "text")) as [[| | |s| |]|] eqn:P;
    try discriminate.
  simpl. intros [= <-]. exists record, s. auto.
Qed.

Lemma length_omap_id {A} (r : list (option A)) :
  (length (omap (λ e, e) r) ≤ length r)%nat.
Proof.
  induction r as [|o r IH]; [reflexivity|].
  destruct o; cbn [omap list_omap length] in *; lia.
Qed.

Lemma omap_id_Forall2 {A B} (P : A → B → Prop) (l : list A)
    (r : list (option B)) (y : B) :
  Forall2 (λ x o, ∀ b, o = Some b → P x b) l r →
  In y (omap (λ e, e) r) → ∃ x, In x l ∧ P x y.
Proof.
  induction 1 as [|x o l r Hxo _ IH]; simpl; [intros []|].
  destruct o as [b|]; simpl.
  - intros [<- | Hy]; [eauto|]. destruct (IH Hy) as (x' & ? & ?). eauto.
  - intros Hy. destruct (IH Hy) as (x' & ? & ?). eauto.
Qed.

(** X6: every element of a department listing is made from a stored
    record: from the text of the record fetched for a listed id that
    starts with the normalized department code and a hyphen; its [id] is
    the [id] field of the record.  The listing has no more elements than
    there are such ids. *)
Theorem X6_department_entries_sound
    (department : jsstring) (ids : list jsstring)
    (entries : list Knowledge.summary) :
  Knowledge.getAllKnowledgeIds kv = Normal ids →
  Knowledge.getDepartmentEntries kv department = Normal entries →
  (∀ e, In e entries →
     ∃ id record text,
       In id ids
       ∧ startsWith id (toLowerCase (trim department) ++ lit "-") = true
       ∧ Knowledge.getKnowledgeById kv id = Normal record
       ∧ truthy record = true
       ∧ getProp record (lit "text") = Some (JStr text)
       ∧ e = summaryOf record text)
  ∧ (length entries
     ≤ length (List.filter
         (λ id, startsWith id (toLowerCase (trim department) ++ lit "-"))
         ids))%nat.
Proof.
  intros E. rewrite (getDepartmentEntries_unfold department ids E). cbv zeta.
  set (departmentIds := List.filter _ ids).
  destruct (length departmentIds =? 0)%nat.
  { intros [= <-]. split; [intros e []|simpl; lia]. }
  destruct (mapM (Knowledge.summarize kv) departmentIds) as [r|] eqn:M;
    simpl; intros [= <-]; [|split; [intros e []|simpl; lia]].
  apply mapM_normal in M. split.
  - intros e He.
    destruct (omap_id_Forall2
                (λ id e, Knowledge.summarize kv id = Normal (Some e))
                departmentIds r e) as (id & Hid & Hs); [|exact He|].
    + eapply Forall2_impl; [exact M|]. intros x o Hx b ->. exact Hx.
    + apply filter_In in Hid as [Hid Hpre].
      destruct (summarize_some id e Hs) as (record & text & ? & ? & ? & ?).
      exists id, record, text. repeat split; assumption.
  - rewrite (Forall2_length _ _ _ M). apply length_omap_id.
Qed.

End RepositoryMore.


Lemma X4_listed_ids_round_trip_witness :
  @Knowledge.getAllKnowledgeIds Scenario.kv = Normal [lit "icu-cvvh-setup"].
Proof.
  destruct (@X4_listed_ids_round_trip Scenario.host Scenario.kv
              (tableKV [(lit "keyword-index", lit "<index>");
                        (lit "knowledge:icu-cvvh-setup", lit "<doc>")])
              [lit "icu-cvvh-setup"]) as [E _].
  - reflexivity.
  - vm_compute. reflexivity.
  - exact E.
Defined.

Lemma X5_malformed_record_empties_listing_witness :
  @Knowledge.getDepartmentEntries Malformed.host Malformed.kv (lit "ICU")
  = Normal [].
Proof.
  apply (@X5_malformed_record_empties_listing Malformed.host Malformed.kv
           (lit "ICU") [lit "icu-a"; lit "icu-b"] (lit "icu-b") Malformed.bad).
  - vm_compute. reflexivity.
  - right. left. reflexivity.
  - vm_compute. reflexivity.
  - vm_compute. reflexivity.
  - reflexivity.
  - intros text. vm_compute. discriminate.
Defined.

Lemma X6_department_entries_sound_witness :
  (length [summaryOf Scenario.doc
             (lit "# CVVH setup" ++ [LF; LF] ++ lit "Prime the circuit.")]
   ≤ length (List.filter
       (λ id, startsWith id
                (@toLowerCase Scenario.host (trim (lit "icu")) ++ lit "-"))
       [lit "icu-cvvh-setup"]))%nat.
Proof.
  apply (@X6_department_entries_sound Scenario.host Scenario.kv (lit "icu")
           [lit "icu-cvvh-setup"]); vm_compute; reflexivity.
Defined.

(** ** The retrieval engine, document results *)

(** X7: [getResponse] returns a stored record exactly when the index is
    loaded, the query resolves to a target that is not empty and is no
    department marker, and [getKnowledgeById] of that target returns a
    value that is not falsy; the record is returned as fetched. *)
Theorem X7_document_verbatim `{Host} (kv : option KVNamespace)
    (q : jsstring) (v : jsval) :
  Knowledge.getResponse kv q = Normal (Some (Knowledge.Document v))
  ↔ ∃ keywordIndex id,
      Knowledge.getKeywordIndex kv = Normal keywordIndex
      ∧ truthy keywordIndex = true
      ∧ Knowledge.findMatchingEntryId q keywordIndex = Normal (Some id)
      ∧ id ≠ []
      ∧ startsWith id Knowledge.Department = false
      ∧ Knowledge.getKnowledgeById kv id = Normal v
      ∧ truthy v = true.
Proof.
  unfold Knowledge.getResponse. split.
  - destruct (Knowledge.getKeywordIndex kv) as [keywordIndex|] eqn:EI;
      [|discriminate]. simpl.
    destruct (truthy keywordIndex) eqn:T; [|discriminate]. simpl.
    destruct (Knowledge.findMatchingEntryId q keywordIndex) as [[id|]|] eqn:ER;
      try discriminate. simpl.
    destruct (streq id []) eqn:S; [discriminate|].
    destruct (startsWith id Knowledge.Department) eqn:D.
    + destruct (Knowledge.getDepartmentEntries kv _) as [es|]; simpl;
        [|discriminate].
      destruct (0 <? length es)%nat; discriminate.
    + destruct (Knowledge.getKnowledgeById kv id) as [w|] eqn:G;
        [|discriminate]. simpl.
      destruct (truthy w) eqn:Tw; [|discriminate].
      intros [= <-]. exists keywordIndex, id. repeat split; auto.
      intros ->. discriminate.
  - intros (keywordIndex & id & EI & T & ER & Hne & D & G & Tv).
    rewrite EI; simpl. rewrite T; simpl. rewrite ER; simpl.
    destruct (streq id []) eqn:S; [apply streq_eq in S; congruence|].
    rewrite D, G; simpl. rewrite Tv. reflexivity.
Qed.

(** ** Titles and descriptions, shape of the results *)

Lemma trimStart_suffix (s : jsstring) : ∃ a, s = a ++ trimStart s.
Proof.
  induction s as [|c s [a IH]]; simpl; [exists []; reflexivity|].
  destruct (isWhiteSpace c).
  - exists (c :: a). simpl. f_equal. exact IH.
  - exists []. reflexivity.
Qed.

Lemma trimEnd_prefix (s : jsstring) : ∃ b, s = trimEnd s ++ b.
Proof.
  unfold trimEnd. destruct (trimStart_suffix (reverse s)) as [a E].
  exists (reverse a).
  rewrite <- reverse_app, <- E. symmetry. apply reverse_involutive.
Qed.

Lemma trim_infix (s : jsstring) : ∃ a b, s = a ++ trim s ++ b.
Proof.
  unfold trim. destruct (trimStart_suffix s) as [a Ea].
  destruct (trimEnd_prefix (trimStart s)) as [b Eb].
  exists a, b. rewrite <- Eb. exact Ea.
Qed.

(** A string without white space at its start. *)
Lemma trimStart_clean (s : jsstring) :
  match trimStart s with [] => True | c :: _ => isWhiteSpace c = false end.
Proof.
  induction s as [|c s IH]; simpl; [exact Logic.I|].
  destruct (isWhiteSpace c) eqn:W; [exact IH | exact W].
Qed.

Lemma trimStart_fixed (s : jsstring) :
  match s with [] => True | c :: _ => isWhiteSpace c = false end →
  trimStart s = s.
Proof. destruct s as [|c s]; simpl; [reflexivity|]. intros ->. reflexivity. Qed.

Lemma trim_idempotent (s : jsstring) : trim (trim s) = trim s.
Proof.
  unfold trim. set (t := trimStart s).
  assert (trimStart (trimEnd t) = trimEnd t) as ->.
  { apply trimStart_fixed.
    destruct (trimEnd_prefix t) as [b Eb].
    pose proof (trimStart_clean s) as Hc. fold t in Hc.
    destruct (trimEnd t) as [|c u]; [exact Logic.I|].
    rewrite Eb in Hc. exact Hc. }
  unfold trimEnd at 1. unfold trimEnd at 1.
  rewrite reverse_involutive.
  rewrite (trimStart_fixed (trimStart (reverse t))) by apply trimStart_clean.
  reflexivity.
Qed.

(** The text of the group of an attempt that succeeds lies in the input,
    after the [#] and the white space, and has no line terminator. *)
Lemma run_group_inv (s acc g : jsstring) (prev : option N) :
  run [Plus (λ c, negb (isLineTerminator c)); Close; Eol] prev true acc s
  = Some g →
  ∃ m rest, s = m ++ rest ∧ g = reverse acc ++ m
            ∧ Forall (λ c, isLineTerminator c = false) m.
Proof.
  revert prev acc. induction s as [|d s IH]; intros prev acc.
  - rewrite run_plus_stops by reflexivity. discriminate.
  - rewrite run_plus_cons.
    destruct (isLineTerminator d) eqn:LT; [discriminate|]. cbn [negb].
    destruct (run _ (Some d) true (d :: acc) s) as [g'|] eqn:R.
    + intros [= <-]. destruct (IH _ _ R) as (m & rest & -> & -> & Hm).
      exists (d :: m), rest. rewrite reverse_cons, <- app_assoc.
      repeat split; auto.
    + cbn [run]. destruct s as [|c s'].
      * intros [= <-]. exists [d], []. rewrite reverse_cons.
        repeat split; auto.
      * destruct (isLineTerminator c); [|discriminate].
        intros [= <-]. exists [d], (c :: s'). rewrite reverse_cons.
        repeat split; auto.
Qed.

Lemma run_space_group_inv (s g : jsstring) (prev : option N) :
  run [Plus isWhiteSpace; Open; Plus (λ c, negb (isLineTerminator c));
       Close; Eol] prev false [] s = Some g →
  ∃ w rest, s = w ++ g ++ rest
            ∧ Forall (λ c, isLineTerminator c = false) g.
Proof.
  revert prev. induction s as [|d s IH]; intros prev.
  - rewrite run_plus_stops by reflexivity. discriminate.
  - rewrite run_plus_cons. destruct (isWhiteSpace d); [|discriminate].
    destruct (run _ (Some d) false [] s) as [g'|] eqn:R.
    + intros [= <-]. destruct (IH _ R) as (w & rest & -> & Hg).
      exists (d :: w), rest. auto.
    + change (run [Open; Plus (λ c, negb (isLineTerminator c)); Close; Eol]
                (Some d) false [] s)
        with (run [Plus (λ c, negb (isLineTerminator c)); Close; Eol]
                (Some d) true [] s).
      intros Hg. destruct (run_group_inv _ _ _ _ Hg) as (m & rest & -> & -> & Hm).
      exists [d], rest. auto.
Qed.

Lemma exec_from_inv (re : list item) (s g : jsstring) (prev : option N) :
  exec_from re prev s = Some g →
  ∃ pre s' prev', s = pre ++ s' ∧ run re prev' false [] s' = Some g.
Proof.
  revert prev. induction s as [|c s IH]; intros prev; cbn [exec_from].
  - destruct (run re prev false [] []) eqn:R; [|discriminate].
    intros [= <-]. exists [], [], prev. auto.
  - destruct (run re prev false [] (c :: s)) eqn:R.
    + intros [= <-]. exists [], (c :: s), prev. auto.
    + intros E. destruct (IH _ E) as (pre & s' & prev' & -> & R').
      exists (c :: pre), s', prev'. auto.
Qed.

Lemma match_title_inv (text g : jsstring) :
  match_group text Knowledge.titlePattern = Some g →
  (∃ pre post, text = pre ++ g ++ post)
  ∧ Forall (λ c, isLineTerminator c = false) g.
Proof.
  unfold match_group. intros E.
  destruct (exec_from_inv _ _ _ _ E) as (pre & s & prev & -> & R).
  rewrite run_title_unfold in R.
  destruct (lineStart prev); [|discriminate].
  destruct s as [|c s]; [discriminate|].
  destruct (c =? HASH); [|discriminate].
  destruct (run_space_group_inv _ _ _ R) as (w & rest & -> & Hg).
  split; [|exact Hg].
  exists (pre ++ c :: w), rest. rewrite <- !app_assoc. reflexivity.
Qed.

(** X8: a description is never empty and has at most 53 code units: the
    50 of the cut and the three dots. *)
Theorem X8_description_length (text : jsstring) :
  (1 ≤ length (Knowledge.extractDescription text) ≤ 53)%nat.
Proof.
  rewrite extractDescription_descriptionOf. unfold descriptionOf.
  destruct (List.find qualifies (split text [LF; LF])) as [p|] eqn:F.
  - apply find_some in F as [_ Q]. unfold qualifies in Q.
    apply andb_true_iff in Q as [_ Q]. apply negb_true_iff in Q.
    unfold shortened.
    destruct (Nat.ltb_spec 50 (length (trim p))) as [Hlong|Hshort].
    + rewrite length_app, length_take.
      replace (length (lit "...")) with 3%nat by (vm_compute; reflexivity).
      lia.
    + destruct (trim p); [discriminate|]. simpl in *. lia.
  - vm_compute. lia.
Qed.

(** X9: a title is the fallback literal or lies in the text as a
    contiguous run; it never holds a line terminator, and it has no
    white space at either end. *)
Theorem X9_title_shape (text : jsstring) :
  (Knowledge.extractTitle text = lit "未命名知識條目"
   ∨ ∃ pre post, text = pre ++ Knowledge.extractTitle text ++ post)
  ∧ Forall (λ c, isLineTerminator c = false) (Knowledge.extractTitle text)
  ∧ trim (Knowledge.extractTitle text) = Knowledge.extractTitle text.
Proof.
  unfold Knowledge.extractTitle.
  destruct (match_group text Knowledge.titlePattern) as [g|] eqn:M.
  - destruct (match_title_inv _ _ M) as [(pre & post & ->) Hg].
    destruct (trim_infix g) as (a & b & Eg).
    split; [|split].
    + right. exists (pre ++ a), (b ++ post).
      rewrite Eg at 1. rewrite <- !app_assoc. reflexivity.
    + rewrite Eg in Hg. apply Forall_app in Hg as [_ Hg].
      apply Forall_app in Hg as [Hg _]. exact Hg.
    + apply trim_idempotent.
  - split; [left; reflexivity|]. split.
    + vm_compute. repeat constructor.
    + vm_compute. reflexivity.
Qed.

(** ** The dialog service, contexts of other users *)

Section DialogMore.
Variable now : nat → jsstring.
Variable JSON_stringify : jsval → jsstring.

Lemma perform_contexts (a : Dialog.append) (w : Dialog.world) (u : jsstring) :
  Dialog.userContexts (Dialog.perform now JSON_stringify a w).2 !! u
  = if decide (target a = u)
    then Some (Dialog.push
                 {| Dialog.entry_role := (said JSON_stringify a).1;
                    Dialog.content := (said JSON_stringify a).2;
                    Dialog.timestamp :=
                      now (readings w (target a) + Dialog.clock w) |}
                 (touched now w (target a)))
    else Dialog.userContexts w !! u.
Proof.
  rewrite perform_spec, record_spec. cbn [snd Dialog.userContexts].
  destruct (decide (target a = u)) as [<-|Hne].
  - apply lookup_insert_eq.
  - apply lookup_insert_ne. exact Hne.
Qed.

Lemma performAll_cons (a : Dialog.append) (ops : list Dialog.append)
    (w : Dialog.world) :
  Dialog.performAll now JSON_stringify (a :: ops) w
  = Dialog.performAll now JSON_stringify ops
      (Dialog.perform now JSON_stringify a w).2.
Proof. reflexivity. Qed.

(** X10: the record functions touch the context of their user only:
    after any sequence of append operations the context of a user that
    none of them names, history and [lastInteraction], is what it was, a
    user without a context still having none. *)
Theorem X10_other_users_untouched (ops : list Dialog.append)
    (w : Dialog.world) (u : jsstring) :
  ¬ In u (map target ops) →
  Dialog.userContexts (Dialog.performAll now JSON_stringify ops w).2 !! u
  = Dialog.userContexts w !! u.
Proof.
  revert w. induction ops as [|a ops IH]; intros w Hnot; [reflexivity|].
  rewrite performAll_cons, IH, perform_contexts.
  - destruct (decide (target a = u)) as [E|_]; [|reflexivity].
    exfalso. apply Hnot. left. exact E.
  - intros Hin. apply Hnot. right. exact Hin.
Qed.

(** X11: the append operations never remove a context: after any
    sequence of them the users that have a context are those that had one
    before and those that the operations name. *)
Theorem X11_contexts_only_grow (ops : list Dialog.append)
    (w : Dialog.world) (u : jsstring) :
  is_Some (Dialog.userContexts
             (Dialog.performAll now JSON_stringify ops w).2 !! u)
  ↔ is_Some (Dialog.userContexts w !! u) ∨ In u (map target ops).
Proof.
  revert w. induction ops as [|a ops IH]; intros w.
  - simpl. tauto.
  - rewrite performAll_cons, IH, perform_contexts. simpl.
    destruct (decide (target a = u)) as [E|Hne].
    + split; [intros _; right; left; exact E | intros _; left; eauto].
    + tauto.
Qed.

(** X12: of the contexts, [clearUserContext] removes that of its user and
    no other; for a user without a context it leaves the contexts as they
    are, and as to the contexts clearing twice is clearing once. *)
Theorem X12_clear_frame (w : Dialog.world) (u : jsstring) :
  let cleared := (Dialog.clearUserContext u w).2 in
  Dialog.userContexts cleared !! u = None
  ∧ (∀ u', u' ≠ u →
       Dialog.userContexts cleared !! u' = Dialog.userContexts w !! u')
  ∧ (Dialog.userContexts w !! u = None →
     Dialog.userContexts cleared = Dialog.userContexts w)
  ∧ Dialog.userContexts (Dialog.clearUserContext u cleared).2
    = Dialog.userContexts cleared.
Proof.
  unfold Dialog.clearUserContext, Dialog.delete_. cbn [snd Dialog.userContexts
    Dialog.clock]. repeat split.
  - apply lookup_delete_eq.
  - intros u' Hne. apply lookup_delete_ne. congruence.
  - intros Hnone. apply delete_id. exact Hnone.
  - apply delete_id. apply lookup_delete_eq.
Qed.

End DialogMore.

Lemma X10_other_users_untouched_witness :
  Dialog.userContexts
    (Dialog.performAll Fifteen.now Fifteen.stringify Fifteen.ops
       Dialog.empty_world).2 !! lit "U2" = None.
Proof.
  rewrite (X10_other_users_untouched Fifteen.now Fifteen.stringify
             Fifteen.ops Dialog.empty_world (lit "U2")).
  - apply lookup_empty.
  - vm_compute. intros H.
    repeat (destruct H as [H | H]; [discriminate H|]). exact H.
Defined.

(** ** The upload tools *)

Section ObjFacts.
Context {V : Type}.
Implicit Types (o : list (jsstring * V)) (k : jsstring) (v : V).

Lemma has_In o k : Obj.has o k = true ↔ ∃ v, In (k, v) o.
Proof.
  unfold Obj.has. rewrite existsb_exists. split.
  - intros ([k' v] & Hin & E). apply streq_eq in E. simpl in E. subst.
    eauto.
  - intros [v Hin]. exists (k, v). split; [exact Hin|]. apply streq_eq.
    reflexivity.
Qed.

Lemma insertIndex_In n k v o (kv : jsstring * V) :
  In kv (Obj.insertIndex n k v o) ↔ kv = (k, v) ∨ In kv o.
Proof.
  induction o as [|[k' v'] o IH]; simpl; [intuition congruence|].
  destruct (Obj.arrayIndex k') as [n'|]; [|simpl; intuition congruence].
  destruct (n <? n')%N; simpl; [intuition congruence|].
  rewrite IH. intuition congruence.
Qed.

(** The properties after an assignment: the one assigned, and the former
    ones under the other keys. *)
Lemma set_In o k v (kv : jsstring * V) :
  k ≠ lit "__proto__" →
  In kv (Obj.set o k v) ↔ kv = (k, v) ∨ (In kv o ∧ kv.1 ≠ k).
Proof.
  intros Hk. unfold Obj.set.
  destruct (streq k (lit "__proto__")) eqn:P;
    [apply streq_eq in P; congruence|].
  destruct (Obj.has o k) eqn:Hhas.
  - rewrite in_map_iff. split.
    + intros ([k' v'] & E & Hin). simpl in E.
      destruct (streq k' k) eqn:S.
      * apply streq_eq in S. subst. left. reflexivity.
      * subst. right. split; [exact Hin|]. simpl.
        intros ->. rewrite (proj2 (streq_eq k k) eq_refl) in S. discriminate.
    + intros [-> | [Hin Hne]].
      * apply has_In in Hhas as [v' Hin]. exists (k, v'). simpl.
        rewrite (proj2 (streq_eq k k) eq_refl). auto.
      * exists kv. split; [|exact Hin].
        destruct (streq kv.1 k) eqn:S; [|reflexivity].
        apply streq_eq in S. congruence.
  - assert (∀ kv', In kv' o → kv'.1 ≠ k) as Hfresh.
    { intros [k' v'] Hin E. simpl in E. subst.
      assert (Obj.has o k = true) by (apply has_In; eauto). congruence. }
    destruct (Obj.arrayIndex k) as [n|].
    + rewrite insertIndex_In. split.
      * intros [-> | Hin]; [left; reflexivity | right; auto].
      * intros [-> | [Hin _]]; auto.
    + rewrite in_app_iff. simpl. split.
      * intros [Hin | [<- | []]]; [right; auto | left; reflexivity].
      * intros [-> | [Hin _]]; auto.
Qed.

Lemma set_proto o v : Obj.set o (lit "__proto__") v = o.
Proof. unfold Obj.set. rewrite (proj2 (streq_eq _ _) eq_refl). reflexivity. Qed.

Lemma set_In_inv o k v (kv : jsstring * V) :
  In kv (Obj.set o k v) → (kv = (k, v) ∧ k ≠ lit "__proto__") ∨ In kv o.
Proof.
  destruct (streq k (lit "__proto__")) eqn:P.
  - apply streq_eq in P. subst. rewrite set_proto. auto.
  - assert (k ≠ lit "__proto__") as Hk.
    { intros ->. rewrite (proj2 (streq_eq _ _) eq_refl) in P. discriminate. }
    intros Hin. apply set_In in Hin; [|exact Hk].
    destruct Hin as [-> | [? _]]; auto.
Qed.

Lemma set_In_other o k v (kv : jsstring * V) :
  In kv o → kv.1 ≠ k → In kv (Obj.set o k v).
Proof.
  intros Hin Hne. destruct (streq k (lit "__proto__")) eqn:P.
  - apply streq_eq in P. subst. rewrite set_proto. exact Hin.
  - apply set_In; [|auto].
    intros ->. rewrite (proj2 (streq_eq _ _) eq_refl) in P. discriminate.
Qed.

(** Reading a property after an assignment. *)
Lemma find_key_app o1 o2 k :
  List.find (λ kv : jsstring * V, streq kv.1 k) (o1 ++ o2)
  = match List.find (λ kv, streq kv.1 k) o1 with
    | Some kv => Some kv
    | None => List.find (λ kv, streq kv.1 k) o2
    end.
Proof.
  induction o1 as [|[k' v'] o1 IH]; simpl; [reflexivity|].
  destruct (streq k' k); [reflexivity | exact IH].
Qed.

Lemma get_insertIndex n k v o k' :
  Obj.has o k = false →
  Obj.get (Obj.insertIndex n k v o) k'
  = if streq k k' then Some v else Obj.get o k'.
Proof.
  unfold Obj.get. induction o as [|[k0 v0] o IH]; simpl.
  - intros _. destruct (streq k k'); reflexivity.
  - intros Hhas. apply orb_false_iff in Hhas as [H0 Hhas].
    assert (streq k k' = true → streq k0 k' = false) as Hx.
    { intros E. apply streq_eq in E. subst. exact H0. }
    destruct (Obj.arrayIndex k0) as [n0|].
    + destruct (n <? n0)%N; simpl.
      * destruct (streq k k'); reflexivity.
      * destruct (streq k0 k') eqn:S0.
        -- destruct (streq k k'); [|reflexivity]. discriminate (Hx eq_refl).
        -- apply IH. exact Hhas.
    + simpl. destruct (streq k k'); reflexivity.
Qed.

Lemma find_key_has o k :
  Obj.has o k = false →
  List.find (λ kv : jsstring * V, streq kv.1 k) o = None.
Proof.
  unfold Obj.has. induction o as [|[k0 v0] o IH]; simpl; [reflexivity|].
  intros Hhas. apply orb_false_iff in Hhas as [-> Hhas]. exact (IH Hhas).
Qed.

Lemma find_key_replace o k v k' :
  List.find (λ kv : jsstring * V, streq kv.1 k')
    (map (λ kv, if streq kv.1 k then (kv.1, v) else kv) o)
  = (λ kv : jsstring * V, if streq kv.1 k then (kv.1, v) else kv)
    <$> List.find (λ kv, streq kv.1 k') o.
Proof.
  induction o as [|[k0 v0] o IH]; simpl; [reflexivity|].
  destruct (streq k0 k) eqn:S; simpl; destruct (streq k0 k'); simpl;
    rewrite ?S; auto.
Qed.

Lemma get_set o k v k' :
  Obj.get (Obj.set o k v) k'
  = if streq k (lit "__proto__") then Obj.get o k'
    else if streq k k' then Some v else Obj.get o k'.
Proof.
  unfold Obj.set. destruct (streq k (lit "__proto__")); [reflexivity|].
  destruct (Obj.has o k) eqn:Hhas.
  - unfold Obj.get. rewrite find_key_replace.
    destruct (List.find (λ kv, streq kv.1 k') o) as [[k0 v0]|] eqn:F; simpl.
    + apply find_some in F as [_ S0]. simpl in S0. apply streq_eq in S0.
      subst k0. destruct (streq k' k) eqn:E.
      * apply streq_eq in E. subst. rewrite (proj2 (streq_eq k k) eq_refl).
        reflexivity.
      * destruct (streq k k') eqn:E'; [|reflexivity].
        apply streq_eq in E'. subst.
        rewrite (proj2 (streq_eq k' k') eq_refl) in E. discriminate.
    + destruct (streq k k') eqn:E; [|reflexivity].
      apply streq_eq in E. subst k'. apply has_In in Hhas as [v0 Hin].
      pose proof (find_none _ _ F _ Hin) as Hno. simpl in Hno.
      rewrite (proj2 (streq_eq k k) eq_refl) in Hno. discriminate.
  - destruct (Obj.arrayIndex k) as [n|].
    + apply get_insertIndex. exact Hhas.
    + unfold Obj.get. rewrite find_key_app. simpl.
      destruct (streq k k') eqn:E.
      * apply streq_eq in E. subst k'.
        rewrite (find_key_has o k Hhas). reflexivity.
      * destruct (List.find _ o); reflexivity.
Qed.

End ObjFacts.

Example departments_first :
  Upload.addDepartments []
  = [(lit "icu", lit "Department:icu"); (lit "er", lit "Department:er");
     (lit "ward", lit "Department:ward"); (lit "or", lit "Department:or");
     (lit "opd", lit "Department:opd"); (lit "nurse", lit "Department:nurse")].
Proof. vm_compute. reflexivity. Qed.

Example index_keys_are_reordered :
  map fst (@Upload.generateJsonFiles Scenario.host
             [{| Upload.iso_id := lit "er-triage";
                 Upload.iso_keywords := [lit "triage"; lit "119"; lit "ER"] |}])
  = [lit "119"; lit "icu"; lit "er"; lit "ward"; lit "or"; lit "opd";
     lit "nurse"; lit "triage"].
Proof. vm_compute. reflexivity. Qed.

Lemma departments_get (c : jsstring) :
  In c Upload.codes →
  Obj.get (Upload.addDepartments []) c = Some (Upload.marker c).
Proof.
  intros Hc. vm_compute in Hc.
  repeat (destruct Hc as [<- | Hc]; [vm_compute; reflexivity|]).
  destruct Hc.
Qed.

Lemma departments_In (kv : jsstring * jsstring) :
  In kv (Upload.addDepartments []) ↔
  In kv.1 Upload.codes ∧ kv.2 = Upload.marker kv.1.
Proof.
  rewrite departments_first. unfold Upload.codes, Upload.marker.
  destruct kv as [k v]. split.
  - intros Hin.
    repeat (destruct Hin as [[= <- <-] | Hin];
            [split; [vm_compute; tauto | vm_compute; reflexivity]|]).
    destruct Hin.
  - simpl. intros [Hk ->]. vm_compute in Hk.
    repeat (destruct Hk as [<- | Hk]; [vm_compute; tauto|]).
    destruct Hk.
Qed.

Section UploadFacts.
Context `{Host}.

Lemma conflicts_codes (k : jsstring) :
  Upload.conflicts k = true ↔ In (toLowerCase k) Upload.codes.
Proof.
  unfold Upload.conflicts, Upload.codes. rewrite existsb_exists, in_map_iff.
  split.
  - intros (d & Hd & E). apply streq_eq in E. eauto.
  - intros (d & E & Hd). exists d. split; [exact Hd|]. apply streq_eq, E.
Qed.

Lemma includesKeyword_false (s : jsstring) : Upload.includesKeyword s = false.
Proof. reflexivity. Qed.

(** The value under a key while the keywords of the entries are added. *)
Lemma get_addKeywordsInline (entry : Upload.isoEntry) (o : KeywordIndex)
    (k : jsstring) :
  k ≠ lit "__proto__" →
  Obj.get (Upload.addKeywordsInline o entry) k
  = fold_left (λ b' keyword,
                 if streq keyword k then Some (Upload.iso_id entry) else b')
              (Upload.iso_keywords entry) (Obj.get o k).
Proof.
  intros Hk. unfold Upload.addKeywordsInline.
  revert o. induction (Upload.iso_keywords entry) as [|kw kws IH]; intros o;
    [reflexivity|].
  cbn [fold_left]. rewrite includesKeyword_false, IH, get_set.
  destruct (streq kw (lit "__proto__")) eqn:P; [|reflexivity].
  apply streq_eq in P. subst kw.
  destruct (streq (lit "__proto__") k) eqn:E; [|reflexivity].
  apply streq_eq in E. congruence.
Qed.

Lemma get_addKeywords (entry : Upload.isoEntry) (o : KeywordIndex)
    (k : jsstring) :
  k ≠ lit "__proto__" →
  Obj.get (Upload.addKeywords o entry) k
  = if Upload.conflicts k then Obj.get o k
    else fold_left (λ b' keyword,
                      if streq keyword k then Some (Upload.iso_id entry)
                      else b')
                   (Upload.iso_keywords entry) (Obj.get o k).
Proof.
  intros Hk. unfold Upload.addKeywords.
  revert o. induction (Upload.iso_keywords entry) as [|kw kws IH]; intros o.
  - simpl. destruct (Upload.conflicts k); reflexivity.
  - cbn [fold_left]. destruct (Upload.conflicts kw) eqn:Ckw.
    + rewrite IH. destruct (Upload.conflicts k) eqn:Ck; [reflexivity|].
      destruct (streq kw k) eqn:E; [|reflexivity].
      apply streq_eq in E. congruence.
    + rewrite IH, get_set.
      destruct (Upload.conflicts k) eqn:Ck.
      * destruct (streq kw (lit "__proto__")); [reflexivity|].
        destruct (streq kw k) eqn:E; [|reflexivity].
        apply streq_eq in E. congruence.
      * destruct (streq kw (lit "__proto__")) eqn:P; [|reflexivity].
        apply streq_eq in P. subst kw.
        destruct (streq (lit "__proto__") k) eqn:E; [|reflexivity].
        apply streq_eq in E. congruence.
Qed.

Lemma get_generated (isoKnowledge : list Upload.isoEntry) (k : jsstring) :
  k ≠ lit "__proto__" →
  Obj.get (Upload.generateJsonFilesInline isoKnowledge) k
  = valueAfter k isoKnowledge (Obj.get (Upload.addDepartments []) k)
  ∧ Obj.get (Upload.generateJsonFiles isoKnowledge) k
    = if Upload.conflicts k then Obj.get (Upload.addDepartments []) k
      else valueAfter k isoKnowledge (Obj.get (Upload.addDepartments []) k).
Proof.
  intros Hk.
  unfold Upload.generateJsonFilesInline, Upload.generateJsonFiles, valueAfter.
  generalize (Upload.addDepartments []). intros o. split.
  - revert o. induction isoKnowledge as [|e es IH]; intros o; [reflexivity|].
    cbn [fold_left]. rewrite IH, get_addKeywordsInline by exact Hk.
    reflexivity.
  - revert o. induction isoKnowledge as [|e es IH]; intros o.
    + simpl. destruct (Upload.conflicts k); reflexivity.
    + cbn [fold_left]. rewrite IH, get_addKeywords by exact Hk.
      destruct (Upload.conflicts k); reflexivity.
Qed.

(** X13: in the index built by either tool the value under a key is that
    of the last assignment to it, the department markers being assigned
    first and each keyword being assigned the id of its entry; the tool
    that reads the entries from files leaves out the keywords whose
    lowercase form is a department code, the tool with the entries in
    its text leaves out none. *)
Theorem X13_last_assignment_wins (isoKnowledge : list Upload.isoEntry)
    (k : jsstring) :
  k ≠ lit "__proto__" →
  Obj.get (Upload.generateJsonFilesInline isoKnowledge) k
  = valueAfter k isoKnowledge (Obj.get (Upload.addDepartments []) k)
  ∧ Obj.get (Upload.generateJsonFiles isoKnowledge) k
    = if Upload.conflicts k then Obj.get (Upload.addDepartments []) k
      else valueAfter k isoKnowledge (Obj.get (Upload.addDepartments []) k).
Proof. apply get_generated. Qed.

(** X14: the tool that reads the entries from files keeps the department
    markers, whatever the entries: under every department code the index
    holds the marker of the department, which is what the tool's closing
    check looks for. *)
Theorem X14_markers_kept (isoKnowledge : list Upload.isoEntry)
    (c : jsstring) :
  codesLowercase →
  In c Upload.codes →
  Obj.get (Upload.generateJsonFiles isoKnowledge) c = Some (Upload.marker c).
Proof.
  intros Hlow Hc.
  assert (c ≠ lit "__proto__") as Hk.
  { intros ->. vm_compute in Hc.
    repeat (destruct Hc as [Hc | Hc]; [discriminate Hc|]). exact Hc. }
  rewrite (proj2 (get_generated isoKnowledge c Hk)).
  rewrite (proj2 (conflicts_codes c)) by (rewrite Hlow; assumption).
  apply departments_get. exact Hc.
Qed.

Lemma valueAfter_keywords (k id : jsstring) (kws : list jsstring)
    (b : option jsstring) :
  fold_left (λ b' keyword, if streq keyword k then Some id else b') kws b
  = if existsb (λ keyword, streq keyword k) kws then Some id else b.
Proof.
  revert b. induction kws as [|kw kws IH]; intros b; [reflexivity|].
  cbn [fold_left existsb]. rewrite IH.
  destruct (streq kw k); simpl; [|reflexivity].
  destruct (existsb _ kws); reflexivity.
Qed.

Lemma valueAfter_listed (k : jsstring) (isoKnowledge : list Upload.isoEntry)
    (b : option jsstring) (e : Upload.isoEntry) :
  In e isoKnowledge → In k (Upload.iso_keywords e) →
  ∃ e', In e' isoKnowledge ∧ In k (Upload.iso_keywords e')
        ∧ valueAfter k isoKnowledge b = Some (Upload.iso_id e').
Proof.
  unfold valueAfter. revert b.
  induction isoKnowledge as [|e0 es IH] using rev_ind; intros b; [intros []|].
  rewrite fold_left_app. cbn [fold_left]. rewrite valueAfter_keywords.
  intros Hin Hk.
  destruct (existsb (λ keyword, streq keyword k) (Upload.iso_keywords e0))
    eqn:X.
  - apply existsb_exists in X as (kw & Hkw & E). apply streq_eq in E. subst kw.
    exists e0. split; [apply in_or_app; right; left; reflexivity|]. auto.
  - apply in_app_or in Hin as [Hin | [<- | []]].
    + destruct (IH b Hin Hk) as (e' & ? & ? & ?).
      exists e'. split; [apply in_or_app; left; assumption|]. auto.
    + exfalso.
      assert (existsb (λ keyword, streq keyword k) (Upload.iso_keywords e0)
              = true) as Y; [|congruence].
      apply existsb_exists. exists k. split; [exact Hk|].
      apply streq_eq. reflexivity.
Qed.

Lemma inline_code_listed (isoKnowledge : list Upload.isoEntry)
    (e : Upload.isoEntry) (c : jsstring) :
  In c Upload.codes →
  In e isoKnowledge → In c (Upload.iso_keywords e) →
  ∃ e', In e' isoKnowledge ∧ In c (Upload.iso_keywords e')
        ∧ Obj.get (Upload.generateJsonFilesInline isoKnowledge) c
          = Some (Upload.iso_id e').
Proof.
  intros Hc Hin Hk.
  assert (c ≠ lit "__proto__") as Hp.
  { intros ->. vm_compute in Hc.
    repeat (destruct Hc as [Hc | Hc]; [discriminate Hc|]). exact Hc. }
  rewrite (proj1 (get_generated isoKnowledge c Hp)).
  apply (valueAfter_listed c isoKnowledge _ e Hin Hk).
Qed.

(** X15: the tool with the entries in its text does not keep the
    department markers: when an entry lists a department code among its
    keywords, the index holds under that code the id of an entry that
    lists it, in place of the marker. *)
Theorem X15_marker_overwritten (isoKnowledge : list Upload.isoEntry)
    (e : Upload.isoEntry) (c : jsstring) :
  In c Upload.codes →
  In e isoKnowledge → In c (Upload.iso_keywords e) →
  ∃ e', In e' isoKnowledge ∧ In c (Upload.iso_keywords e')
        ∧ Obj.get (Upload.generateJsonFilesInline isoKnowledge) c
          = Some (Upload.iso_id e').
Proof. apply inline_code_listed. Qed.

(** The entries of the index built from files: the department markers
    under their codes, and ids under keywords that do not conflict. *)
Lemma generated_entries (isoKnowledge : list Upload.isoEntry)
    (kv : jsstring * jsstring) :
  In kv (Upload.generateJsonFiles isoKnowledge) →
  (In kv.1 Upload.codes ∧ kv.2 = Upload.marker kv.1)
  ∨ Upload.conflicts kv.1 = false.
Proof.
  unfold Upload.generateJsonFiles.
  assert (∀ kv, In kv (Upload.addDepartments []) →
            (In kv.1 Upload.codes ∧ kv.2 = Upload.marker kv.1)
            ∨ Upload.conflicts kv.1 = false) as Hinit.
  { intros kv' Hin. left. apply departments_In. exact Hin. }
  revert Hinit. generalize (Upload.addDepartments []). intros o Ho.
  revert o Ho kv.
  induction isoKnowledge as [|e es IH]; intros o Ho kv; [apply Ho|].
  cbn [fold_left]. apply IH. clear IH kv.
  unfold Upload.addKeywords. revert o Ho.
  induction (Upload.iso_keywords e) as [|kw kws IHk]; intros o Ho;
    [exact Ho|].
  cbn [fold_left]. apply IHk.
  destruct (Upload.conflicts kw) eqn:C; [exact Ho|].
  intros kv Hin. apply set_In_inv in Hin as [[-> _] | Hin]; [|auto].
  right. exact C.
Qed.

Lemma generated_markers (isoKnowledge : list Upload.isoEntry) (c : jsstring) :
  codesLowercase → In c Upload.codes →
  In (c, Upload.marker c) (Upload.generateJsonFiles isoKnowledge).
Proof.
  intros Hlow Hc. unfold Upload.generateJsonFiles.
  assert (In (c, Upload.marker c) (Upload.addDepartments [])) as Hinit
    by (apply departments_In; auto).
  revert Hinit. generalize (Upload.addDepartments []). intros o.
  revert o. induction isoKnowledge as [|e es IH]; intros o Ho; [exact Ho|].
  cbn [fold_left]. apply IH.
  unfold Upload.addKeywords. revert o Ho.
  induction (Upload.iso_keywords e) as [|kw kws IHk]; intros o Ho;
    [exact Ho|].
  cbn [fold_left]. apply IHk.
  destruct (Upload.conflicts kw) eqn:C; [exact Ho|].
  apply set_In_other; [exact Ho|]. simpl. intros <-.
  assert (Upload.conflicts c = true); [|congruence].
  apply conflicts_codes. rewrite Hlow; assumption.
Qed.

(** X16: on an index built from files, a query that, normalized, is a
    department code resolves to the marker of that department, whatever
    the entries and their keywords. *)
Theorem X16_generated_index_resolves_departments
    (isoKnowledge : list Upload.isoEntry) (q c : jsstring) :
  codesLowercase →
  In c Upload.codes →
  normalize q = c →
  Knowledge.findMatchingEntryId q (wire (Upload.generateJsonFiles isoKnowledge))
  = Normal (Some (Upload.marker c)).
Proof.
  intros Hlow Hc Hq. rewrite findMatchingEntryId_wire, Hq.
  pose proof (generated_markers isoKnowledge c Hlow Hc) as Hin.
  destruct (List.find (exactDepartment c) _) as [[k v]|] eqn:F.
  - apply find_some in F as [Hkv Hx].
    apply exactDepartment_true in Hx as [Hk _].
    destruct (generated_entries _ _ Hkv) as [[Hcode Hv] | Hconf]; simpl in *.
    + rewrite (Hlow k Hcode) in Hk. subst. reflexivity.
    + exfalso.
      assert (Upload.conflicts k = true); [|congruence].
      apply conflicts_codes. rewrite Hk. exact Hc.
  - exfalso. pose proof (find_none _ _ F _ Hin) as Hno.
    assert (exactDepartment c (c, Upload.marker c) = true); [|congruence].
    apply exactDepartment_true. split; [apply Hlow, Hc|].
    exists c. reflexivity.
Qed.

(** While the tool with the entries in its text adds keywords, every
    value is a marker under its code or the id of an entry, and once a
    key has been assigned an id it holds an id. *)
Lemma inline_values (Id : jsstring → Prop)
    (isoKnowledge : list Upload.isoEntry) (o : KeywordIndex) :
  (∀ e, In e isoKnowledge → Id (Upload.iso_id e)) →
  (∀ kv, In kv o →
     Id kv.2 ∨ (In kv.1 Upload.codes ∧ kv.2 = Upload.marker kv.1)) →
  ∀ kv, In kv (fold_left Upload.addKeywordsInline isoKnowledge o) →
    Id kv.2 ∨ (In kv.1 Upload.codes ∧ kv.2 = Upload.marker kv.1).
Proof.
  revert o. induction isoKnowledge as [|e es IH]; intros o Hid Ho; [exact Ho|].
  cbn [fold_left]. apply IH; [intros e' He'; apply Hid; right; exact He'|].
  assert (Id (Upload.iso_id e)) as He by (apply Hid; left; reflexivity).
  clear IH Hid. unfold Upload.addKeywordsInline. revert o Ho.
  induction (Upload.iso_keywords e) as [|kw kws IHk]; intros o Ho;
    [exact Ho|].
  cbn [fold_left]. apply IHk. rewrite includesKeyword_false.
  intros kv Hin. apply set_In_inv in Hin as [[-> _] | Hin]; auto.
Qed.

Lemma inline_key_keywords (Id : jsstring → Prop) (k id : jsstring)
    (kws : list jsstring) (o : KeywordIndex) :
  k ≠ lit "__proto__" → Id id →
  (∀ v, In (k, v) o → Id v) ∨ In k kws →
  ∀ v, In (k, v)
         (fold_left (λ o keyword,
                       if Upload.includesKeyword (toLowerCase keyword) then o
                       else Obj.set o keyword id) kws o) → Id v.
Proof.
  intros Hk Hid. revert o.
  induction kws as [|kw kws IHk]; intros o Ho.
  - destruct Ho as [Ho | []]. exact Ho.
  - cbn [fold_left]. rewrite includesKeyword_false. apply IHk.
    destruct (streq kw k) eqn:E.
    + apply streq_eq in E. subst kw. left. intros v Hin.
      apply set_In in Hin; [|exact Hk].
      destruct Hin as [[= ->] | [_ Hne]]; [exact Hid | simpl in Hne; congruence].
    + destruct Ho as [Ho | [-> | Hin]].
      * left. intros v Hin.
        apply set_In_inv in Hin as [[[= _ ->] _] | Hin]; auto.
      * rewrite (proj2 (streq_eq k k) eq_refl) in E. discriminate.
      * right. exact Hin.
Qed.

Lemma inline_key_entries (Id : jsstring → Prop) (k : jsstring)
    (isoKnowledge : list Upload.isoEntry) (o : KeywordIndex) :
  k ≠ lit "__proto__" →
  (∀ e, In e isoKnowledge → Id (Upload.iso_id e)) →
  (∀ v, In (k, v) o → Id v)
  ∨ (∃ e, In e isoKnowledge ∧ In k (Upload.iso_keywords e)) →
  ∀ v, In (k, v) (fold_left Upload.addKeywordsInline isoKnowledge o) → Id v.
Proof.
  intros Hk. revert o.
  induction isoKnowledge as [|e es IH]; intros o Hid Ho.
  - destruct Ho as [Ho | (e & [] & _)]. exact Ho.
  - cbn [fold_left]. apply IH; [intros e' He'; apply Hid; right; exact He'|].
    assert (Id (Upload.iso_id e)) as He by (apply Hid; left; reflexivity).
    destruct Ho as [Ho | (e' & [<- | He'] & Hlist)].
    + left. apply (inline_key_keywords Id k _ _ o Hk He). left. exact Ho.
    + left. apply (inline_key_keywords Id k _ _ o Hk He). right. exact Hlist.
    + right. eauto.
Qed.

(** X17: on an index built by the tool with the entries in its text, the
    listing of a department whose code an entry lists as a keyword cannot
    be reached: the query that is this code resolves to a target that is
    no department marker (no id being a marker). *)
Theorem X17_inline_index_hides_department
    (isoKnowledge : list Upload.isoEntry) (e : Upload.isoEntry)
    (q c : jsstring) :
  codesLowercase →
  (∀ e', In e' isoKnowledge →
     startsWith (Upload.iso_id e') Knowledge.Department = false) →
  In c Upload.codes →
  In e isoKnowledge → In c (Upload.iso_keywords e) →
  normalize q = c →
  ∃ v, Knowledge.findMatchingEntryId q
         (wire (Upload.generateJsonFilesInline isoKnowledge))
       = Normal (Some v)
       ∧ startsWith v Knowledge.Department = false.
Proof.
  intros Hlow Hids Hc He Hk Hq.
  assert (c ≠ lit "__proto__") as Hp.
  { intros ->. vm_compute in Hc.
    repeat (destruct Hc as [Hc | Hc]; [discriminate Hc|]). exact Hc. }
  set (Id := λ v, startsWith v Knowledge.Department = false).
  set (I := Upload.generateJsonFilesInline isoKnowledge).
  assert (∀ kv, In kv I →
            Id kv.2 ∨ (In kv.1 Upload.codes ∧ kv.2 = Upload.marker kv.1))
    as Hvalues.
  { apply (inline_values Id); [exact Hids|].
    intros kv Hin. right. apply departments_In. exact Hin. }
  assert (∀ v, In (c, v) I → Id v) as Hcode.
  { apply (inline_key_entries Id c); [exact Hp | exact Hids | eauto]. }
  rewrite findMatchingEntryId_wire, Hq. fold I.
  destruct (List.find (exactDepartment c) I) as [[k v]|] eqn:F.
  - exfalso. apply find_some in F as [Hkv Hx].
    apply exactDepartment_true in Hx as [Hkc [c' ->]].
    destruct (Hvalues _ Hkv) as [Hid | [Hcode' _]]; simpl in *.
    + unfold Id in Hid. rewrite startsWith_app in Hid. discriminate.
    + rewrite (Hlow k Hcode') in Hkc. subst k.
      pose proof (Hcode _ Hkv) as Hid. unfold Id in Hid.
      rewrite startsWith_app in Hid. discriminate.
  - destruct (inline_code_listed isoKnowledge e c Hc He Hk)
      as (e' & He' & _ & G).
    unfold Obj.get in G. fold I in G.
    destruct (List.find (λ kv, streq kv.1 c) I) as [[k v]|] eqn:Fc;
      [|discriminate].
    apply find_some in Fc as [Hkv Hs]. simpl in Hs. apply streq_eq in Hs.
    subst k. pose proof (Hcode _ Hkv) as Hid.
    unfold substringScan.
    destruct (List.find _ (List.filter _ I)) as [[k2 v2]|] eqn:F2.
    + apply find_some in F2 as [Hin2 _].
      apply filter_In in Hin2 as [_ Hnd]. simpl in Hnd.
      apply negb_true_iff in Hnd. exists v2. auto.
    + exfalso.
      assert (In (c, v) (List.filter
                (λ kv, negb (startsWith kv.2 Knowledge.Department)) I)) as Hf.
      { apply filter_In. split; [exact Hkv|]. simpl.
        unfold Id in Hid. rewrite Hid. reflexivity. }
      pose proof (find_none _ _ F2 _ Hf) as Hno. simpl in Hno.
      rewrite (Hlow c Hc), includes_self in Hno. discriminate.
Qed.

End UploadFacts.



Lemma ascii_codesLowercase : @codesLowercase Scenario.host.
Proof.
  intros c Hc. vm_compute in Hc.
  repeat (destruct Hc as [<- | Hc]; [vm_compute; reflexivity|]).
  destruct Hc.
Qed.

Lemma X13_last_assignment_wins_witness :
  Obj.get (@Upload.generateJsonFilesInline Scenario.host Clash.entries)
          (lit "icu")
  = Some (lit "icu-rules")
  ∧ Obj.get (@Upload.generateJsonFiles Scenario.host Clash.entries) (lit "icu")
    = Some (lit "Department:icu").
Proof.
  destruct (@X13_last_assignment_wins Scenario.host Clash.entries (lit "icu"))
    as [E1 E2].
  - vm_compute. discriminate.
  - rewrite E1, E2. vm_compute. split; reflexivity.
Defined.

Lemma X14_markers_kept_witness :
  Obj.get (@Upload.generateJsonFiles Scenario.host Clash.entries) (lit "ward")
  = Some (lit "Department:ward").
Proof.
  rewrite (@X14_markers_kept Scenario.host Clash.entries (lit "ward")
             ascii_codesLowercase).
  - vm_compute. reflexivity.
  - vm_compute. tauto.
Defined.

Lemma X15_marker_overwritten_witness :
  ∃ e', In e' Clash.entries ∧ In (lit "icu") (Upload.iso_keywords e')
        ∧ Obj.get (@Upload.generateJsonFilesInline Scenario.host Clash.entries)
            (lit "icu")
          = Some (Upload.iso_id e').
Proof.
  apply (@X15_marker_overwritten Scenario.host Clash.entries
           {| Upload.iso_id := lit "icu-rules";
              Upload.iso_keywords := [lit "rules"; lit "icu"] |}).
  - vm_compute. tauto.
  - right. left. reflexivity.
  - right. left. reflexivity.
Defined.

Lemma X16_generated_index_resolves_departments_witness :
  @Knowledge.findMatchingEntryId Scenario.host (lit " ICU ")
    (wire (@Upload.generateJsonFiles Scenario.host Clash.entries))
  = Normal (Some (lit "Department:icu")).
Proof.
  rewrite (@X16_generated_index_resolves_departments Scenario.host
             Clash.entries (lit " ICU ") (lit "icu") ascii_codesLowercase).
  - vm_compute. reflexivity.
  - vm_compute. tauto.
  - vm_compute. reflexivity.
Defined.

Lemma X17_inline_index_hides_department_witness :
  ∃ v, @Knowledge.findMatchingEntryId Scenario.host (lit " ICU ")
         (wire (@Upload.generateJsonFilesInline Scenario.host Clash.entries))
       = Normal (Some v)
       ∧ startsWith v Knowledge.Department = false.
Proof.
  apply (@X17_inline_index_hides_department Scenario.host Clash.entries
           {| Upload.iso_id := lit "icu-rules";
              Upload.iso_keywords := [lit "rules"; lit "icu"] |}
           (lit " ICU ") (lit "icu") ascii_codesLowercase).
  - intros e' [<- | [<- | []]]; vm_compute; reflexivity.
  - vm_compute. tauto.
  - right. left. reflexivity.
  - right. left. reflexivity.
  - vm_compute. reflexivity.
Defined.

(** ** Search and status *)

Section SearchFacts.
Context `{Host}.
Variable kv : option KVNamespace.

Lemma searchStep_inv (lq : jsstring) (acc es : list Knowledge.summary)
    (id : jsstring) :
  KnowledgeMore.searchStep kv lq acc id = Normal es →
  es = acc
  ∨ ∃ record text,
      Knowledge.getKnowledgeById kv id = Normal record
      ∧ truthy record = true
      ∧ getProp record (lit "text") = Some (JStr text)
      ∧ matches lq record text
      ∧ es = acc ++ [summaryOf record text].
Proof.
  unfold KnowledgeMore.searchStep.
  destruct (Knowledge.getKnowledgeById kv id) as [record|] eqn:G;
    [|discriminate]. simpl.
  destruct (truthy record) eqn:T; [|intros [= <-]; auto].
  destruct (getProp record (lit "text")) as [[| | |text| |]|] eqn:P;
    try discriminate. simpl.
  unfold matches.
  destruct (includes (toLowerCase (Knowledge.extractTitle text)) lq) eqn:I1.
  { simpl. intros [= <-]. right. exists record, text. repeat split; auto. }
  destruct (includes (toLowerCase text) lq) eqn:I2.
  { simpl. intros [= <-]. right. exists record, text. repeat split; auto. }
  destruct (KnowledgeMore.keywordsMatch lq (getProp record (lit "keywords")))
    as [[|]|] eqn:K; simpl; try discriminate.
  - intros [= <-]. right. exists record, text. repeat split; auto.
  - intros [= <-]. auto.
Qed.

Lemma searchLoop_sound (lq : jsstring) (ids : list jsstring)
    (acc es : list Knowledge.summary) :
  KnowledgeMore.searchLoop kv lq acc ids = Normal es →
  ∀ e, In e es →
    In e acc
    ∨ ∃ id record text,
        In id ids
        ∧ Knowledge.getKnowledgeById kv id = Normal record
        ∧ truthy record = true
        ∧ getProp record (lit "text") = Some (JStr text)
        ∧ matches lq record text
        ∧ e = summaryOf record text.
Proof.
  revert acc. induction ids as [|id ids IH]; intros acc; simpl.
  - intros [= <-] e He. auto.
  - destruct (KnowledgeMore.searchStep kv lq acc id) as [acc'|] eqn:S;
      [|discriminate]. simpl.
    intros E e He. destruct (IH _ E e He) as [Hacc | (id' & r & t & ? & Hrest)].
    + destruct (searchStep_inv _ _ _ _ S)
        as [-> | (record & text & ? & ? & ? & ? & ->)]; [auto|].
      apply in_app_or in Hacc as [? | [<- | []]]; [auto|].
      right. exists id, record, text. repeat split; auto.
    + right. exists id', r, t. split; [right; assumption | exact Hrest].
Qed.


Lemma someKeyword_strings (lq : jsstring) (keywords : list jsstring) :
  KnowledgeMore.someKeyword lq (map JStr keywords)
  = Normal (existsb (λ k, includes (toLowerCase k) lq) keywords).
Proof.
  induction keywords as [|k ks IH]; simpl; [reflexivity|].
  destruct (includes (toLowerCase k) lq); [reflexivity | exact IH].
Qed.

Lemma searchStep_readable (lq : jsstring) (acc : list Knowledge.summary)
    (id : jsstring) (record : jsval) :
  Knowledge.getKnowledgeById kv id = Normal record →
  readable record →
  ∃ es, KnowledgeMore.searchStep kv lq acc id = Normal es
        ∧ (∀ e, In e acc → In e es)
        ∧ ∀ text, truthy record = true →
            getProp record (lit "text") = Some (JStr text) →
            includes (toLowerCase text) lq = true →
            In (summaryOf record text) es.
Proof.
  intros G R. unfold KnowledgeMore.searchStep. rewrite G. simpl.
  destruct R as [F | (text & kws & Pt & Pk)].
  - rewrite F. exists acc. split; [reflexivity|]. split; [auto|].
    intros text T. congruence.
  - destruct (truthy record); [|exists acc; split; [reflexivity|];
      split; [auto | intros ? ?; discriminate]].
    rewrite Pt, Pk. simpl. rewrite someKeyword_strings.
    destruct (includes (toLowerCase (Knowledge.extractTitle text)) lq);
      [|destruct (includes (toLowerCase text) lq) eqn:I2;
        [|destruct (existsb _ kws)]]; simpl; eexists;
      (split; [reflexivity|]); (split; [intros e He; try apply in_or_app; auto|]);
      intros text' _ [= <-] I; try congruence;
      apply in_or_app; right; left; reflexivity.
Qed.

Lemma searchLoop_complete (lq : jsstring) (ids : list jsstring)
    (acc : list Knowledge.summary) :
  (∀ id, In id ids →
     ∃ record, Knowledge.getKnowledgeById kv id = Normal record
               ∧ readable record) →
  ∃ es, KnowledgeMore.searchLoop kv lq acc ids = Normal es
        ∧ (∀ e, In e acc → In e es)
        ∧ ∀ id record text,
            In id ids →
            Knowledge.getKnowledgeById kv id = Normal record →
            truthy record = true →
            getProp record (lit "text") = Some (JStr text) →
            includes (toLowerCase text) lq = true →
            In (summaryOf record text) es.
Proof.
  revert acc. induction ids as [|id ids IH]; intros acc Hall.
  - exists acc. split; [reflexivity|]. split; [auto|]. intros ? ? ? [].
  - destruct (Hall id (or_introl eq_refl)) as (record & G & R).
    destruct (searchStep_readable lq acc id record G R) as (acc' & S & Hkeep & Hnew).
    destruct (IH acc' (λ i Hi, Hall i (or_intror Hi))) as (es & L & Hkeep' & Hrest).
    exists es. simpl. rewrite S. simpl. split; [exact L|].
    split; [auto|].
    intros id' record' text [<- | Hin] G' T P I.
    + rewrite G in G'. injection G' as <-. apply Hkeep'. apply Hnew; auto.
    + eapply Hrest; eauto.
Qed.

(** X19: when every listed record is readable ([null], or with a string
    as text and an array of strings as keywords), the search finds every
    listed record whose lowercased text contains the lowercased query. *)
Theorem X19_search_complete (query : jsstring) (ids : list jsstring) :
  query ≠ [] →
  Knowledge.getAllKnowledgeIds kv = Normal ids →
  (∀ id, In id ids →
     ∃ record, Knowledge.getKnowledgeById kv id = Normal record
               ∧ readable record) →
  ∃ es, KnowledgeMore.searchKnowledge kv query = Normal es
        ∧ ∀ id record text,
            In id ids →
            Knowledge.getKnowledgeById kv id = Normal record →
            truthy record = true →
            getProp record (lit "text") = Some (JStr text) →
            includes (toLowerCase text) (toLowerCase query) = true →
            In (summaryOf record text) es.
Proof.
  intros Hq Eids Hall. unfold KnowledgeMore.searchKnowledge.
  destruct (streq query []) eqn:S; [apply streq_eq in S; congruence|].
  rewrite Eids. cbn [mbind completion_bind].
  destruct (searchLoop_complete (toLowerCase query) ids [] Hall)
    as (es & L & _ & Hfound).
  rewrite L. exists es. split; [reflexivity | exact Hfound].
Qed.

End SearchFacts.

Lemma X19_search_complete_witness :
  ∃ es, @KnowledgeMore.searchKnowledge Scenario.host Scenario.kv
          (lit "Circuit") = Normal es
        ∧ In (summaryOf Scenario.doc
                (lit "# CVVH setup" ++ [LF; LF] ++ lit "Prime the circuit."))
             es.
Proof.
  destruct (@X19_search_complete Scenario.host Scenario.kv (lit "Circuit")
              [lit "icu-cvvh-setup"]) as (es & E & Hfound).
  - vm_compute. discriminate.
  - vm_compute. reflexivity.
  - intros id [<- | []]. exists Scenario.doc. split; [vm_compute; reflexivity|].
    right. exists (lit "# CVVH setup" ++ [LF; LF] ++ lit "Prime the circuit."),
             [lit "cvvh"].
    split; vm_compute; reflexivity.
  - exists es. split; [exact E|].
    apply (Hfound (lit "icu-cvvh-setup") Scenario.doc);
      [left; reflexivity | (vm_compute; reflexivity) ..].
Defined.

Section ObjLength.
Context {V : Type}.

Lemma length_insertIndex (n : N) (k : jsstring) (v : V)
    (o : list (jsstring * V)) :
  length (Obj.insertIndex n k v o) = S (length o).
Proof.
  induction o as [|[k' v'] o IH]; simpl; [reflexivity|].
  destruct (Obj.arrayIndex k') as [n'|]; [|reflexivity].
  destruct (n <? n')%N; simpl; auto.
Qed.

Lemma length_set (o : list (jsstring * V)) (k : jsstring) (v : V) :
  (length (Obj.set o k v) ≤ S (length o))%nat.
Proof.
  unfold Obj.set. destruct (streq k (lit "__proto__")); [lia|].
  destruct (Obj.has o k); [rewrite length_map; lia|].
  destruct (Obj.arrayIndex k).
  - rewrite length_insertIndex. lia.
  - rewrite length_app. simpl. lia.
Qed.

End ObjLength.

Lemma sample_bound (count : nat) (acc entries : list (jsstring * jsval)) :
  (length (KnowledgeMore.sample count acc entries)
   ≤ length acc + (10 - count))%nat
  ∧ ∀ kv, In kv (KnowledgeMore.sample count acc entries) →
      In kv acc ∨ In kv (take (10 - count) entries).
Proof.
  revert count acc. induction entries as [|[k v] entries IH];
    intros count acc; simpl.
  - split; [lia|]. auto.
  - destruct (Nat.ltb_spec count 10) as [Hlt|Hge].
    + destruct (IH (S count) (Obj.set acc k v)) as [Hlen Hin].
      pose proof (length_set acc k v). split; [lia|].
      intros kv Hkv. destruct (Hin kv Hkv) as [Hset | Htake].
      * apply set_In_inv in Hset as [[-> _] | Hacc]; [|auto].
        right. replace (10 - count)%nat with (S (10 - S count)) by lia.
        left. reflexivity.
      * right. replace (10 - count)%nat with (S (10 - S count)) by lia.
        right. exact Htake.
    + destruct (IH count acc) as [Hlen Hin]. split; [lia|].
      intros kv Hkv. destruct (Hin kv Hkv) as [? | Htake]; [auto|].
      replace (10 - count)%nat with 0%nat in * by lia.
      rewrite take_0 in Htake. destruct Htake.
Qed.


(** ** The listing of a department as messages *)

Section ListingFacts.
Variable toUpperCase : jsstring → jsstring.
Variable inherited : jsstring → option jsstring.

Lemma groupsFrom_spec {A} (entries : list A) : ∀ fuel i,
  (length entries - i ≤ fuel)%nat →
  concat (TextHandler.groupsFrom fuel i entries) = drop i entries
  ∧ Forall (λ g, (1 ≤ length g ≤ 4)%nat) (TextHandler.groupsFrom fuel i entries)
  ∧ (length entries - i
       ≤ 4 * length (TextHandler.groupsFrom fuel i entries)
       < length entries - i + 4)%nat.
Proof.
  induction fuel as [|fuel IH]; intros i Hf.
  - simpl. assert (length entries ≤ i)%nat as Hi by lia.
    rewrite drop_ge by exact Hi. repeat split; try constructor; lia.
  - simpl. destruct (Nat.ltb_spec i (length entries)) as [Hi|Hi].
    + destruct (IH (i + 4)%nat ltac:(lia)) as (IH1 & IH2 & IH3).
      unfold TextHandler.slice.
      replace (i + 4 - i)%nat with 4%nat by lia.
      repeat split.
      * cbn [concat]. rewrite IH1.
        rewrite <- (take_drop 4 (drop i entries)) at 2.
        rewrite drop_drop. reflexivity.
      * constructor; [|exact IH2].
        rewrite length_take, length_drop. lia.
      * cbn [length]. lia.
      * cbn [length]. lia.
    + rewrite drop_ge by exact Hi. repeat split; try constructor; simpl; lia.
Qed.

Lemma entriesGroups_spec {A} (entries : list A) :
  concat (TextHandler.entriesGroups entries) = entries
  ∧ Forall (λ g, (1 ≤ length g ≤ 4)%nat) (TextHandler.entriesGroups entries)
  ∧ (length entries
       ≤ 4 * length (TextHandler.entriesGroups entries)
       < length entries + 4)%nat.
Proof.
  destruct (groupsFrom_spec entries (length entries) 0 ltac:(lia))
    as (G1 & G2 & G3).
  rewrite drop_0 in G1. rewrite Nat.sub_0_r in G3.
  unfold TextHandler.entriesGroups.
  repeat split; try assumption; lia.
Qed.

Lemma listing_messages (response : Knowledge.listing) :
  Knowledge.entries response ≠ [] →
  ∃ text,
    TextHandler.generateDepartmentListMessages toUpperCase inherited response
      = Message.createTextMessage text
        :: imap (TextHandler.groupMessage
                   (TextHandler.departmentNameOf toUpperCase inherited
                      (Knowledge.department response)))
                (TextHandler.entriesGroups (Knowledge.entries response)).
Proof.
  intros Hne. unfold TextHandler.generateDepartmentListMessages.
  destruct (Knowledge.entries response) as [|e es] eqn:E; [congruence|].
  cbn [length Nat.eqb]. eexists. reflexivity.
Qed.

Lemma buttonLabel_length (title : jsstring) :
  (length (TextHandler.buttonLabel title) ≤ 20)%nat.
Proof.
  unfold TextHandler.buttonLabel.
  destruct (Nat.ltb_spec 20 (length title)) as [Hl|Hl]; [|lia].
  rewrite length_app. unfold substring0. rewrite length_take.
  change (length (lit "...")) with 3%nat. lia.
Qed.

(** X21: a listing with no entry gives two messages; a listing of [n > 0]
    entries gives the heading and then [n / 4] rounded up messages of
    actions.  So a listing gives at most five messages exactly when it has
    at most sixteen entries. *)
Theorem X21_listing_message_count (response : Knowledge.listing) :
  let n := length (Knowledge.entries response) in
  let messages :=
    TextHandler.generateDepartmentListMessages toUpperCase inherited response in
  length messages = (if (n =? 0)%nat then 2 else 1 + (n + 3) / 4)%nat
  ∧ ((length messages ≤ 5)%nat ↔ (n ≤ 16)%nat).
Proof.
  intros n messages. subst n messages.
  destruct (Knowledge.entries response) as [|e es] eqn:E.
  - unfold TextHandler.generateDepartmentListMessages. rewrite E.
    cbn. split; [reflexivity|lia].
  - destruct (listing_messages response) as (t & ->); [congruence|].
    rewrite E.
    destruct (entriesGroups_spec (e :: es)) as (_ & _ & G).
    cbn [length Nat.eqb] in *. rewrite length_imap.
    set (g := length (TextHandler.entriesGroups (e :: es))) in *.
    assert (g = (S (length es) + 3) / 4)%nat as Hg.
    { apply (Nat.div_unique _ 4 g (S (length es) + 3 - 4 * g)); lia. }
    split; [lia|].
    split; lia.
Qed.

(** X22: every message of a listing carries at most four actions, a
    template message at least one; every label has at most twenty code
    units, and the text an action sends is the whole title of an entry of
    the listing. *)
Theorem X22_listing_actions_bounded (response : Knowledge.listing) :
  Forall (λ m,
      (length (actionsOf m) ≤ 4)%nat
      ∧ (match m with
         | Message.Text _ _ => True
         | Message.Template _ _ _ _ _ _ actions => (1 ≤ length actions)%nat
         end)
      ∧ Forall (λ a,
          (length (Message.label a) ≤ 20)%nat
          ∧ ∃ entry, In entry (Knowledge.entries response)
                     ∧ Message.action_text a = Knowledge.title entry
                     ∧ Message.label a
                       = TextHandler.buttonLabel (Knowledge.title entry))
          (actionsOf m))
    (TextHandler.generateDepartmentListMessages toUpperCase inherited response).
Proof.
  destruct (Knowledge.entries response) as [|e es] eqn:E.
  - unfold TextHandler.generateDepartmentListMessages. rewrite E.
    cbn [length Nat.eqb].
    repeat constructor; simpl; lia.
  - destruct (listing_messages response) as (t & ->); [congruence|].
    rewrite E.
    destruct (entriesGroups_spec (e :: es)) as (G1 & G2 & _).
    constructor.
    + simpl. repeat split; auto; lia.
    + apply Forall_forall. intros m Hm.
      apply elem_of_lookup_imap in Hm as (i & g & -> & Hg).
      assert (g ∈ TextHandler.entriesGroups (e :: es)) as Hin
        by (eapply list_elem_of_lookup_2; exact Hg).
      rewrite Forall_forall in G2.
      pose proof (G2 g Hin) as Hlen.
      unfold TextHandler.groupMessage, Message.createButtonMessage.
      cbn [actionsOf]. rewrite length_map.
      repeat split; try lia.
      apply Forall_forall. intros a Ha.
      apply list_elem_of_In, in_map_iff in Ha as (entry & <- & Hentry).
      cbn [Message.label Message.action_text Message.createMessageAction].
      split; [apply buttonLabel_length|].
      exists entry. repeat split.
      rewrite <- G1. apply in_concat. exists g. split; [|exact Hentry].
      apply list_elem_of_In. exact Hin.
Qed.

(** X23: read in order, the texts that the actions of a listing send are
    the titles of its entries, each once and in the order of the listing. *)
Theorem X23_listing_keeps_every_entry (response : Knowledge.listing) :
  map Message.action_text
      (concat (map actionsOf
         (TextHandler.generateDepartmentListMessages
            toUpperCase inherited response)))
  = map Knowledge.title (Knowledge.entries response).
Proof.
  destruct (Knowledge.entries response) as [|e es] eqn:E.
  - unfold TextHandler.generateDepartmentListMessages. rewrite E. reflexivity.
  - destruct (listing_messages response) as (t & ->); [congruence|].
    rewrite E.
    destruct (entriesGroups_spec (e :: es)) as (G1 & _ & _).
    rewrite <- G1 at 2.
    generalize (TextHandler.entriesGroups (e :: es)).
    generalize (TextHandler.departmentNameOf toUpperCase inherited
                  (Knowledge.department response)).
    intros name groups.
    cbn [map concat Message.createTextMessage actionsOf app].
    assert (∀ k, map Message.action_text
              (concat (map actionsOf
                 (imap (λ i, TextHandler.groupMessage name (k + i)) groups)))
            = map Knowledge.title (concat groups)) as Hgen.
    { induction groups as [|g gs IH]; intros k; [reflexivity|].
      cbn [imap map concat]. rewrite !map_app. f_equal.
      - unfold TextHandler.groupMessage, Message.createButtonMessage.
        cbn [actionsOf]. rewrite map_map. reflexivity.
      - rewrite <- (IH (S k)). do 3 f_equal.
        apply imap_ext. intros i x _. simpl. f_equal. lia. }
    apply (Hgen 0%nat).
Qed.

End ListingFacts.

(** ** The configuration across requests *)

Section ConfigFacts.

Lemma served_cons (e : Config.env) (envs : list Config.env) (s : Config.store) :
  Index.served (e :: envs) s = Index.served envs (Config.setEnv e s).
Proof. reflexivity. Qed.

Lemma served_snoc (e : Config.env) (envs : list Config.env) (s : Config.store) :
  Index.served (envs ++ [e]) s = Config.setEnv e (Index.served envs s).
Proof. unfold Index.served. rewrite fold_left_app. reflexivity. Qed.

Lemma served_exported (envs : list Config.env) : ∀ s,
  Config.exported_environment (Index.served envs s)
  = Config.exported_environment s.
Proof.
  induction envs as [|e envs IH]; intros s; [reflexivity|].
  rewrite served_cons, IH. reflexivity.
Qed.

Lemma orElse_nonempty (x : Config.variable) :
  Config.orElse x [] ≠ [] ↔ ∃ s, x = Some s ∧ s ≠ [].
Proof.
  unfold Config.orElse. destruct x as [s|].
  - destruct (streq s []) eqn:E.
    + apply streq_eq in E. subst s. split; [congruence|].
      intros (s & [= <-] & Hs). congruence.
    + split; [intros _; exists s; split; [reflexivity|]|intros _].
      * intros ->. simpl in E. discriminate.
      * intros ->. simpl in E. discriminate.
  - split; [congruence|]. intros (s & [=] & _).
Qed.

Lemma streq_nil_false (s : jsstring) : streq s [] = false ↔ s ≠ [].
Proof.
  destruct (streq s []) eqn:E.
  - apply streq_eq in E. split; [discriminate|congruence].
  - split; [|reflexivity]. intros _ ->. simpl in E. discriminate.
Qed.

(** X24: whatever requests have been served, [config.environment] read
    through the exported object is still the value fixed when the module was
    loaded, so [/system-check] answers 403 exactly when the global
    [ENVIRONMENT] was ["production"] at that time; [getEnvironment] follows
    the last request instead. *)
Theorem X24_exported_environment_is_frozen
    (g : Config.globals) (envs : list Config.env) (e : Config.env) :
  let s := Index.served (envs ++ [e]) (Config.load g) in
  Config.environment s
  = Config.definedOr (Config.ENVIRONMENT g) (lit "development")
  ∧ (Index.systemCheckStatus s = 403%nat
     ↔ Config.ENVIRONMENT g = Some (lit "production"))
  ∧ Config.getEnvironment s
    = Config.orElse (Config.env_ENVIRONMENT e) (lit "development").
Proof.
  intros s. subst s.
  assert (Config.environment (Index.served (envs ++ [e]) (Config.load g))
          = Config.definedOr (Config.ENVIRONMENT g) (lit "development")) as E.
  { unfold Config.environment. rewrite served_exported. reflexivity. }
  split; [exact E|]. split.
  - unfold Index.systemCheckStatus, Index.refused. rewrite E.
    destruct (streq _ _) eqn:S.
    + apply streq_eq in S. split; [intros _|reflexivity].
      destruct (Config.ENVIRONMENT g) as [x|]; simpl in S.
      * congruence.
      * exfalso. revert S. vm_compute. discriminate.
    + split; [discriminate|]. intros Hg. rewrite Hg in S. simpl in S.
      assert (streq (lit "production") (lit "production") = true) as T
        by (apply streq_eq; reflexivity).
      congruence.
  - rewrite served_snoc. reflexivity.
Qed.

(** X25: the namespace that the knowledge functions read is that of the
    last request that came with one, also when later requests came
    without; the credentials are those of the last request alone. *)
Theorem X25_namespace_sticks
    (envs : list Config.env) (e : Config.env) (s : Config.store) :
  Config.kv (Index.served envs s)
  = match lastNamespace envs with
    | Some ns => Some ns
    | None => Config.kv s
    end
  ∧ Config.line_object (Index.served (envs ++ [e]) s)
    = Config.line_object (Config.setEnv e s).
Proof.
  split; [|rewrite served_snoc; reflexivity].
  clear e. revert s. unfold lastNamespace.
  induction envs as [|e envs IH]; intros s; [reflexivity|].
  rewrite served_cons, IH. cbn [omap list_omap].
  unfold Config.kv, Config.setEnv. cbn [Config.kv_nursing_knowledge].
  destruct (Config.env_NURSING_KNOWLEDGE e) as [ns|]; [|reflexivity].
  rewrite last_cons. destruct (last _); reflexivity.
Qed.

(** X26: after [setEnv], [isConfigValid] is truthy exactly when the request
    carries the three credentials as non-empty strings; what it returns is
    then the access token, and the empty string otherwise. *)
Theorem X26_validity_after_setEnv (e : Config.env) (s : Config.store) :
  let r := Config.isConfigValid (Config.setEnv e s) in
  (truthy (JStr r) = true ↔ credentialed e)
  ∧ (credentialed e ∧ Some r = Config.env_LINE_CHANNEL_ACCESS_TOKEN e
     ∨ ¬ credentialed e ∧ r = []).
Proof.
  intros r. subst r. unfold credentialed.
  rewrite <- !orElse_nonempty.
  unfold Config.isConfigValid, Config.setEnv.
  cbn [Config.line_object Config.channelId Config.channelSecret
       Config.channelAccessToken truthy].
  destruct (streq (Config.orElse (Config.env_LINE_CHANNEL_ID e) []) []) eqn:A.
  { apply streq_eq in A. rewrite A. simpl. split.
    - split; [discriminate|]. intros (H & _). congruence.
    - right. split; [|reflexivity]. intros (H & _). congruence. }
  destruct (streq (Config.orElse (Config.env_LINE_CHANNEL_SECRET e) []) [])
    eqn:B.
  { apply streq_eq in B. rewrite B. simpl. split.
    - split; [discriminate|]. intros (_ & H & _). congruence.
    - right. split; [|reflexivity]. intros (_ & H & _). congruence. }
  apply streq_nil_false in A, B.
  destruct (streq (Config.orElse (Config.env_LINE_CHANNEL_ACCESS_TOKEN e) [])
              []) eqn:C.
  - apply streq_eq in C. rewrite C. simpl. split.
    + split; [discriminate|]. intros (_ & _ & H). congruence.
    + right. split; [|reflexivity]. intros (_ & _ & H). congruence.
  - simpl. apply streq_nil_false in C. split.
    + split; [intros _; auto|reflexivity].
    + left. split; [auto|].
      apply orElse_nonempty in C as (t & Ht & Hne). rewrite Ht.
      unfold Config.orElse. apply streq_nil_false in Hne. rewrite Hne.
      reflexivity.
Qed.

End ConfigFacts.

(** ** The handlers of media and of events *)

Section WebhookFacts.
Variable now : nat → jsstring.
Variable JSON_stringify : jsval → jsstring.
Variable delivers : nat → bool.

Lemma handleImage_spec (e : Webhook.event) (u : jsstring)
    (m : Webhook.message) (w : Webhook.world) :
  Webhook.source e = Some u → Webhook.event_message e = Some m →
  Webhook.handleImage now JSON_stringify delivers e w
  = let d := (Dialog.performAll now JSON_stringify
                [Dialog.UserImage u (Webhook.message_id m);
                 Dialog.BotMessage u (inl Webhook.imageReply)]
                (Webhook.dialog w)).2 in
    let n := length (Webhook.calls w) in
    if delivers n
    then (Normal tt,
          {| Webhook.dialog := d;
             Webhook.calls := Webhook.calls w
                              ++ replies e [Webhook.imageReply] |})
    else (if delivers (S n) then Normal tt else Throw,
          {| Webhook.dialog := d;
             Webhook.calls := Webhook.calls w
                              ++ replies e [Webhook.imageReply;
                                            Webhook.imageError] |}).
Proof.
  intros Hs Hm.
  unfold Webhook.handleImage, Webhook.userIdOf, Webhook.messageOf,
    Webhook.tryCatch, Webhook.replyMessage, Webhook.service, mbind,
    Webhook.Handler_bind.
  rewrite Hs, Hm. cbn [fst snd Webhook.dialog Webhook.calls].
  destruct (delivers (length (Webhook.calls w))) eqn:D1;
    cbn [fst snd Webhook.dialog Webhook.calls].
  - reflexivity.
  - rewrite length_app. cbn [length]. rewrite Nat.add_1_r.
    rewrite <- app_assoc. reflexivity.
Qed.

Lemma handleVideo_spec (e : Webhook.event) (u : jsstring)
    (m : Webhook.message) (w : Webhook.world) :
  Webhook.source e = Some u → Webhook.event_message e = Some m →
  Webhook.handleVideo now JSON_stringify delivers e w
  = let d := (Dialog.performAll now JSON_stringify
                [Dialog.UserVideo u (Webhook.message_id m);
                 Dialog.BotMessage u (inl Webhook.videoReply)]
                (Webhook.dialog w)).2 in
    let n := length (Webhook.calls w) in
    if delivers n
    then (Normal tt,
          {| Webhook.dialog := d;
             Webhook.calls := Webhook.calls w
                              ++ replies e [Webhook.videoReply] |})
    else (if delivers (S n) then Normal tt else Throw,
          {| Webhook.dialog := d;
             Webhook.calls := Webhook.calls w
                              ++ replies e [Webhook.videoReply;
                                            Webhook.videoError] |}).
Proof.
  intros Hs Hm.
  unfold Webhook.handleVideo, Webhook.userIdOf, Webhook.messageOf,
    Webhook.tryCatch, Webhook.replyMessage, Webhook.service, mbind,
    Webhook.Handler_bind.
  rewrite Hs, Hm. cbn [fst snd Webhook.dialog Webhook.calls].
  destruct (delivers (length (Webhook.calls w))) eqn:D1;
    cbn [fst snd Webhook.dialog Webhook.calls].
  - reflexivity.
  - rewrite length_app. cbn [length]. rewrite Nat.add_1_r.
    rewrite <- app_assoc. reflexivity.
Qed.

(** The operations of the dialog service that the handler of a medium
    performs. *)
Lemma handlerOf_spec (kind : media) (e : Webhook.event) (u : jsstring)
    (m : Webhook.message) (w : Webhook.world) :
  Webhook.source e = Some u → Webhook.event_message e = Some m →
  ∃ ops,
    appended JSON_stringify u ops
    = [(Dialog.user, placeholder kind (Webhook.message_id m));
       (Dialog.bot, acknowledgement kind)]
    ∧ handlerOf now JSON_stringify delivers kind e w
      = let d := (Dialog.performAll now JSON_stringify ops
                    (Webhook.dialog w)).2 in
        let n := length (Webhook.calls w) in
        if delivers n
        then (Normal tt,
              {| Webhook.dialog := d;
                 Webhook.calls := Webhook.calls w
                                  ++ replies e [acknowledgement kind] |})
        else (if delivers (S n) then Normal tt else Throw,
              {| Webhook.dialog := d;
                 Webhook.calls := Webhook.calls w
                                  ++ replies e [acknowledgement kind;
                                                failureNotice kind] |}).
Proof.
  intros Hs Hm. destruct kind.
  - exists [Dialog.UserImage u (Webhook.message_id m);
            Dialog.BotMessage u (inl Webhook.imageReply)].
    split; [|exact (handleImage_spec e u m w Hs Hm)].
    unfold appended. cbn [List.filter target].
    rewrite bool_decide_eq_true_2 by reflexivity. reflexivity.
  - exists [Dialog.UserVideo u (Webhook.message_id m);
            Dialog.BotMessage u (inl Webhook.videoReply)].
    split; [|exact (handleVideo_spec e u m w Hs Hm)].
    unfold appended. cbn [List.filter target].
    rewrite bool_decide_eq_true_2 by reflexivity. reflexivity.
Qed.


Variable handleText : Webhook.event → Webhook.Handler unit.

Lemma apology_fresh (text : jsstring) :
  In text [Webhook.imageReply; Webhook.imageError; Webhook.videoReply;
           Webhook.videoError; Webhook.unsupportedReply; Webhook.welcome;
           Webhook.postbackReply] →
  text ≠ Webhook.apology.
Proof.
  intros Hin E. subst text.
  assert (∀ t, In Webhook.apology t →
               existsb (streq Webhook.apology) t = true) as Hex.
  { intros t Ht. apply existsb_exists. exists Webhook.apology.
    split; [exact Ht|]. apply streq_eq. reflexivity. }
  apply Hex in Hin. revert Hin. vm_compute. discriminate.
Qed.

Lemma replies_app (e : Webhook.event) (a b : list jsstring) :
  replies e (a ++ b) = replies e a ++ replies e b.
Proof. apply map_app. Qed.

(** What the [switch] of [handleEvent] does with an event that is no text
    message. *)
Lemma dispatch_spec (e : Webhook.event) (w : Webhook.world) :
  isTextMessage e = false →
  ∃ texts,
    Webhook.calls
      (Webhook.dispatch now JSON_stringify delivers handleText e w).2
    = Webhook.calls w ++ replies e texts
    ∧ (length texts ≤ 2)%nat
    ∧ Forall (λ text, text ≠ Webhook.apology) texts
    ∧ (isMedia e = false →
       Webhook.dialog
         (Webhook.dispatch now JSON_stringify delivers handleText e w).2
       = Webhook.dialog w).
Proof.
  intros Ht. unfold isTextMessage in Ht. unfold isMedia.
  assert (∀ t, In t [Webhook.imageReply; Webhook.imageError;
                     Webhook.videoReply; Webhook.videoError;
                     Webhook.unsupportedReply; Webhook.welcome;
                     Webhook.postbackReply] → t ≠ Webhook.apology) as F
    by exact apology_fresh.
  assert (∃ texts : list jsstring,
            Webhook.calls w = Webhook.calls w ++ replies e texts
            ∧ (length texts ≤ 2)%nat
            ∧ Forall (λ text, text ≠ Webhook.apology) texts) as Hnone.
  { exists []. rewrite app_nil_r. repeat split; [simpl; lia|constructor]. }
  assert (∀ t, In t [Webhook.imageReply; Webhook.imageError;
                     Webhook.videoReply; Webhook.videoError;
                     Webhook.unsupportedReply; Webhook.welcome;
                     Webhook.postbackReply] →
            ∃ texts : list jsstring,
              Webhook.calls w ++ replies e [t]
              = Webhook.calls w ++ replies e texts
              ∧ (length texts ≤ 2)%nat
              ∧ Forall (λ text, text ≠ Webhook.apology) texts) as Hone.
  { intros t Hin. exists [t]. repeat split; [simpl; lia|].
    constructor; [exact (F t Hin)|constructor]. }
  unfold Webhook.dispatch.
  destruct (streq (Webhook.event_type e) (lit "message")) eqn:T1.
  { unfold Webhook.handleMessageEvent, Webhook.messageOf, mbind,
      Webhook.Handler_bind. cbn [fst snd].
    destruct (Webhook.event_message e) as [m|] eqn:Hm.
    2:{ destruct Hnone as (texts & H1 & H2 & H3). exists texts.
        repeat split; auto. }
    simpl in Ht. rewrite Ht.
    destruct (streq (Webhook.message_type m) (lit "image")) eqn:T2.
    { destruct (Webhook.source e) as [u|] eqn:Hs.
      - rewrite (handleImage_spec e u m w Hs Hm). cbv zeta.
        destruct (delivers (length (Webhook.calls w)));
          cbn [snd Webhook.calls Webhook.dialog].
        + eexists. split; [reflexivity|]. split; [simpl; lia|].
          split; [|simpl; discriminate].
          constructor; [apply F; left; reflexivity|constructor].
        + eexists. split; [reflexivity|]. split; [simpl; lia|].
          split; [|simpl; discriminate].
          constructor; [apply F; left; reflexivity|].
          constructor; [apply F; right; left; reflexivity|constructor].
      - unfold Webhook.handleImage, Webhook.userIdOf, mbind,
          Webhook.Handler_bind. rewrite Hs. cbn [fst snd].
        destruct Hnone as (texts & H1 & H2 & H3). exists texts.
        repeat split; auto. }
    destruct (streq (Webhook.message_type m) (lit "video")) eqn:T3.
    { destruct (Webhook.source e) as [u|] eqn:Hs.
      - rewrite (handleVideo_spec e u m w Hs Hm). cbv zeta.
        destruct (delivers (length (Webhook.calls w)));
          cbn [snd Webhook.calls Webhook.dialog].
        + eexists. split; [reflexivity|]. split; [simpl; lia|].
          split; [|simpl; discriminate].
          constructor; [apply F; do 2 right; left; reflexivity|constructor].
        + eexists. split; [reflexivity|]. split; [simpl; lia|].
          split; [|simpl; discriminate].
          constructor; [apply F; do 2 right; left; reflexivity|].
          constructor; [apply F; do 3 right; left; reflexivity|constructor].
      - unfold Webhook.handleVideo, Webhook.userIdOf, mbind,
          Webhook.Handler_bind. rewrite Hs. cbn [fst snd].
        destruct Hnone as (texts & H1 & H2 & H3). exists texts.
        repeat split; auto. }
    unfold Webhook.replyMessage. cbn [snd Webhook.calls Webhook.dialog].
    destruct (Hone Webhook.unsupportedReply
                ltac:(do 4 right; left; reflexivity))
      as (texts & H1 & H2 & H3).
    exists texts. repeat split; auto. }
  destruct (streq (Webhook.event_type e) (lit "follow")) eqn:T2.
  { unfold Webhook.handleFollowEvent, Webhook.userIdOf, mbind,
      Webhook.Handler_bind. cbn [fst snd].
    destruct (Webhook.source e) as [u|].
    - unfold Webhook.replyMessage. cbn [snd Webhook.calls Webhook.dialog].
      destruct (Hone Webhook.welcome ltac:(do 5 right; left; reflexivity))
        as (texts & H1 & H2 & H3).
      exists texts. repeat split; auto.
    - destruct Hnone as (texts & H1 & H2 & H3). exists texts.
      repeat split; auto. }
  destruct (streq (Webhook.event_type e) (lit "unfollow")) eqn:T3.
  { unfold Webhook.handleUnfollowEvent, Webhook.userIdOf, mbind,
      Webhook.Handler_bind. cbn [fst snd].
    destruct Hnone as (texts & H1 & H2 & H3). exists texts.
    destruct (Webhook.source e); repeat split; auto. }
  destruct (streq (Webhook.event_type e) (lit "postback")) eqn:T4.
  { unfold Webhook.handlePostbackEvent, Webhook.dataOf, mbind,
      Webhook.Handler_bind. cbn [fst snd].
    destruct (Webhook.postback e) as [d|].
    - unfold Webhook.replyMessage. cbn [snd Webhook.calls Webhook.dialog].
      destruct (Hone Webhook.postbackReply
                  ltac:(do 6 right; left; reflexivity))
        as (texts & H1 & H2 & H3).
      exists texts. repeat split; auto.
    - destruct Hnone as (texts & H1 & H2 & H3). exists texts.
      repeat split; auto. }
  destruct Hnone as (texts & H1 & H2 & H3). exists texts.
  repeat split; auto.
Qed.


End WebhookFacts.


